(** * minformer: a shallow embedding of [minformer/model.py]

    The model follows the Python source function by function.  JAX arrays
    are immutable values with a static shape; they are embedded as a shape
    together with a total accessor function.  Floating-point numbers
    (float32 and bfloat16) are idealised as real numbers, so that a dtype
    cast is the identity; 32-bit integers keep their wrap-around.  Python
    exceptions are values of the error monad [result]. *)

From Stdlib Require Import Reals ZArith List Lia Lra String Bool.
From Stdlib Require Import FunctionalExtensionality.
From stdpp Require Import base list.
Import ListNotations.

Set Default Proof Using "Type".

(** ** Exceptions *)

Inductive exn : Type :=
| ValueError (msg : string)
| TypeError (msg : string)
| IndexError (msg : string)
| ZeroDivisionError
| AssertionError.

Inductive result (A : Type) : Type :=
| Ok (a : A)
| Raise (e : exn).
Arguments Ok {A} a.
Arguments Raise {A} e.

Definition bind {A B : Type} (m : result A) (k : A -> result B) : result B :=
  match m with
  | Ok a => k a
  | Raise e => Raise e
  end.

Notation "'let*' x ':=' m 'in' k" := (bind m (fun x => k))
  (at level 10, x pattern, m at level 100, k at level 200).

Definition assert (b : bool) : result unit :=
  if b then Ok tt else Raise AssertionError.

Definition is_error {A : Type} (m : result A) : bool :=
  match m with Ok _ => false | Raise _ => true end.

(** ** 32-bit integers *)

Definition wrap32 (z : Z) : Z := ((z + 2 ^ 31) mod 2 ^ 32 - 2 ^ 31)%Z.
Definition add32 (a b : Z) : Z := wrap32 (a + b).
Definition sub32 (a b : Z) : Z := wrap32 (a - b).
Definition int32_max : Z := (2 ^ 31 - 1)%Z.
Definition int32_min : Z := (- 2 ^ 31)%Z.

(** ** Arrays *)

Record tensor (A : Type) : Type := Tensor {
  shape : list nat;
  data : list nat -> A
}.
Arguments Tensor {A} shape data.
Arguments shape {A} t.
Arguments data {A} t idx.

Declare Scope tensor_scope.
Delimit Scope tensor_scope with tensor.
Notation "x .[ i ]" := (data x i) (at level 1, left associativity, format "x .[ i ]") : tensor_scope.
Notation "i @ n" := (nth n i 0) (at level 15, only parsing) : tensor_scope.
Open Scope tensor_scope.

Definition ndim {A : Type} (x : tensor A) : nat := length (shape x).

(** [in_range i s]: the index [i] addresses an element of an array of shape [s]. *)
Definition in_range (i s : list nat) : Prop := Forall2 lt i s.

Fixpoint in_rangeb (i s : list nat) : bool :=
  match i, s with
  | [], [] => true
  | n :: i', d :: s' => (n <? d) && in_rangeb i' s'
  | _, _ => false
  end.

(** Two arrays are equal when they have the same shape and the same elements. *)
Definition teq {A : Type} (x y : tensor A) : Prop :=
  shape x = shape y /\ forall i, in_range i (shape x) -> x.[i] = y.[i].

Definition tmap {A B : Type} (f : A -> B) (x : tensor A) : tensor B :=
  Tensor (shape x) (fun i => f x.[i]).

Definition full {A : Type} (s : list nat) (a : A) : tensor A :=
  Tensor s (fun _ => a).

(** A Python list turned into a one-dimensional array. *)
Definition of_list {A : Type} (d : A) (l : list A) : tensor A :=
  Tensor [length l] (fun i => nth (i @ 0) l d).

Definition to_list {A : Type} (x : tensor A) : list A :=
  map (fun i => x.[[i]]) (seq 0 (shape x @ 0)).

(** *** NumPy broadcasting *)

Definition bdim (d1 d2 : nat) : option nat :=
  if d1 =? d2 then Some d1
  else if d1 =? 1 then Some d2
  else if d2 =? 1 then Some d1
  else None.

(** Shapes are aligned on their last axis: both lists are reversed here. *)
Fixpoint bshape_rev (s1 s2 : list nat) : option (list nat) :=
  match s1, s2 with
  | [], s => Some s
  | s, [] => Some s
  | d1 :: r1, d2 :: r2 =>
      match bdim d1 d2, bshape_rev r1 r2 with
      | Some d, Some r => Some (d :: r)
      | _, _ => None
      end
  end.

Definition broadcast_shapes (s1 s2 : list nat) : option (list nat) :=
  match bshape_rev (rev s1) (rev s2) with
  | Some r => Some (rev r)
  | None => None
  end.

Fixpoint bidx_rev (s i : list nat) : list nat :=
  match s, i with
  | d :: s', n :: i' => (if d =? 1 then 0 else n) :: bidx_rev s' i'
  | _, _ => []
  end.

(** The index of the operand of shape [s] that a result index [i] reads. *)
Definition bidx (s i : list nat) : list nat := rev (bidx_rev (rev s) (rev i)).

Definition broadcast2 {A B C : Type} (f : A -> B -> C)
    (x : tensor A) (y : tensor B) : result (tensor C) :=
  match broadcast_shapes (shape x) (shape y) with
  | Some s => Ok (Tensor s (fun i => f x.[bidx (shape x) i] y.[bidx (shape y) i]))
  | None => Raise (ValueError "Incompatible shapes for broadcasting")
  end.

(** [x[..., None, ...]]: a new axis of size one at position [axis]. *)
Definition expand_dims {A : Type} (x : tensor A) (axis : nat) : tensor A :=
  Tensor (take axis (shape x) ++ 1 :: drop axis (shape x))
         (fun i => x.[take axis i ++ drop (S axis) i]).

(** [jax.lax.broadcasted_iota(int32, s, dimension)] *)
Definition broadcasted_iota (s : list nat) (dimension : nat) : tensor Z :=
  Tensor s (fun i => Z.of_nat (i @ dimension)).

(** [jnp.arange(start, stop, step)] for a positive step, as a Python list. *)
Definition arange (start stop step : nat) : list nat :=
  map (fun j => start + j * step) (seq 0 ((stop - start + step - 1) / step)).

(** Finite sums of reals: [rsum n f] is [f 0 + ... + f (n-1)]. *)
Fixpoint rsum (n : nat) (f : nat -> R) : R :=
  match n with
  | O => 0%R
  | S m => (rsum m f + f m)%R
  end.

(** Sums of 32-bit integers, as [jnp.sum] over a boolean or int32 axis. *)
Fixpoint zsum32 (n : nat) (f : nat -> Z) : Z :=
  match n with
  | O => 0%Z
  | S m => add32 (zsum32 m f) (f m)
  end.

(** ** Training: the learning-rate schedule *)

Definition get_lr_with_cosine_decay_and_warmup
    (step total_steps : Z) (max_lr min_lr : R) (warmup_steps : Z) : R :=
  let warmup (s : Z) : R := (max_lr * (IZR s / IZR warmup_steps))%R in
  let cosine_decay (s : Z) : R :=
    let progress := (IZR (s - warmup_steps) / IZR (total_steps - warmup_steps))%R in
    (min_lr + 0.5 * (max_lr - min_lr) * (1 + cos (PI * progress)))%R in
  if (step <? warmup_steps)%Z then warmup step else cosine_decay step.

(** ** Configuration, weights and cache *)

(** The sharding rules, the mesh and the weight dtype of the Python [Config]
    place arrays on devices and do not change any value; they are left out. *)
Record Config : Type := {
  d_model : nat;
  ffw_multiplier : nat;
  query_heads : nat;
  key_heads : nat;
  num_layers : nat;
  key_dim : nat;
  vocab_size : nat;
  max_seq_len : nat;
  causal : bool;
  use_attn_kernel : bool;
  max_lr : R;
  min_lr : R;
  warmup_steps : Z;
  total_steps : Z
}.

Module Layer.
Record t : Type := {
  q : tensor R;       (* [d_model, query_heads, key_dim] *)
  k : tensor R;       (* [d_model, key_heads, key_dim] *)
  v : tensor R;       (* [d_model, key_heads, key_dim] *)
  proj : tensor R;    (* [query_heads, key_dim, d_model] *)
  w1 : tensor R;      (* [d_model, d_model * ffw_multiplier] *)
  w2 : tensor R;      (* [d_model * ffw_multiplier, d_model] *)
  gamma1 : tensor R;  (* [d_model] *)
  gamma2 : tensor R   (* [d_model] *)
}.
End Layer.

Module Weights.
Record t : Type := {
  layers : list Layer.t;
  embedding : tensor R;   (* [vocab_size, d_model] *)
  vocab_proj : tensor R   (* [d_model, vocab_size] *)
}.
End Weights.

Module KVCache.
Record t : Type := {
  k : list (tensor R);  (* per layer: [batch_size, key_heads, max_seq_len, key_dim] *)
  v : list (tensor R);  (* per layer: [batch_size, key_heads, max_seq_len, key_dim] *)
  lengths : tensor Z    (* [batch_size] *)
}.

Definition time_axis : nat := 2.

Definition init (cfg : Config) (batch_size max_seq_len : nat) : t :=
  {| k := repeat (full [batch_size; key_heads cfg; max_seq_len; key_dim cfg] 0%R)
               (num_layers cfg);
     v := repeat (full [batch_size; key_heads cfg; max_seq_len; key_dim cfg] 0%R)
               (num_layers cfg);
     lengths := full [batch_size] 0%Z |}.
End KVCache.

(** Dtype casts; the identity on the idealised reals. *)
Definition astype_float32 (x : tensor R) : tensor R := x.
Definition astype_bfloat16 (x : tensor R) : tensor R := x.

(** ** Index helpers of [jax.lax] *)

Definition clamp (lo hi z : Z) : Z := Z.max lo (Z.min hi z).

(** The start of a dynamic slice of size [size] in an axis of length [n]:
    a negative index counts from the end, and the result is clamped so that
    the slice stays inside the axis. *)
Definition slice_start (n size : nat) (index : Z) : nat :=
  let index := if (index <? 0)%Z then (index + Z.of_nat n)%Z else index in
  Z.to_nat (clamp 0 (Z.of_nat n - Z.of_nat size) index).

Definition dynamic_slice_in_dim {A : Type} (operand : tensor A)
    (start_index : Z) (slice_size : nat) (axis : nat) : result (tensor A) :=
  let n := shape operand @ axis in
  if n <? slice_size
  then Raise (TypeError "slice size must be less than or equal to operand dimension")
  else
    let start := slice_start n slice_size start_index in
    Ok (Tensor (<[axis := slice_size]> (shape operand))
               (fun i => operand.[<[axis := i @ axis + start]> i])).

Fixpoint all_le (s1 s2 : list nat) : bool :=
  match s1, s2 with
  | [], [] => true
  | d1 :: r1, d2 :: r2 => (d1 <=? d2) && all_le r1 r2
  | _, _ => false
  end.

Definition dynamic_update_slice_in_dim {A : Type} (operand update : tensor A)
    (start_index : Z) (axis : nat) : result (tensor A) :=
  if negb (all_le (shape update) (shape operand))
  then Raise (TypeError "update shape must be smaller than operand shape")
  else
    let start := slice_start (shape operand @ axis) (shape update @ axis) start_index in
    Ok (Tensor (shape operand)
               (fun i =>
                  let j := <[axis := i @ axis - start]> i in
                  if (start <=? i @ axis) && in_rangeb j (shape update)
                  then update.[j] else operand.[i])).

(** Row [b] of an array along its first axis. *)
Definition row {A : Type} (x : tensor A) (b : nat) : tensor A :=
  Tensor (tail (shape x)) (fun i => x.[b :: i]).

(** [jax.vmap] over [n] rows.  The function is traced once, on an abstract
    row: its shape and its errors do not depend on the row. *)
Definition vmap {A : Type} (n : nat) (f : nat -> result (tensor A)) : result (tensor A) :=
  let* t0 := f 0 in
  Ok (Tensor (n :: shape t0)
             (fun i => match f (i @ 0) with
                       | Ok t => t.[tail i]
                       | Raise _ => t0.[tail i]
                       end)).

(** ** Rotary embeddings *)

Definition einsum_i_j_ij (x y : tensor R) : tensor R :=
  Tensor [shape x @ 0; shape y @ 0] (fun i => (x.[[i @ 0]] * y.[[i @ 1]])%R).

Definition default_min_timescale : R := 1.0.
Definition default_max_timescale : R := 10000.0.

Definition timescale_of (features : nat) (min_timescale max_timescale : R) : tensor R :=
  let fraction :=
    tmap (fun n => (INR n / INR features)%R) (of_list 0 (arange 0 features 2)) in
  tmap (fun f => (min_timescale * Rpower (max_timescale / min_timescale) f)%R) fraction.

Definition _generate_fixed_pos_embedding (features length : nat)
    (min_timescale max_timescale : R) : tensor R * tensor R :=
  let timescale := timescale_of features min_timescale max_timescale in
  let rotational_frequency := tmap (fun t => (1.0 / t)%R) timescale in
  let sinusoid_inp :=
    einsum_i_j_ij (tmap INR (of_list 0 (arange 0 length 1))) rotational_frequency in
  (tmap sin sinusoid_inp, tmap cos sinusoid_inp).

(** [jnp.split(x, 2, axis=-1)] *)
Definition split2_last {A : Type} (x : tensor A) : result (tensor A * tensor A) :=
  match shape x with
  | [] => Raise (IndexError "axis -1 is out of bounds for array of dimension 0")
  | _ =>
      let d := List.last (shape x) 0 in
      if negb (d mod 2 =? 0)
      then Raise (ValueError "array split does not result in an equal division")
      else
        let h := d / 2 in
        let s := removelast (shape x) ++ [h] in
        Ok (Tensor s (fun i => x.[i]),
            Tensor s (fun i => x.[removelast i ++ [List.last i 0 + h]]))
  end.

(** [jnp.concatenate([x, y], axis=-1)] *)
Definition concatenate_last {A : Type} (x y : tensor A) : result (tensor A) :=
  match shape x, shape y with
  | [], _ | _, [] =>
      Raise (ValueError "Zero-dimensional arrays cannot be concatenated.")
  | _, _ =>
      if negb (bool_decide (removelast (shape x) = removelast (shape y)))
      then Raise (TypeError "Cannot concatenate arrays with different shapes")
      else
        let dx := List.last (shape x) 0 in
        let dy := List.last (shape y) 0 in
        Ok (Tensor (removelast (shape x) ++ [dx + dy])
                   (fun i => if List.last i 0 <? dx then x.[i]
                             else y.[removelast i ++ [List.last i 0 - dx]]))
  end.

Definition apply_rotary_embedding (x sin cos : tensor R) : result (tensor R) :=
  let* _ := assert (ndim x =? 4) in
  let* _ := assert ((ndim sin =? 3) && (ndim cos =? 3)) in
  let* (x1, x2) := split2_last x in
  (* [B, T, head_dim] -> [B, h, T, head_dim] *)
  let sin := expand_dims sin 1 in
  let cos := expand_dims cos 1 in
  let* x1cos := broadcast2 Rmult x1 cos in
  let* x2sin := broadcast2 Rmult x2 sin in
  let* lo := broadcast2 Rminus x1cos x2sin in
  let* x2cos := broadcast2 Rmult x2 cos in
  let* x1sin := broadcast2 Rmult x1 sin in
  let* hi := broadcast2 Rplus x2cos x1sin in
  concatenate_last lo hi.

Definition slice_at {A : Type} (table : tensor A) (index : Z) (length : nat)
  : result (tensor A) :=
  dynamic_slice_in_dim table index length 0.

Definition slices_at {A : Type} (table : tensor A) (indices : tensor Z) (length : nat)
  : result (tensor A) :=
  match shape indices with
  | [] => Raise (ValueError "vmap was requested to map its argument along axis 0")
  | n :: _ => vmap n (fun b => slice_at table (row indices b).[[]] length)
  end.

(** ** Attention *)

Definition check (b : bool) (e : exn) : result unit :=
  if b then Ok tt else Raise e.

Definition make_attention_mask (q_len k_len : nat)
    (q_segment_ids k_segment_ids q_offset : tensor Z) (causal : bool)
  : result (tensor bool) :=
  let* _ := check ((2 <=? ndim q_segment_ids) && (2 <=? ndim k_segment_ids))
                  (IndexError "Too many indices") in
  (* [B, t, T] *)
  let* segment_mask :=
    broadcast2 Z.eqb (expand_dims q_segment_ids 2) (expand_dims k_segment_ids 1) in
  (* [B, t, T] -> [B, 1, t, T] *)
  let segment_mask := expand_dims segment_mask 1 in
  if causal then
    (* [b, h, t, T] *)
    let qk := [1; 1; q_len; k_len] in
    let q_iota := broadcasted_iota qk 2 in
    let k_iota := broadcasted_iota qk 3 in
    let* _ := check (1 <=? ndim q_offset) (IndexError "Too many indices") in
    let* q_positions :=
      broadcast2 add32 q_iota
                 (expand_dims (expand_dims (expand_dims q_offset 1) 1) 1) in
    let* causal_mask := broadcast2 Z.geb q_positions k_iota in
    let* combined_mask := broadcast2 andb segment_mask causal_mask in
    Ok combined_mask
  else Ok segment_mask.

Definition einsum_bhtd_bhTd_bhtT (x y : tensor R) : result (tensor R) :=
  match shape x, shape y with
  | [b; h; t; d], [b'; h'; T; d'] =>
      if (b =? b') && (h =? h') && (d =? d')
      then Ok (Tensor [b; h; t; T]
                 (fun i => rsum d (fun j =>
                    x.[[i @ 0; i @ 1; i @ 2; j]] * y.[[i @ 0; i @ 1; i @ 3; j]])%R))
      else Raise (ValueError "einsum: size of a label does not match")
  | _, _ => Raise (ValueError "einsum: operand has wrong number of dimensions")
  end.

Definition einsum_bhtT_bhTd_bhtd (x y : tensor R) : result (tensor R) :=
  match shape x, shape y with
  | [b; h; t; T], [b'; h'; T'; d] =>
      if (b =? b') && (h =? h') && (T =? T')
      then Ok (Tensor [b; h; t; d]
                 (fun i => rsum T (fun j =>
                    x.[[i @ 0; i @ 1; i @ 2; j]] * y.[[i @ 0; i @ 1; j; i @ 3]])%R))
      else Raise (ValueError "einsum: size of a label does not match")
  | _, _ => Raise (ValueError "einsum: operand has wrong number of dimensions")
  end.

(** The maximum of [f 0, ..., f (n-1)]. *)
Fixpoint rmax (n : nat) (f : nat -> R) : R :=
  match n with
  | O => 0%R
  | S O => f O
  | S m => Rmax (rmax m f) (f m)
  end.

(** [jnp.max(x, axis=-1, keepdims=True)] *)
Definition max_last_keepdims (x : tensor R) : result (tensor R) :=
  let n := List.last (shape x) 0 in
  let* _ := check (negb (n =? 0))
      (ValueError "zero-size array to reduction operation max which has no identity") in
  Ok (Tensor (removelast (shape x) ++ [1])
             (fun i => rmax n (fun j => x.[removelast i ++ [j]]))).

(** [jax.nn.softmax(x, axis=-1)]: the maximum of the row is subtracted before
    exponentiation. *)
Definition softmax (x : tensor R) : tensor R :=
  let n := List.last (shape x) 0 in
  Tensor (shape x)
         (fun i =>
            let x_max := rmax n (fun j => x.[removelast i ++ [j]]) in
            (exp (x.[i] - x_max)
             / rsum n (fun j => exp (x.[removelast i ++ [j]] - x_max)))%R).

(** The sentinel that replaces the masked scores. *)
Definition mask_value : R := (-1e30)%R.

Definition attention (q k v : tensor R)
    (q_segment_ids k_segment_ids q_offset : tensor Z) (cfg : Config)
  : result (tensor R) :=
  (* Div sqrt(key_dim) *)
  let d := List.last (shape q) 0 in
  let* _ := check (negb (d =? 0)) ZeroDivisionError in
  let scale := Rpower (INR d) (-0.5) in
  let* qk := einsum_bhtd_bhTd_bhtT q k in
  let qk := tmap (fun s => (s * scale)%R) qk in
  let* mask :=
    make_attention_mask (shape q @ 2) (shape k @ 2)
                        q_segment_ids k_segment_ids q_offset (causal cfg) in
  (* Apply the combined mask *)
  let* max_score := max_last_keepdims qk in
  let* qk := broadcast2 (fun (m : bool) s => if m then s else mask_value) mask qk in
  let attn := softmax (astype_float32 qk) in
  let* out := einsum_bhtT_bhTd_bhtd attn v in
  Ok (astype_bfloat16 out).

(** [rms_norm]: [mean] over the last axis, with [keepdims]. *)
Definition mean_last_keepdims (x : tensor R) : tensor R :=
  let n := List.last (shape x) 0 in
  Tensor (removelast (shape x) ++ [1])
         (fun i => (rsum n (fun j => x.[removelast i ++ [j]]) / INR n)%R).

Definition rms_norm (x gamma : tensor R) : result (tensor R) :=
  let rms :=
    tmap (fun m => sqrt (m + 1e-6)) (mean_last_keepdims (tmap (fun a => (a ^ 2)%R) x)) in
  let* gx := broadcast2 Rmult gamma x in
  broadcast2 Rdiv gx rms.

(** [jax.nn.gelu], in its default (tanh) approximation. *)
Definition gelu (x : R) : R :=
  (0.5 * x * (1 + tanh (sqrt (2 / PI) * (x + 0.044715 * x ^ 3))))%R.

(** ** Transformer block *)

Definition einsum_btd_dhq_bhtq (x w : tensor R) : result (tensor R) :=
  match shape x, shape w with
  | [b; t; d], [d'; h; q] =>
      if d =? d'
      then Ok (Tensor [b; h; t; q]
                 (fun i => rsum d (fun j =>
                    x.[[i @ 0; i @ 2; j]] * w.[[j; i @ 1; i @ 3]])%R))
      else Raise (ValueError "einsum: size of a label does not match")
  | _, _ => Raise (ValueError "einsum: operand has wrong number of dimensions")
  end.

Definition einsum_bhtq_hqd_btd (x w : tensor R) : result (tensor R) :=
  match shape x, shape w with
  | [b; h; t; q], [h'; q'; d] =>
      if (h =? h') && (q =? q')
      then Ok (Tensor [b; t; d]
                 (fun i => rsum h (fun jh => rsum q (fun jq =>
                    x.[[i @ 0; jh; i @ 1; jq]] * w.[[jh; jq; i @ 2]]))%R))
      else Raise (ValueError "einsum: size of a label does not match")
  | _, _ => Raise (ValueError "einsum: operand has wrong number of dimensions")
  end.

(** ["btd,df->btf"], also used as ["btf,fd->btd"] and ["btd,dv->btv"]. *)
Definition einsum_btd_df_btf (x w : tensor R) : result (tensor R) :=
  match shape x, shape w with
  | [b; t; d], [d'; f] =>
      if d =? d'
      then Ok (Tensor [b; t; f]
                 (fun i => rsum d (fun j => x.[[i @ 0; i @ 1; j]] * w.[[j; i @ 2]])%R))
      else Raise (ValueError "einsum: size of a label does not match")
  | _, _ => Raise (ValueError "einsum: operand has wrong number of dimensions")
  end.

(** [jnp.sum(x, axis=-1)] on 32-bit integers. *)
Definition sum_last32 (x : tensor Z) : tensor Z :=
  Tensor (removelast (shape x))
         (fun i => zsum32 (List.last (shape x) 0) (fun t => x.[i ++ [t]])).

(** [segment_ids != 0], with the boolean counted as an integer. *)
Definition nonzero (x : tensor Z) : tensor Z :=
  tmap (fun s => if (s =? 0)%Z then 0%Z else 1%Z) x.

(** [jax.vmap(update, in_axes=(0, 0, 0))] *)
Definition vmap_update (update : tensor R -> tensor R -> Z -> result (tensor R))
    (original upd : tensor R) (at_ : tensor Z) : result (tensor R) :=
  match shape original, shape upd, shape at_ with
  | n1 :: _, n2 :: _, n3 :: _ =>
      if (n1 =? n2) && (n2 =? n3)
      then vmap n1 (fun b => update (row original b) (row upd b) (row at_ b).[[]])
      else Raise (ValueError "vmap got inconsistent sizes for array axes to be mapped")
  | _, _, _ =>
      Raise (ValueError "vmap was requested to map its argument along axis 0")
  end.

Definition list_get {A : Type} (l : list A) (idx : nat) : result A :=
  match l !! idx with
  | Some a => Ok a
  | None => Raise (IndexError "list index out of range")
  end.

(** The [cache_update] scope of [forward_layer], for a supplied cache. *)
Definition cache_update (k v : tensor R) (segment_ids : tensor Z) (idx : nat)
    (cache : KVCache.t)
  : result (tensor R * tensor R * tensor Z * tensor Z * tensor Z) :=
  let* cache_k := list_get (KVCache.k cache) idx in
  let* cache_v := list_get (KVCache.v cache) idx in
  let update original update at_ :=
    (* Axis -1 because we are in vmap. *)
    dynamic_update_slice_in_dim original update at_ (KVCache.time_axis - 1) in
  let* k := vmap_update update cache_k (astype_bfloat16 k) (KVCache.lengths cache) in
  let* v := vmap_update update cache_v (astype_bfloat16 v) (KVCache.lengths cache) in
  let q_segment_ids := nonzero segment_ids in
  (* [1, T] *)
  let time_indices :=
    expand_dims (tmap Z.of_nat (of_list 0 (arange 0 (shape v @ KVCache.time_axis) 1))) 0 in
  (* [B,] *)
  let incremental_positions := sum_last32 (nonzero segment_ids) in
  (* I.e. valid below where we've written things [B, T] *)
  let* bound := broadcast2 add32 (KVCache.lengths cache) incremental_positions in
  let* k_segment_ids :=
    broadcast2 (fun t b => if (t <? b)%Z then 1%Z else 0%Z)
               time_indices (expand_dims bound 1) in
  let k_mask := expand_dims (expand_dims k_segment_ids 1) 3 in
  let* k := broadcast2 (fun a m => (a * IZR m)%R) k k_mask in
  let* v := broadcast2 (fun a m => (a * IZR m)%R) v k_mask in
  let q_offset := KVCache.lengths cache in
  Ok (k, v, q_segment_ids, k_segment_ids, q_offset).

Section Model.

(** The fused flash-attention kernel of [jax.experimental.pallas] is outside
    this repository; it is a parameter of the model. *)
Variable flash_attention :
  tensor R -> tensor R -> tensor R -> tensor Z -> tensor Z -> bool -> R -> result (tensor R).

Definition attention_kernel (q k v : tensor R) (q_segment_ids kv_segment_ids : tensor Z)
    (cfg : Config) : result (tensor R) :=
  let q := astype_float32 q in
  let k := astype_float32 k in
  let v := astype_float32 v in
  let d := List.last (shape q) 0 in
  let* _ := check (negb (d =? 0)) ZeroDivisionError in
  let scale := Rpower (INR d) (-0.5) in
  let* out := flash_attention q k v q_segment_ids kv_segment_ids true scale in
  Ok (astype_bfloat16 out).

Definition forward_layer (x : tensor R) (segment_ids : tensor Z) (layer : Layer.t)
    (sin cos : tensor R) (idx : nat) (cfg : Config) (cache : option KVCache.t)
  : result (tensor R * tensor R * tensor R) :=
  (* First RMSNorm (Pre-LN for attention) *)
  let* attn_in := rms_norm x (Layer.gamma1 layer) in
  (* Multi-head attention *)
  let* q := einsum_btd_dhq_bhtq attn_in (Layer.q layer) in
  let* k := einsum_btd_dhq_bhtq attn_in (Layer.k layer) in
  let* v := einsum_btd_dhq_bhtq attn_in (Layer.v layer) in
  (* Apply rotary embeddings *)
  let* q := apply_rotary_embedding q sin cos in
  let* k := apply_rotary_embedding k sin cos in
  let* (k, v, q_segment_ids, k_segment_ids, q_offset) :=
    match cache with
    | Some cache => cache_update k v segment_ids idx cache
    | None => Ok (k, v, segment_ids, segment_ids, full [shape x @ 0] 0%Z)
    end in
  (* Compute attention *)
  let* attn_out :=
    if use_attn_kernel cfg then
      match cache with
      | Some _ => Raise (ValueError "Kernel is only for training.")
      | None => attention_kernel q k v q_segment_ids k_segment_ids cfg
      end
    else attention q k v q_segment_ids k_segment_ids q_offset cfg in
  (* Project attention output *)
  let* attn_out := einsum_bhtq_hqd_btd attn_out (Layer.proj layer) in
  (* Residual connection *)
  let* x := broadcast2 Rplus x attn_out in
  (* Second RMSNorm (Pre-LN for FFN) *)
  let* ff_in := rms_norm x (Layer.gamma2 layer) in
  (* FFN *)
  let* ff_out := einsum_btd_df_btf ff_in (Layer.w1 layer) in
  let ff_out := tmap gelu ff_out in
  let* ff_out := einsum_btd_df_btf ff_out (Layer.w2 layer) in
  (* Residual connection *)
  let* x := broadcast2 Rplus x ff_out in
  Ok (x, k, v).

(** *** The full forward pass

    [forward] assigns the new keys and values into the lists held by the
    cache object it was given ([cache.k[idx] = k]), so the caller's cache is
    part of the state: [M A] threads that object and carries the exception. *)

Definition store : Type := option KVCache.t.
Definition M (A : Type) : Type := store -> result A * store.

Definition ret {A : Type} (a : A) : M A := fun s => (Ok a, s).
Definition lift {A : Type} (m : result A) : M A := fun s => (m, s).
Definition get : M store := fun s => (Ok s, s).
Definition put (s' : store) : M unit := fun _ => (Ok tt, s').
Definition bindM {A B : Type} (m : M A) (k : A -> M B) : M B :=
  fun s => match m s with
           | (Ok a, s') => k a s'
           | (Raise e, s') => (Raise e, s')
           end.

Notation "'let!' x ':=' m 'in' k" := (bindM m (fun x => k))
  (at level 10, x pattern, m at level 100, k at level 200).

Definition list_set {A : Type} (l : list A) (idx : nat) (a : A) : result (list A) :=
  if idx <? length l then Ok (<[idx := a]> l)
  else Raise (IndexError "list assignment index out of range").

(** [table[ids, :]]: a negative id counts from the end, and an id outside the
    table is clamped. *)
Definition gather_index (n : nat) (i : Z) : nat :=
  let i := if (i <? 0)%Z then (i + Z.of_nat n)%Z else i in
  Z.to_nat (clamp 0 (Z.of_nat n - 1) i).

Definition take_rows (table : tensor R) (ids : tensor Z) : tensor R :=
  Tensor (shape ids ++ tail (shape table))
         (fun i => table.[gather_index (shape table @ 0) ids.[take (ndim ids) i]
                          :: drop (ndim ids) i]).

(** The body of the loop over the layers, from layer number [idx] on. *)
Fixpoint forward_layers (x : tensor R) (segment_ids : tensor Z) (layers : list Layer.t)
    (sin cos : tensor R) (idx : nat) (cfg : Config) : M (tensor R) :=
  match layers with
  | [] => ret x
  | layer :: layers' =>
      let! cache := get in
      let! (x, k, v) := lift (forward_layer x segment_ids layer sin cos idx cfg cache) in
      let! _ :=
        match cache with
        | Some c =>
            let! ks := lift (list_set (KVCache.k c) idx k) in
            let! _ := put (Some {| KVCache.k := ks; KVCache.v := KVCache.v c;
                                   KVCache.lengths := KVCache.lengths c |}) in
            let! vs := lift (list_set (KVCache.v c) idx v) in
            put (Some {| KVCache.k := ks; KVCache.v := vs;
                         KVCache.lengths := KVCache.lengths c |})
        | None => ret tt
        end in
      forward_layers x segment_ids layers' sin cos (S idx) cfg
  end.

Definition forward (x segment_ids : tensor Z) (weights : Weights.t) (cfg : Config)
  : M (tensor R * option KVCache.t) :=
  (* Embed input tokens [B, T] -> [B, T D] *)
  let x := take_rows (Weights.embedding weights) x in
  let! _ := lift (check (2 <=? ndim x) (IndexError "tuple index out of range")) in
  let batch := shape x @ 0 in
  let seq_len := shape x @ 1 in
  let '(sin, cos) :=
    _generate_fixed_pos_embedding (key_dim cfg) (max_seq_len cfg)
                                  default_min_timescale default_max_timescale in
  (* Apply rotary embeddings: [B, T, head_dim] *)
  let! cache := get in
  let start_indices :=
    match cache with
    | Some c => KVCache.lengths c
    | None => full [batch] 0%Z
    end in
  let! sin := lift (slices_at sin start_indices seq_len) in
  let! cos := lift (slices_at cos start_indices seq_len) in
  let! x := forward_layers x segment_ids (Weights.layers weights) sin cos 0 cfg in
  (* Project to vocabulary size *)
  let! logits := lift (einsum_btd_df_btf x (Weights.vocab_proj weights)) in
  let! cache := get in
  match cache with
  | Some c =>
      (* Sum where there is a valid segment id (i.e. non padding tokens) [B, T] -> [B,] *)
      let! lengths :=
        lift (broadcast2 add32 (KVCache.lengths c) (sum_last32 (nonzero segment_ids))) in
      ret (logits, Some {| KVCache.k := KVCache.k c; KVCache.v := KVCache.v c;
                           KVCache.lengths := lengths |})
  | None => ret (logits, None)
  end.

(** ** Inference *)

(** [jnp.pad(x, (0, n))]: every axis is padded on the right with zeros. *)
Definition pad_right (x : tensor Z) (n : nat) : tensor Z :=
  Tensor (map (fun d => d + n) (shape x))
         (fun i => if in_rangeb i (shape x) then x.[i] else 0%Z).

Definition prepare_chunk (chunk : tensor Z) (pad_to : nat) (pad_id : Z)
  : result (tensor Z * tensor Z) :=
  let len := shape chunk @ 0 in
  let* _ := check (len <=? pad_to) (ValueError "index can't contain negative values") in
  (* [length] -> [1, padded] *)
  let chunk := expand_dims (pad_right chunk (pad_to - len)) 0 in
  let segment_ids := tmap (fun t => if (t =? pad_id)%Z then 0%Z else 1%Z) chunk in
  Ok (chunk, segment_ids).

(** The first index at which [f] is largest on [0, n). *)
Fixpoint argmax_fn (n : nat) (f : nat -> R) : nat :=
  match n with
  | O => O
  | S m =>
      let j := argmax_fn m f in
      if Rlt_dec (f j) (f m) then m else j
  end.

(** [jnp.argmax(x, -1)] *)
Definition argmax (x : tensor R) : result (tensor Z) :=
  let n := List.last (shape x) 0 in
  let* _ := check (negb (n =? 0))
                  (ValueError "attempt to get argmax of an empty sequence") in
  Ok (Tensor (removelast (shape x))
             (fun i => Z.of_nat (argmax_fn n (fun j => x.[i ++ [j]])))).


(** The sampler is a parameter of the model, applied to the seed of
    [PRNGKey]; [gumbel_categorical] is what JAX provides for it. *)
Variable categorical : Z -> tensor R -> result (tensor Z).

(** At [temperature = 0] the floating-point division gives infinities and
    NaNs, which the real numbers do not have: the properties of the sampling
    branch are stated for a temperature that is not 0. *)
Definition sample_next_token (logits : tensor R) (temperature : R) (greedy : bool)
  : result (tensor Z) :=
  if greedy then argmax logits
  else
    (* Apply temperature *)
    let logits := tmap (fun l => (l / temperature)%R) logits in
    (* Convert to probabilities *)
    let probs := softmax logits in
    (* Sample from the distribution *)
    categorical 0%Z probs.

(** A static argument of [jax.jit] has to be hashable.  [Config] is a
    [dataclasses.dataclass] with [eq] and without [frozen], for which Python
    sets [__hash__] to [None]: no [Config] is hashable. *)
Definition Config_hashable (cfg : Config) : bool := false.

(** [jax.jit(forward, static_argnames="cfg")(x, segment_ids, weights, cfg, cache)]:
    the call hashes the static argument before it traces [forward] and raises
    for one that is not hashable.  The compiled function flattens its
    arguments, so the caller's cache object is not assigned to. *)
Definition jit_forward (x segment_ids : tensor Z) (weights : Weights.t) (cfg : Config)
    (cache : KVCache.t) : result (tensor R * KVCache.t) :=
  let* _ := check (Config_hashable cfg)
                  (ValueError "Non-hashable static arguments are used in a jit function") in
  let* (logits, cache) := fst (forward x segment_ids weights cfg (Some cache)) in
  match cache with
  | Some c => Ok (logits, c)
  | None => Raise (TypeError "cannot unpack non-iterable")
  end.

(** [logits[batch_idx, t, :]] for a Python integer [batch_idx] and a traced [t]. *)
Definition logits_at (logits : tensor R) (batch_idx : nat) (t : Z) : result (tensor R) :=
  let* _ := check (batch_idx <? shape logits @ 0) (IndexError "index is out of bounds") in
  Ok (Tensor (drop 2 (shape logits))
             (fun i => logits.[batch_idx :: gather_index (shape logits @ 1) t :: i])).

(** Lines 791-798 of [sample_from_prompt]: the padded prompt, its segment
    ids and the cache with the length of the row set to zero, the arguments
    of the first call of the model. *)
Definition prepare_prompt (tokens : tensor Z) (cache : KVCache.t) (cfg : Config)
    (batch_idx : nat) : result (tensor Z * tensor Z * KVCache.t) :=
  let len := shape tokens @ 0 in
  (* Calculate the next power of 2 for padding, up to cfg.max_seq. *)
  let* _ := assert (len <=? max_seq_len cfg) in
  let* _ := check (negb (len =? 0)) (ValueError "math domain error") in
  let pad_to := 2 ^ Nat.log2_up len in
  let* (prompt, prompt_segment_ids) := prepare_chunk tokens pad_to 0 in
  let* lengths :=
    dynamic_update_slice_in_dim (KVCache.lengths cache) (full [1] 0%Z)
                                (Z.of_nat batch_idx) 0 in
  Ok (prompt, prompt_segment_ids,
      {| KVCache.k := KVCache.k cache; KVCache.v := KVCache.v cache;
         KVCache.lengths := lengths |}).

(** Lines 791-802 of [sample_from_prompt]: the prompt goes through the model. *)
Definition ingest_prompt (tokens : tensor Z) (weights : Weights.t) (cache : KVCache.t)
    (cfg : Config) (batch_idx : nat) : result (tensor R * KVCache.t) :=
  let* (prompt, prompt_segment_ids, cache) := prepare_prompt tokens cache cfg batch_idx in
  let* (logits, cache) := jit_forward prompt prompt_segment_ids weights cfg cache in
  let* next_token_logit :=
    logits_at logits batch_idx (sub32 (KVCache.lengths cache).[[batch_idx]] 1) in
  Ok (next_token_logit, cache).

(** The decoding loop of [sample_from_prompt]; [acc] is the Python list
    [tokens], in the order of its [append]s. *)
Fixpoint decode (num_steps : nat) (next_token_logit : tensor R) (acc : list Z)
    (weights : Weights.t) (cache : KVCache.t) (cfg : Config) (batch_idx : nat)
    (greedy : bool) : result (list Z * KVCache.t) :=
  match num_steps with
  | O => Ok (acc, cache)
  | S n =>
      let* next_token := sample_next_token next_token_logit 1.0 greedy in
      let next_token := expand_dims next_token 0 in
      let acc := acc ++ [next_token.[[0]]] in
      let* (prompt, prompt_segment_ids) := prepare_chunk next_token 1 0 in
      let* (logits, cache) := jit_forward prompt prompt_segment_ids weights cfg cache in
      let* next_token_logit := logits_at logits batch_idx 0 in
      decode n next_token_logit acc weights cache cfg batch_idx greedy
  end.

Definition sample_from_prompt (tokens : tensor Z) (weights : Weights.t)
    (cache : KVCache.t) (cfg : Config) (batch_idx num_steps : nat) (greedy : bool)
  : result (list Z * KVCache.t) :=
  let* (next_token_logit, cache) := ingest_prompt tokens weights cache cfg batch_idx in
  decode num_steps next_token_logit [] weights cache cfg batch_idx greedy.

End Model.

(** ** Auxiliary definitions of the statements *)

(** What [apply_rotary_embedding] computes on arrays of the expected shape. *)
Definition rotated (x sin cos : tensor R) (h : nat) (b hd t d : nat) : R :=
  if d <? h
  then Rminus (Rmult x.[[b; hd; t; d]] cos.[[b; t; d]])
              (Rmult x.[[b; hd; t; d + h]] sin.[[b; t; d]])
  else Rplus (Rmult x.[[b; hd; t; d]] cos.[[b; t; d - h]])
             (Rmult x.[[b; hd; t; d - h]] sin.[[b; t; d - h]]).

(** An array of ones, for concrete instances. *)
Definition ones (s : list nat) : tensor R := full s 1%R.

(** The score of query [i] against key [j] after masking, and one row of the
    softmax, as [attention] computes them. *)
Definition masked_score (q k : tensor R) (allowed : nat -> nat -> nat -> bool)
    (b hd i j : nat) : R :=
  let d := List.last (shape q) 0 in
  if allowed b i j
  then Rmult (rsum d (fun n => Rmult q.[[b; hd; i; n]] k.[[b; hd; j; n]]))
             (Rpower (INR d) (-0.5))
  else mask_value.

Definition softmax_row (n : nat) (row : nat -> R) (j : nat) : R :=
  Rdiv (exp (Rminus (row j) (rmax n row)))
       (rsum n (fun j' => exp (Rminus (row j') (rmax n row)))).

(** The pairs that the mask of the code lets through: equal segment ids and,
    when causal, a key that is not after the query. *)
Definition allowed (q_segment_ids k_segment_ids q_offset : tensor Z) (causal : bool)
    (b i j : nat) : bool :=
  (q_segment_ids.[[b; i]] =? k_segment_ids.[[b; j]])%Z
  && (if causal
      then (add32 (Z.of_nat i) q_offset.[[b]] >=? Z.of_nat j)%Z
      else true).

(** The pairs that the specification describes: as above, and neither
    position is padding (segment id 0). *)
Definition allowed_non_padding (q_segment_ids k_segment_ids q_offset : tensor Z)
    (causal : bool) (b i j : nat) : bool :=
  allowed q_segment_ids k_segment_ids q_offset causal b i j
  && negb (q_segment_ids.[[b; i]] =? 0)%Z
  && negb (k_segment_ids.[[b; j]] =? 0)%Z.

(** A configuration with a causal reference attention, for concrete instances. *)
Definition reference_cfg : Config :=
  {| d_model := 2; ffw_multiplier := 1; query_heads := 1; key_heads := 1;
     num_layers := 1; key_dim := 2; vocab_size := 3; max_seq_len := 4;
     causal := true; use_attn_kernel := false;
     max_lr := 3e-4; min_lr := 1e-5; warmup_steps := 50; total_steps := 10000 |}.

(** The number of non-padding tokens of row [b] of a chunk, as the code counts them. *)
Definition valid_tokens (segment_ids : tensor Z) (b : nat) : Z :=
  (sum_last32 (nonzero segment_ids)).[[b]].

(** Weights of ones for [reference_cfg], a fresh cache for one row, and a
    chunk of two tokens, for concrete instances. *)
Definition reference_layer : Layer.t :=
  {| Layer.q := ones [2; 1; 2]; Layer.k := ones [2; 1; 2]; Layer.v := ones [2; 1; 2];
     Layer.proj := ones [1; 2; 2]; Layer.w1 := ones [2; 2]; Layer.w2 := ones [2; 2];
     Layer.gamma1 := ones [2]; Layer.gamma2 := ones [2] |}.

Definition reference_weights : Weights.t :=
  {| Weights.layers := [reference_layer];
     Weights.embedding := ones [3; 2];
     Weights.vocab_proj := ones [2; 3] |}.

Definition reference_cache : KVCache.t := KVCache.init reference_cfg 1 4.

Definition reference_chunk : tensor Z := full [1; 2] 1%Z.

(** A kernel that is never available, to instantiate the parameter. *)
Definition no_flash_attention (q k v : tensor R) (q_segment_ids kv_segment_ids : tensor Z)
    (causal : bool) (sm_scale : R) : result (tensor R) :=
  Raise (TypeError "flash attention is not available").

(** A sampler that always draws token 0, to instantiate the parameter. *)
Definition constant_categorical (seed : Z) (logits : tensor R) : result (tensor Z) :=
  Ok (full (removelast (shape logits)) 0%Z).

(** The number of non-zero segment ids in row [b] of a chunk of [T] tokens. *)
Definition count_nonzero (segment_ids : tensor Z) (b T : nat) : nat :=
  length (List.filter (fun t => negb (segment_ids.[[b; t]] =? 0)%Z) (seq 0 T)).

(** [reference_cfg] with the fused kernel switched on. *)
Definition kernel_cfg : Config :=
  {| d_model := 2; ffw_multiplier := 1; query_heads := 1; key_heads := 1;
     num_layers := 1; key_dim := 2; vocab_size := 3; max_seq_len := 4;
     causal := true; use_attn_kernel := true;
     max_lr := 3e-4; min_lr := 1e-5; warmup_steps := 50; total_steps := 10000 |}.


(** A cache of one row that holds three tokens out of four, with keys and
    values of ones. *)
Definition full_cache : KVCache.t :=
  {| KVCache.k := [ones [1; 1; 4; 2]];
     KVCache.v := [ones [1; 1; 4; 2]];
     KVCache.lengths := full [1] 3%Z |}.

(** ** Training: the optimizer *)

(** The default values of [beta1], [beta2] and [eps] of [adam_update]. *)
Definition default_beta1 : R := 0.9%R.
Definition default_beta2 : R := 0.999%R.
Definition default_eps : R := 1e-8%R.

(** [t] is a Python integer: [beta ** (t + 1)] is a power with an integer
    exponent. *)
Definition adam_update (param grad m v : tensor R) (lr : R) (t : Z)
    (beta1 beta2 eps : R) : result (tensor R * tensor R * tensor R) :=
  (* Momentum. *)
  let* m := broadcast2 Rplus (tmap (Rmult beta1) m) (tmap (Rmult (1 - beta1)) grad) in
  (* Grad variance. *)
  let* v := broadcast2 Rplus (tmap (Rmult beta2) v)
                       (tmap (Rmult (1 - beta2)) (tmap (fun g => (g ^ 2)%R) grad)) in
  (* Debiasing (helps with early training). *)
  let m_hat := tmap (fun a => (a / (1 - powerRZ beta1 (t + 1)))%R) m in
  let v_hat := tmap (fun a => (a / (1 - powerRZ beta2 (t + 1)))%R) v in
  let* update := broadcast2 Rdiv (tmap (Rmult lr) m_hat)
                            (tmap (fun a => (sqrt a + eps)%R) v_hat) in
  let* param := broadcast2 Rminus param update in
  Ok (param, m, v).

(** [jnp.zeros_like(old)] *)
Definition zeros_like (old : tensor R) : tensor R := full (shape old) 0%R.

(** The trees of weights, gradients and optimizer states are given by their
    leaves, in the order of [jax.tree_map]. *)
Definition init_adam_state (weights : list (tensor R)) : list (tensor R * tensor R) :=
  map (fun p => (zeros_like p, zeros_like p)) weights.

Definition update_fn (lr : R) (t : Z) (param grad : tensor R)
    (state : tensor R * tensor R) : result (tensor R * (tensor R * tensor R)) :=
  let (m, v) := state in
  let* (param_update, m_new, v_new) :=
    adam_update param grad m v lr t default_beta1 default_beta2 default_eps in
  Ok (param_update, (m_new, v_new)).

(** [jax.tree_map(f, weights, grads, state)] on the leaves; trees of
    different structure are refused. *)
Fixpoint tree_map3 {A B C D : Type} (f : A -> B -> C -> result D)
    (xs : list A) (ys : list B) (zs : list C) : result (list D) :=
  match xs, ys, zs with
  | [], [], [] => Ok []
  | x :: xs', y :: ys', z :: zs' =>
      let* d := f x y z in
      let* ds := tree_map3 f xs' ys' zs' in
      Ok (d :: ds)
  | _, _, _ => Raise (ValueError "Tree structure mismatch")
  end.

Definition update_weights (weights grads : list (tensor R))
    (state : list (tensor R * tensor R)) (lr : R) (t : Z)
  : result (list (tensor R) * list (tensor R * tensor R)) :=
  let* updated := tree_map3 (update_fn lr t) weights grads state in
  (* Use weights for it's tree prefix. *)
  let new_weights := map fst updated in
  let new_state := map snd updated in
  Ok (new_weights, new_state).

(** ** Training: the loss *)

(** [jax.nn.one_hot(labels, num_classes)]: a label outside [0, num_classes)
    gives a row of zeros. *)
Definition one_hot (labels : tensor Z) (num_classes : nat) : tensor R :=
  Tensor (shape labels ++ [num_classes])
         (fun i => if Z.eqb labels.[removelast i] (Z.of_nat (List.last i 0))
                   then 1%R else 0%R).

(** [jax.nn.log_softmax(x, axis=-1)] *)
Definition log_softmax (x : tensor R) : tensor R :=
  let n := List.last (shape x) 0 in
  Tensor (shape x)
         (fun i =>
            let x_max := rmax n (fun j => x.[removelast i ++ [j]]) in
            let shifted := (x.[i] - x_max)%R in
            (shifted - ln (rsum n (fun j => exp (x.[removelast i ++ [j]] - x_max))))%R).

(** [jnp.sum(x, axis=-1)] *)
Definition sum_last (x : tensor R) : tensor R :=
  Tensor (removelast (shape x))
         (fun i => rsum (List.last (shape x) 0) (fun j => x.[i ++ [j]])).

(** [jnp.sum(x)] over all the axes, of floats and of 32-bit integers. *)
Fixpoint sum_all (s : list nat) (f : list nat -> R) : R :=
  match s with
  | [] => f []
  | d :: s' => rsum d (fun n => sum_all s' (fun i => f (n :: i)))
  end.

Fixpoint sum_all32 (s : list nat) (f : list nat -> Z) : Z :=
  match s with
  | [] => f []
  | d :: s' => zsum32 d (fun n => sum_all32 s' (fun i => f (n :: i)))
  end.

(** The dictionary [internals], from names to arrays. *)
Definition dict : Type := list (string * tensor R).

Definition dict_set (key : string) (value : tensor R) (d : dict) : dict :=
  (key, value) :: List.filter (fun kv => negb (String.eqb (fst kv) key)) d.

Fixpoint dict_get (key : string) (d : dict) : option (tensor R) :=
  match d with
  | [] => None
  | (k, v) :: d' => if String.eqb k key then Some v else dict_get key d'
  end.

(** The loss and the accuracy are arrays of no axis, given by their element.
    Python returns two values without [internals] and three with it. *)
Definition cross_entropy_loss (logits : tensor R) (labels mask : tensor Z)
    (internals : option dict) : result (R * R * option dict) :=
  let* _ := check (1 <=? ndim logits) (IndexError "tuple index out of range") in
  let num_classes := List.last (shape logits) 0 in
  let labels_one_hot := one_hot labels num_classes in
  let log_probs := log_softmax logits in
  let* weighted := broadcast2 Rmult labels_one_hot log_probs in
  let loss := tmap Ropp (sum_last weighted) in
  let* loss := broadcast2 (fun l m => (l * IZR m)%R) loss mask in
  let internals := option_map (dict_set "per_token_loss" loss) internals in
  let valid_tokens := sum_all32 (shape mask) (data mask) in
  (* Compute mean over valid values. *)
  let loss := (sum_all (shape loss) (data loss) / IZR valid_tokens)%R in
  let* predictions := argmax logits in
  let* hits := broadcast2 Z.eqb predictions labels in
  let* hits := broadcast2 (fun (h : bool) m => if h then m else 0%Z) hits mask in
  let correct_predictions := sum_all32 (shape hits) (data hits) in
  let accuracy := (IZR correct_predictions / IZR valid_tokens)%R in
  Ok (loss, accuracy, internals).

Section Loss.

Variable flash_attention :
  tensor R -> tensor R -> tensor R -> tensor Z -> tensor Z -> bool -> R -> result (tensor R).

Definition compute_loss (weights : Weights.t) (x segment_ids y : tensor Z) (cfg : Config)
  : result (R * dict) :=
  let* (logits, _) := fst (forward flash_attention x segment_ids weights cfg None) in
  let internals : dict := [] in
  (* Important assumption that segment_ids 0 is 'padding'. *)
  let loss_mask := tmap (fun s => if Z.eqb s 0 then 0%Z else 1%Z) segment_ids in
  let* (loss, accuracy, internals) :=
    cross_entropy_loss logits y loss_mask (Some internals) in
  match internals with
  | Some internals => Ok (loss, dict_set "accuracy" (full [] accuracy) internals)
  | None => Raise (ValueError "not enough values to unpack (expected 3, got 2)")
  end.

End Loss.

(** The logarithm of the probability of class [j] at position [b, t], and the
    loss of that position for a label. *)
Definition log_prob (logits : tensor R) (V b t j : nat) : R :=
  let x_max := rmax V (fun j' => logits.[[b; t; j']]) in
  (logits.[[b; t; j]] - x_max
   - ln (rsum V (fun j' => exp (logits.[[b; t; j']] - x_max))))%R.

Definition token_loss (logits : tensor R) (labels : tensor Z) (V b t : nat) : R :=
  let l := labels.[[b; t]] in
  if (0 <=? l)%Z && (l <? Z.of_nat V)%Z
  then (- log_prob logits V b t (Z.to_nat l))%R
  else 0%R.

Definition token_hit (logits : tensor R) (labels : tensor Z) (V b t : nat) : bool :=
  Z.eqb (Z.of_nat (argmax_fn V (fun j => logits.[[b; t; j]]))) labels.[[b; t]].

(** What [cross_entropy_loss] returns for logits of shape [B, T, V]. *)
Definition mask_total (mask : tensor Z) (B T : nat) : Z :=
  zsum32 B (fun b => zsum32 T (fun t => mask.[[b; t]])).

Definition mean_loss (logits : tensor R) (labels mask : tensor Z) (B T V : nat) : R :=
  (rsum B (fun b => rsum T (fun t => token_loss logits labels V b t * IZR mask.[[b; t]]))
   / IZR (mask_total mask B T))%R.

Definition mean_accuracy (logits : tensor R) (labels mask : tensor Z) (B T V : nat) : R :=
  (IZR (zsum32 B (fun b => zsum32 T (fun t =>
          if token_hit logits labels V b t then mask.[[b; t]] else 0%Z)))
   / IZR (mask_total mask B T))%R.

(** The shapes of the weights: [D] features, [H] heads of [K] features each,
    [F] hidden features, an embedding of [Vocab] rows and [V] logits. *)
Definition layer_shapes (D H K F : nat) (layer : Layer.t) : Prop :=
  shape (Layer.q layer) = [D; H; K] /\ shape (Layer.k layer) = [D; H; K] /\
  shape (Layer.v layer) = [D; H; K] /\ shape (Layer.proj layer) = [H; K; D] /\
  shape (Layer.w1 layer) = [D; F] /\ shape (Layer.w2 layer) = [F; D] /\
  shape (Layer.gamma1 layer) = [D] /\ shape (Layer.gamma2 layer) = [D].

Definition weights_shapes (Vocab D H K F V : nat) (weights : Weights.t) : Prop :=
  Forall (layer_shapes D H K F) (Weights.layers weights) /\
  shape (Weights.embedding weights) = [Vocab; D] /\
  shape (Weights.vocab_proj weights) = [D; V].

(** The shapes of a cache of [n] layers for [B] rows of [Tmax] positions. *)
Definition cache_shapes (B H K Tmax n : nat) (cache : KVCache.t) : Prop :=
  length (KVCache.k cache) = n /\ length (KVCache.v cache) = n /\
  Forall (fun a => shape a = [B; H; Tmax; K]) (KVCache.k cache) /\
  Forall (fun a => shape a = [B; H; Tmax; K]) (KVCache.v cache) /\
  shape (KVCache.lengths cache) = [B].

(** The row of a table of [vocab] rows that a token id reads. *)
Definition normalize_token (vocab : nat) (id : Z) : Z := Z.of_nat (gather_index vocab id).


(** Lines 471-485 of [forward_layer]: the queries, keys and values of the
    chunk, before the cache is read. *)
Definition layer_queries_keys_values (x : tensor R) (layer : Layer.t) (sin cos : tensor R)
  : result (tensor R * tensor R * tensor R) :=
  let* attn_in := rms_norm x (Layer.gamma1 layer) in
  let* q := einsum_btd_dhq_bhtq attn_in (Layer.q layer) in
  let* k := einsum_btd_dhq_bhtq attn_in (Layer.k layer) in
  let* v := einsum_btd_dhq_bhtq attn_in (Layer.v layer) in
  let* q := apply_rotary_embedding q sin cos in
  let* k := apply_rotary_embedding k sin cos in
  Ok (q, k, v).

(** Lines 531-549 of [forward_layer]: from the output of the attention to
    the output of the layer. *)
Definition layer_output (x attn_out : tensor R) (layer : Layer.t) : result (tensor R) :=
  let* attn_out := einsum_bhtq_hqd_btd attn_out (Layer.proj layer) in
  let* x := broadcast2 Rplus x attn_out in
  let* ff_in := rms_norm x (Layer.gamma2 layer) in
  let* ff_out := einsum_btd_df_btf ff_in (Layer.w1 layer) in
  let ff_out := tmap gelu ff_out in
  let* ff_out := einsum_btd_df_btf ff_out (Layer.w2 layer) in
  broadcast2 Rplus x ff_out.

(** * Properties *)

(** ** The learning-rate schedule *)

Section Schedule.

Local Open Scope R_scope.

Variables (total_steps warmup_steps : Z) (max_lr min_lr : R).

Let lr (step : Z) : R :=
  get_lr_with_cosine_decay_and_warmup step total_steps max_lr min_lr warmup_steps.

Lemma lr_warmup_branch (s : Z) :
  (s < warmup_steps)%Z -> lr s = max_lr * (IZR s / IZR warmup_steps).
Proof.
  intros Hs. unfold lr, get_lr_with_cosine_decay_and_warmup.
  destruct (Z.ltb_spec s warmup_steps); [reflexivity | lia].
Qed.

Lemma lr_decay_branch (s : Z) :
  (warmup_steps <= s)%Z ->
  lr s = min_lr + 0.5 * (max_lr - min_lr)
                  * (1 + cos (PI * (IZR (s - warmup_steps)
                                    / IZR (total_steps - warmup_steps)))).
Proof.
  intros Hs. unfold lr, get_lr_with_cosine_decay_and_warmup.
  destruct (Z.ltb_spec s warmup_steps); [lia | reflexivity].
Qed.

Lemma progress_bounds (s : Z) :
  (warmup_steps < total_steps)%Z -> (warmup_steps <= s <= total_steps)%Z ->
  0 <= IZR (s - warmup_steps) / IZR (total_steps - warmup_steps) <= 1.
Proof.
  intros Hwt [Hlo Hhi].
  assert (Hd : 0 < IZR (total_steps - warmup_steps)) by (apply IZR_lt; lia).
  assert (Hn : 0 <= IZR (s - warmup_steps)) by (apply IZR_le; lia).
  assert (Hle : IZR (s - warmup_steps) <= IZR (total_steps - warmup_steps))
    by (apply IZR_le; lia).
  split.
  - apply Rmult_le_pos; [exact Hn | left; apply Rinv_0_lt_compat; exact Hd].
  - apply (Rmult_le_reg_r (IZR (total_steps - warmup_steps))); [exact Hd |].
    unfold Rdiv. rewrite Rmult_assoc, Rinv_l by lra. lra.
Qed.

Lemma progress_mono (s t : Z) :
  (warmup_steps < total_steps)%Z -> (s <= t)%Z ->
  IZR (s - warmup_steps) / IZR (total_steps - warmup_steps)
  <= IZR (t - warmup_steps) / IZR (total_steps - warmup_steps).
Proof.
  intros Hwt Hst.
  assert (Hd : 0 < IZR (total_steps - warmup_steps)) by (apply IZR_lt; lia).
  apply Rmult_le_compat_r; [left; apply Rinv_0_lt_compat; exact Hd |].
  apply IZR_le; lia.
Qed.

Lemma lr_at_zero : (0 < warmup_steps)%Z -> lr 0 = 0.
Proof.
  intros Hw. rewrite lr_warmup_branch by lia. unfold Rdiv. lra.
Qed.

Lemma lr_at_warmup : (warmup_steps < total_steps)%Z -> lr warmup_steps = max_lr.
Proof.
  intros Hwt. rewrite lr_decay_branch by lia.
  rewrite Z.sub_diag. unfold Rdiv. rewrite Rmult_0_l, Rmult_0_r, cos_0. lra.
Qed.

Lemma lr_at_total : (warmup_steps < total_steps)%Z -> lr total_steps = min_lr.
Proof.
  intros Hwt. rewrite lr_decay_branch by lia.
  assert (Hd : 0 < IZR (total_steps - warmup_steps)) by (apply IZR_lt; lia).
  unfold Rdiv. rewrite Rinv_r by lra. rewrite Rmult_1_r, cos_PI. lra.
Qed.

Lemma lr_warmup_le_max (s : Z) :
  (0 < warmup_steps)%Z -> 0 <= max_lr -> (s < warmup_steps)%Z -> lr s <= max_lr.
Proof.
  intros Hw Hmax Hs. rewrite lr_warmup_branch by lia.
  assert (Hd : 0 < IZR warmup_steps) by (apply IZR_lt; lia).
  assert (Hle : IZR s <= IZR warmup_steps) by (apply IZR_le; lia).
  assert (Hq : IZR s / IZR warmup_steps <= 1).
  { apply (Rmult_le_reg_r (IZR warmup_steps)); [exact Hd |].
    unfold Rdiv. rewrite Rmult_assoc, Rinv_l by lra. lra. }
  rewrite <- (Rmult_1_r max_lr) at 2.
  apply Rmult_le_compat_l; assumption.
Qed.

Lemma lr_increasing_on_warmup (s t : Z) :
  (0 < warmup_steps < total_steps)%Z -> 0 <= max_lr ->
  (s <= t)%Z -> (t <= warmup_steps)%Z -> lr s <= lr t.
Proof.
  intros [Hw Hwt] Hmax Hst Ht.
  destruct (Z.eq_dec t warmup_steps) as [-> | Hne].
  - rewrite lr_at_warmup by lia.
    destruct (Z.eq_dec s warmup_steps) as [-> | Hsne].
    + rewrite lr_at_warmup by lia. lra.
    + apply lr_warmup_le_max; [lia | exact Hmax | lia].
  - rewrite !lr_warmup_branch by lia.
    assert (Hd : 0 < IZR warmup_steps) by (apply IZR_lt; lia).
    apply Rmult_le_compat_l; [exact Hmax |].
    apply Rmult_le_compat_r; [left; apply Rinv_0_lt_compat; exact Hd |].
    apply IZR_le; exact Hst.
Qed.

Lemma lr_decreasing_on_decay (s t : Z) :
  (warmup_steps < total_steps)%Z -> min_lr <= max_lr ->
  (warmup_steps <= s)%Z -> (s <= t)%Z -> (t <= total_steps)%Z -> lr t <= lr s.
Proof.
  intros Hwt Hmm Hs Hst Ht.
  rewrite !lr_decay_branch by lia.
  pose proof (progress_bounds s Hwt ltac:(lia)) as [Hs0 Hs1].
  pose proof (progress_bounds t Hwt ltac:(lia)) as [Ht0 Ht1].
  pose proof (progress_mono s t Hwt Hst) as Hmono.
  pose proof PI_RGT_0 as Hpi.
  set (ps := IZR (s - warmup_steps) / IZR (total_steps - warmup_steps)) in *.
  set (pt := IZR (t - warmup_steps) / IZR (total_steps - warmup_steps)) in *.
  assert (Hcos : cos (PI * pt) <= cos (PI * ps)).
  { apply cos_decr_1.
    - apply Rmult_le_pos; lra.
    - rewrite <- (Rmult_1_r PI) at 2. apply Rmult_le_compat_l; lra.
    - apply Rmult_le_pos; lra.
    - rewrite <- (Rmult_1_r PI) at 2. apply Rmult_le_compat_l; lra.
    - apply Rmult_le_compat_l; lra. }
  assert (Hc : 0 <= 0.5 * (max_lr - min_lr)) by lra.
  apply Rplus_le_compat_l. apply Rmult_le_compat_l; [exact Hc | lra].
Qed.

Lemma lr_strictly_increasing_on_warmup (s t : Z) :
  (0 < warmup_steps < total_steps)%Z -> 0 < max_lr ->
  (s < t)%Z -> (t <= warmup_steps)%Z -> lr s < lr t.
Proof.
  intros [Hw Hwt] Hmax Hst Ht.
  assert (Hd : 0 < IZR warmup_steps) by (apply IZR_lt; lia).
  assert (Hs : lr s = max_lr * (IZR s / IZR warmup_steps))
    by (apply lr_warmup_branch; lia).
  assert (Hlt : IZR s / IZR warmup_steps < IZR t / IZR warmup_steps).
  { apply Rmult_lt_compat_r; [apply Rinv_0_lt_compat; exact Hd |].
    apply IZR_lt; exact Hst. }
  destruct (Z.eq_dec t warmup_steps) as [-> | Hne].
  - rewrite lr_at_warmup, Hs by lia.
    unfold Rdiv in Hlt. rewrite Rinv_r in Hlt by lra.
    rewrite <- (Rmult_1_r max_lr) at 2.
    apply Rmult_lt_compat_l; assumption.
  - rewrite Hs, lr_warmup_branch by lia.
    apply Rmult_lt_compat_l; assumption.
Qed.

Lemma lr_strictly_decreasing_on_decay (s t : Z) :
  (warmup_steps < total_steps)%Z -> min_lr < max_lr ->
  (warmup_steps <= s)%Z -> (s < t)%Z -> (t <= total_steps)%Z -> lr t < lr s.
Proof.
  intros Hwt Hmm Hs Hst Ht.
  rewrite !lr_decay_branch by lia.
  pose proof (progress_bounds s Hwt ltac:(lia)) as [Hs0 Hs1].
  pose proof (progress_bounds t Hwt ltac:(lia)) as [Ht0 Ht1].
  pose proof PI_RGT_0 as Hpi.
  assert (Hd : 0 < IZR (total_steps - warmup_steps)) by (apply IZR_lt; lia).
  assert (Hlt : IZR (s - warmup_steps) / IZR (total_steps - warmup_steps)
                < IZR (t - warmup_steps) / IZR (total_steps - warmup_steps)).
  { apply Rmult_lt_compat_r; [apply Rinv_0_lt_compat; exact Hd |].
    apply IZR_lt; lia. }
  set (ps := IZR (s - warmup_steps) / IZR (total_steps - warmup_steps)) in *.
  set (pt := IZR (t - warmup_steps) / IZR (total_steps - warmup_steps)) in *.
  assert (Hcos : cos (PI * pt) < cos (PI * ps)).
  { apply cos_decreasing_1.
    - apply Rmult_le_pos; lra.
    - rewrite <- (Rmult_1_r PI) at 2. apply Rmult_le_compat_l; lra.
    - apply Rmult_le_pos; lra.
    - rewrite <- (Rmult_1_r PI) at 2. apply Rmult_le_compat_l; lra.
    - apply Rmult_lt_compat_l; lra. }
  assert (Hc : 0 < 0.5 * (max_lr - min_lr)) by lra.
  apply Rplus_lt_compat_l. apply Rmult_lt_compat_l; [exact Hc | lra].
Qed.

End Schedule.

(** C7. With a warmup that is shorter than the schedule and rates ordered as
    their names say, the learning rate is 0 at step 0, [max_lr] at step
    [warmup_steps] and [min_lr] at step [total_steps]; it does not decrease
    over the warmup interval and does not increase afterwards, up to
    [total_steps]; the increase is strict when [max_lr] is positive and the
    decrease is strict when [min_lr] is below [max_lr]. *)
Theorem lr_schedule_shape (total_steps warmup_steps : Z) (max_lr min_lr : R) :
  (0 < warmup_steps < total_steps)%Z -> (0 <= max_lr)%R -> (min_lr <= max_lr)%R ->
  let lr step :=
    get_lr_with_cosine_decay_and_warmup step total_steps max_lr min_lr warmup_steps in
  lr 0%Z = 0%R /\
  lr warmup_steps = max_lr /\
  lr total_steps = min_lr /\
  (forall s t, (0 <= s)%Z -> (s <= t)%Z -> (t <= warmup_steps)%Z -> (lr s <= lr t)%R) /\
  (forall s t, (warmup_steps <= s)%Z -> (s <= t)%Z -> (t <= total_steps)%Z ->
               (lr t <= lr s)%R) /\
  ((0 < max_lr)%R ->
   forall s t, (0 <= s)%Z -> (s < t)%Z -> (t <= warmup_steps)%Z -> (lr s < lr t)%R) /\
  ((min_lr < max_lr)%R ->
   forall s t, (warmup_steps <= s)%Z -> (s < t)%Z -> (t <= total_steps)%Z ->
               (lr t < lr s)%R).
Proof.
  intros Hw Hmax Hmm lr. subst lr.
  split; [apply lr_at_zero; lia |].
  split; [apply lr_at_warmup; lia |].
  split; [apply lr_at_total; lia |].
  split; [intros s t _ Hst Ht; apply lr_increasing_on_warmup; assumption |].
  split; [intros s t Hs Hst Ht;
          apply lr_decreasing_on_decay; [lia | assumption ..] |].
  split.
  - intros Hpos s t _ Hst Ht. apply lr_strictly_increasing_on_warmup; assumption.
  - intros Hlt s t Hs Hst Ht.
    apply lr_strictly_decreasing_on_decay; [lia | assumption ..].
Qed.

(** The schedule of the default configuration: 50 warmup steps out of 10000,
    from 1e-5 to 3e-4. *)
Lemma lr_schedule_shape_witness :
  let lr step := get_lr_with_cosine_decay_and_warmup step 10000 3e-4 1e-5 50 in
  lr 0%Z = 0%R /\
  lr 50%Z = 3e-4%R /\
  lr 10000%Z = 1e-5%R /\
  (forall s t, (0 <= s)%Z -> (s < t)%Z -> (t <= 50)%Z -> (lr s < lr t)%R) /\
  (forall s t, (50 <= s)%Z -> (s < t)%Z -> (t <= 10000)%Z -> (lr t < lr s)%R).
Proof.
  destruct (lr_schedule_shape 10000 50 3e-4 1e-5)
    as (H0 & Hw & Ht & _ & _ & Hup & Hdown); [lia | lra | lra |].
  split; [exact H0 |]. split; [exact Hw |]. split; [exact Ht |].
  split; [apply Hup; lra | apply Hdown; lra].
Defined.

(** ** Rotary tables *)

Lemma length_arange (start stop step : nat) :
  length (arange start stop step) = (stop - start + step - 1) / step.
Proof. unfold arange. rewrite length_map, length_seq. reflexivity. Qed.

Lemma nth_arange (start stop step j : nat) :
  j < (stop - start + step - 1) / step ->
  nth j (arange start stop step) 0 = start + j * step.
Proof.
  intros Hj. unfold arange.
  rewrite (nth_indep _ 0 ((fun j => start + j * step) 0))
    by (rewrite length_map, length_seq; exact Hj).
  rewrite (map_nth (fun j => start + j * step)), seq_nth by exact Hj.
  reflexivity.
Qed.

Lemma arange_unit_length (n : nat) : (n - 0 + 1 - 1) / 1 = n.
Proof. rewrite Nat.div_1_r. lia. Qed.

Lemma arange_pairs_length (features : nat) :
  (features - 0 + 2 - 1) / 2 = (features + 1) / 2.
Proof. f_equal. lia. Qed.

Lemma even_half (features : nat) :
  Nat.even features = true -> (features + 1) / 2 = features / 2 /\ features = 2 * (features / 2).
Proof.
  intros He. apply Nat.even_spec in He. destruct He as [m ->].
  replace (2 * m + 1) with (1 + m * 2) by lia.
  rewrite Nat.div_add by lia.
  replace (2 * m) with (m * 2) by lia. rewrite Nat.div_mul by lia.
  simpl. lia.
Qed.

(** For any [features], the tables have one column per even number below
    [features], and row [i] holds the sinusoids of [i] over each timescale. *)
Lemma generate_fixed_pos_embedding_spec (features length : nat) (lo hi : R) :
  let tables := _generate_fixed_pos_embedding features length lo hi in
  let timescale := timescale_of features lo hi in
  shape (fst tables) = [length; (features + 1) / 2] /\
  shape (snd tables) = [length; (features + 1) / 2] /\
  shape timescale = [(features + 1) / 2] /\
  (forall j, j < (features + 1) / 2 ->
     timescale.[[j]] = (lo * Rpower (hi / lo) (INR (2 * j) / INR features))%R) /\
  (forall i j, i < length -> j < (features + 1) / 2 ->
     (fst tables).[[i; j]] = sin (INR i * (1 / timescale.[[j]])) /\
     (snd tables).[[i; j]] = cos (INR i * (1 / timescale.[[j]]))).
Proof.
  cbv zeta. unfold _generate_fixed_pos_embedding, timescale_of. cbn [fst snd].
  cbn [tmap shape data einsum_i_j_ij of_list nth].
  rewrite !length_arange, arange_unit_length, arange_pairs_length.
  repeat split.
  - intros j Hj. rewrite nth_arange by (rewrite arange_pairs_length; exact Hj).
    replace (0 + j * 2) with (2 * j) by lia. reflexivity.
  - rewrite nth_arange by (rewrite arange_unit_length; assumption).
    replace (0 + i * 1) with i by lia. do 2 f_equal. lra.
  - rewrite nth_arange by (rewrite arange_unit_length; assumption).
    replace (0 + i * 1) with i by lia. do 2 f_equal. lra.
Qed.

Lemma default_timescales :
  default_min_timescale = 1%R /\ default_max_timescale = 10000%R.
Proof. unfold default_min_timescale, default_max_timescale. split; lra. Qed.

Lemma Rpower_10000_pos (x : R) : (0 < Rpower 10000 x)%R.
Proof. unfold Rpower. apply exp_pos. Qed.

(** C6. For an even, positive [features], the generator with its default
    timescales returns two tables of shape [[length; features / 2]] whose
    entry [[i; j]] is the sine (cosine) of [i] divided by the j-th timescale;
    the timescales start at 1, each is the previous one times a fixed ratio,
    and the element that would follow the last one is 10000. *)
Theorem generate_fixed_pos_embedding_tables (features length : nat) :
  Nat.even features = true -> 0 < features ->
  let tables :=
    _generate_fixed_pos_embedding features length
                                  default_min_timescale default_max_timescale in
  let timescale := timescale_of features default_min_timescale default_max_timescale in
  let ratio := Rpower 10000 (2 / INR features) in
  shape (fst tables) = [length; features / 2] /\
  shape (snd tables) = [length; features / 2] /\
  (forall i j, i < length -> j < features / 2 ->
     (fst tables).[[i; j]] = sin (INR i / timescale.[[j]]) /\
     (snd tables).[[i; j]] = cos (INR i / timescale.[[j]])) /\
  timescale.[[0]] = 1%R /\
  (forall j, S j < features / 2 -> timescale.[[S j]] = (timescale.[[j]] * ratio)%R) /\
  (timescale.[[(features / 2 - 1)%nat]] * ratio)%R = 10000%R.
Proof.
  intros He Hpos. cbv zeta.
  destruct (even_half features He) as [Hhalf Hdouble].
  destruct (generate_fixed_pos_embedding_spec
              features length default_min_timescale default_max_timescale)
    as (Hs & Hc & _ & Hts & Htab).
  destruct default_timescales as [Hmin Hmax].
  rewrite Hhalf in Hs, Hc, Hts, Htab.
  assert (Hfeat : (0 < INR features)%R) by (apply lt_0_INR; exact Hpos).
  assert (Hh : 0 < features / 2) by lia.
  assert (Hts' : forall j, j < features / 2 ->
            (timescale_of features default_min_timescale default_max_timescale).[[j]]
            = Rpower 10000 (INR (2 * j) / INR features)).
  { intros j Hj. rewrite (Hts j Hj), Hmin, Hmax.
    replace (10000 / 1)%R with 10000%R by lra. lra. }
  assert (Htab' : forall i j, i < length -> j < features / 2 ->
     (fst (_generate_fixed_pos_embedding features length
             default_min_timescale default_max_timescale)).[[i; j]]
     = sin (INR i / (timescale_of features default_min_timescale
                                  default_max_timescale).[[j]]) /\
     (snd (_generate_fixed_pos_embedding features length
             default_min_timescale default_max_timescale)).[[i; j]]
     = cos (INR i / (timescale_of features default_min_timescale
                                  default_max_timescale).[[j]])).
  { intros i j Hi Hj. destruct (Htab i j Hi Hj) as [H1 H2].
    rewrite H1, H2. split; f_equal; unfold Rdiv; lra. }
  split; [exact Hs |]. split; [exact Hc |]. split; [exact Htab' |].
  split; [| split].
  - rewrite (Hts' 0 Hh). simpl INR. unfold Rdiv. rewrite Rmult_0_l.
    apply Rpower_O. lra.
  - intros j Hj. rewrite (Hts' (S j) Hj), (Hts' j) by lia.
    rewrite <- Rpower_plus. f_equal.
    rewrite !mult_INR, (S_INR j).
    replace (INR 2) with 2%R by (simpl; lra). field. lra.
  - rewrite (Hts' (features / 2 - 1)) by lia.
    rewrite <- Rpower_plus.
    replace (INR (2 * (features / 2 - 1)) / INR features + 2 / INR features)%R
      with 1%R.
    + apply Rpower_1. lra.
    + assert (Hhalf_pos : (0 < INR (features / 2))%R)
        by (apply lt_0_INR; exact Hh).
      assert (Hf : INR features = (2 * INR (features / 2))%R).
      { rewrite Hdouble at 1. rewrite mult_INR.
        replace (INR 2) with 2%R by (simpl; lra). reflexivity. }
      rewrite mult_INR, minus_INR, Hf by lia.
      replace (INR 2) with 2%R by (simpl; lra).
      replace (INR 1) with 1%R by reflexivity.
      field. lra.
Qed.

(** The tables of the test configuration: [key_dim = 64], 1024 positions. *)
Lemma generate_fixed_pos_embedding_tables_witness :
  let tables :=
    _generate_fixed_pos_embedding 64 1024 default_min_timescale default_max_timescale in
  shape (fst tables) = [1024; 64 / 2] /\ shape (snd tables) = [1024; 64 / 2].
Proof.
  destruct (generate_fixed_pos_embedding_tables 64 1024) as (Hs & Hc & _).
  - reflexivity.
  - lia.
  - split; [exact Hs | exact Hc].
Defined.

(** With an odd [features] the tables have one more column than [features / 2]. *)
Example generate_fixed_pos_embedding_odd :
  shape (fst (_generate_fixed_pos_embedding 3 4 default_min_timescale default_max_timescale))
  = [4; 2].
Proof. reflexivity. Qed.

(** ** Broadcasting over arrays of known shape *)

Lemma bdim_refl (d : nat) : bdim d d = Some d.
Proof. unfold bdim. rewrite Nat.eqb_refl. reflexivity. Qed.

Lemma bdim_1_r (d : nat) : bdim d 1 = Some d.
Proof.
  unfold bdim. destruct (Nat.eqb_spec d 1) as [-> | _]; [reflexivity |].
  reflexivity.
Qed.

Lemma bdim_1_l (d : nat) : bdim 1 d = Some d.
Proof.
  unfold bdim. destruct (Nat.eqb_spec 1 d) as [<- | _]; reflexivity.
Qed.

Lemma bsel (d i : nat) : i < d -> (if d =? 1 then 0 else i) = i.
Proof. intros Hi. destruct (Nat.eqb_spec d 1); lia. Qed.

Lemma in_range_cons (n d : nat) (i s : list nat) :
  in_range (n :: i) (d :: s) <-> n < d /\ in_range i s.
Proof.
  unfold in_range. split.
  - intros H. inversion H; subst. split; assumption.
  - intros [H1 H2]. constructor; assumption.
Qed.

Lemma in_range_nil_r (i : list nat) : in_range i [] <-> i = [].
Proof.
  unfold in_range. split.
  - intros H. inversion H. reflexivity.
  - intros ->. constructor.
Qed.

Lemma in_range_cons_r (i : list nat) (d : nat) (s : list nat) :
  in_range i (d :: s) <-> exists n i', i = n :: i' /\ n < d /\ in_range i' s.
Proof.
  split.
  - intros H. unfold in_range in H. inversion H; subst. eauto.
  - intros (n & i' & -> & Hn & Hi). apply in_range_cons. split; assumption.
Qed.

Lemma in_rangeb_spec (i s : list nat) : in_rangeb i s = true <-> in_range i s.
Proof.
  revert s. induction i as [| n i IH]; intros [| d s]; simpl.
  - split; [constructor | reflexivity].
  - split; [discriminate | intros H; inversion H].
  - split; [discriminate | intros H; inversion H].
  - rewrite andb_true_iff, Nat.ltb_lt, IH, in_range_cons. reflexivity.
Qed.

(** Unfolds one broadcast between arrays whose shapes are known lists. *)
Ltac bcast :=
  unfold broadcast2, broadcast_shapes, bidx;
  cbn [shape data expand_dims take drop app rev bshape_rev bidx_rev];
  rewrite ?bdim_refl, ?bdim_1_r, ?bdim_1_l;
  cbn [rev app].

Ltac in_range_inv H :=
  repeat (apply in_range_cons_r in H;
          let n := fresh "n" in let i' := fresh "i" in let Hn := fresh "Hn" in
          destruct H as (n & i' & -> & Hn & H));
  apply in_range_nil_r in H; subst.

(** Simplifies the index that a broadcast reads, for an index in range. *)
Ltac tidx :=
  unfold expand_dims;
  cbn [data shape rev app bidx_rev List.last removelast take drop tail nth];
  repeat match goal with
         | |- context [if ?d =? 1 then 0 else ?i] => rewrite (bsel d i) by lia
         | |- context [1 =? 1] => rewrite (Nat.eqb_refl 1)
         end;
  cbn [data shape rev app bidx_rev List.last removelast take drop tail nth].

(** ** Rotary embedding *)

Lemma half_double (h : nat) : (2 * h) mod 2 = 0 /\ (2 * h) / 2 = h.
Proof.
  split.
  - rewrite Nat.mul_comm. apply Nat.Div0.mod_mul.
  - rewrite Nat.mul_comm. apply Nat.div_mul. lia.
Qed.

Lemma apply_rotary_embedding_spec (x sin cos : tensor R) (B H T h : nat) :
  shape x = [B; H; T; 2 * h] -> shape sin = [B; T; h] -> shape cos = [B; T; h] ->
  exists y, apply_rotary_embedding x sin cos = Ok y /\
            shape y = [B; H; T; 2 * h] /\
            forall b hd t d, b < B -> hd < H -> t < T -> d < 2 * h ->
              y.[[b; hd; t; d]] = rotated x sin cos h b hd t d.
Proof.
  intros Hx Hs Hc.
  destruct x as [sx dx], sin as [ss ds], cos as [sc dc]. cbn [shape] in *. subst.
  destruct (half_double h) as [Hmod Hdiv].
  unfold apply_rotary_embedding, ndim, split2_last, concatenate_last.
  cbn [shape length Nat.eqb andb assert bind List.last removelast app].
  rewrite Hmod, Hdiv. cbn [Nat.eqb negb bind].
  bcast. cbn [bind shape]. bcast. cbn [bind shape]. bcast.
  cbn [bind shape]. bcast. cbn [bind shape]. bcast.
  cbn [bind shape]. bcast. cbn [bind shape List.last removelast app].
  rewrite bool_decide_true by reflexivity. cbn [negb].
  eexists. split; [reflexivity |]. split.
  - cbn [shape]. do 4 f_equal. lia.
  - intros b hd t d Hb Hhd Ht Hd. unfold rotated.
    cbn [data rev app bidx_rev List.last removelast take drop].
    destruct (Nat.ltb_spec d h) as [Hlt | Hge].
    + tidx. reflexivity.
    + tidx. replace (d - h + h) with d by lia. reflexivity.
Qed.

Lemma rotated_inverse (x y sin cos sin' : tensor R) (h b hd t d : nat) :
  d < 2 * h ->
  (forall d', d' < 2 * h -> y.[[b; hd; t; d']] = rotated x sin cos h b hd t d') ->
  (forall d', d' < h -> sin'.[[b; t; d']] = (- sin.[[b; t; d']])%R) ->
  (forall d', d' < h -> (sin.[[b; t; d']] ^ 2 + cos.[[b; t; d']] ^ 2 = 1)%R) ->
  rotated y sin' cos h b hd t d = x.[[b; hd; t; d]].
Proof.
  intros Hd Hy Hneg Hunit. unfold rotated at 1.
  destruct (Nat.ltb_spec d h) as [Hlt | Hge].
  - rewrite (Hy d), (Hy (d + h)), (Hneg d) by lia. unfold rotated.
    destruct (Nat.ltb_spec d h); [| lia].
    destruct (Nat.ltb_spec (d + h) h); [lia |].
    replace (d + h - h) with d by lia.
    transitivity (x.[[b; hd; t; d]]
                  * (sin.[[b; t; d]] ^ 2 + cos.[[b; t; d]] ^ 2))%R; [ring |].
    rewrite (Hunit d Hlt). ring.
  - rewrite (Hy d), (Hy (d - h)), (Hneg (d - h)) by lia. unfold rotated.
    destruct (Nat.ltb_spec d h); [lia |].
    destruct (Nat.ltb_spec (d - h) h); [| lia].
    replace (d - h + h) with d by lia.
    transitivity (x.[[b; hd; t; d]]
                  * (sin.[[b; t; (d - h)%nat]] ^ 2 + cos.[[b; t; (d - h)%nat]] ^ 2))%R;
      [ring |].
    rewrite (Hunit (d - h)) by lia. ring.
Qed.

(** C9. For an array [x] of shape [[B; H; T; 2 * h]] and angles of shape
    [[B; T; h]], rotating [x] by the tables of the angles and then by the
    tables of the negated angles gives [x] back. *)
Theorem apply_rotary_embedding_round_trip (x theta : tensor R) (B H T h : nat) :
  shape x = [B; H; T; 2 * h] -> shape theta = [B; T; h] ->
  exists y z,
    apply_rotary_embedding x (tmap sin theta) (tmap cos theta) = Ok y /\
    apply_rotary_embedding y (tmap sin (tmap Ropp theta)) (tmap cos (tmap Ropp theta))
    = Ok z /\
    teq z x.
Proof.
  intros Hx Htheta.
  destruct (apply_rotary_embedding_spec x (tmap sin theta) (tmap cos theta) B H T h)
    as (y & Hy & Hys & Hyd); [assumption .. |].
  destruct (apply_rotary_embedding_spec
              y (tmap sin (tmap Ropp theta)) (tmap cos (tmap Ropp theta)) B H T h)
    as (z & Hz & Hzs & Hzd); [assumption .. |].
  exists y, z. split; [exact Hy |]. split; [exact Hz |].
  split; [congruence |].
  intros i Hi. rewrite Hzs in Hi. in_range_inv Hi.
  rewrite Hzd by assumption.
  assert (Hcos : forall b t d,
             (tmap cos (tmap Ropp theta)).[[b; t; d]] = (tmap cos theta).[[b; t; d]]).
  { intros. cbn [tmap data]. apply cos_neg. }
  transitivity (rotated y (tmap sin (tmap Ropp theta)) (tmap cos theta) h n n0 n1 n2).
  { unfold rotated. rewrite !Hcos. reflexivity. }
  apply (rotated_inverse x y (tmap sin theta)).
  - assumption.
  - intros d' Hd'. apply Hyd; assumption.
  - intros d' Hd'. cbn [tmap data]. apply sin_neg.
  - intros d' Hd'. cbn [tmap data]. rewrite <- !Rsqr_pow2. apply sin2_cos2.
Qed.

Lemma apply_rotary_embedding_round_trip_witness :
  exists y z,
    apply_rotary_embedding (ones [1; 2; 3; 2 * 2]) (tmap sin (ones [1; 3; 2]))
                           (tmap cos (ones [1; 3; 2])) = Ok y /\
    apply_rotary_embedding y (tmap sin (tmap Ropp (ones [1; 3; 2])))
                           (tmap cos (tmap Ropp (ones [1; 3; 2]))) = Ok z /\
    teq z (ones [1; 2; 3; 2 * 2]).
Proof.
  apply (apply_rotary_embedding_round_trip _ _ 1 2 3 2); reflexivity.
Defined.

(** ** The attention mask *)

Lemma make_attention_mask_spec (q_segment_ids k_segment_ids q_offset : tensor Z)
    (causal : bool) (B t T : nat) :
  shape q_segment_ids = [B; t] -> shape k_segment_ids = [B; T] ->
  shape q_offset = [B] ->
  exists m,
    make_attention_mask t T q_segment_ids k_segment_ids q_offset causal = Ok m /\
    shape m = [B; 1; t; T] /\
    forall b i j, b < B -> i < t -> j < T ->
      m.[[b; 0; i; j]] =
      (q_segment_ids.[[b; i]] =? k_segment_ids.[[b; j]])%Z
      && (if causal
          then (add32 (Z.of_nat i) q_offset.[[b]] >=? Z.of_nat j)%Z
          else true).
Proof.
  intros Hq Hk Ho.
  destruct q_segment_ids as [sq dq], k_segment_ids as [sk dk], q_offset as [so do].
  cbn [shape] in *. subst.
  unfold make_attention_mask, ndim, broadcasted_iota.
  cbn [shape length Nat.leb andb check bind].
  bcast. cbn [bind shape]. 
  destruct causal.
  - bcast. cbn [bind shape]. bcast. cbn [bind shape]. bcast. cbn [bind shape].
    eexists. split; [reflexivity |]. split; [reflexivity |].
    intros b i j Hb Hi Hj. tidx. reflexivity.
  - eexists. split; [reflexivity |]. split; [reflexivity |].
    intros b i j Hb Hi Hj. tidx. rewrite andb_true_r. reflexivity.
Qed.

Lemma rsum_ext (n : nat) (f g : nat -> R) :
  (forall j, j < n -> f j = g j) -> rsum n f = rsum n g.
Proof.
  induction n as [| n IH]; intros Hfg; [reflexivity |].
  cbn [rsum]. rewrite IH by (intros; apply Hfg; lia).
  rewrite Hfg by lia. reflexivity.
Qed.

Lemma rmax_ext (n : nat) (f g : nat -> R) :
  (forall j, j < n -> f j = g j) -> rmax n f = rmax n g.
Proof.
  induction n as [| n IH]; intros Hfg; [reflexivity |].
  destruct n as [| n]; [apply Hfg; lia |].
  change (Rmax (rmax (S n) f) (f (S n)) = Rmax (rmax (S n) g) (g (S n))).
  rewrite IH by (intros; apply Hfg; lia).
  rewrite Hfg by lia. reflexivity.
Qed.

Lemma softmax_row_ext (n : nat) (f g : nat -> R) (j : nat) :
  j < n -> (forall j', j' < n -> f j' = g j') -> softmax_row n f j = softmax_row n g j.
Proof.
  intros Hj Hfg. unfold softmax_row.
  rewrite (rmax_ext n f g Hfg), (Hfg j Hj).
  f_equal. apply rsum_ext. intros j' Hj'. rewrite (Hfg j' Hj'). reflexivity.
Qed.

(** The reference attention on arrays of the expected shapes: the scores of
    the pairs that the mask rejects are replaced by [mask_value], each row
    goes through the softmax, and the result weighs the values. *)
Lemma attention_spec (q k v : tensor R) (q_segment_ids k_segment_ids q_offset : tensor Z)
    (cfg : Config) (B H t T D Dv : nat) :
  shape q = [B; H; t; D] -> shape k = [B; H; T; D] -> shape v = [B; H; T; Dv] ->
  shape q_segment_ids = [B; t] -> shape k_segment_ids = [B; T] ->
  shape q_offset = [B] -> D <> 0 -> T <> 0 ->
  exists out,
    attention q k v q_segment_ids k_segment_ids q_offset cfg = Ok out /\
    shape out = [B; H; t; Dv] /\
    forall b hd i d, b < B -> hd < H -> i < t -> d < Dv ->
      out.[[b; hd; i; d]] =
      rsum T (fun j =>
        softmax_row T (masked_score q k
                         (allowed q_segment_ids k_segment_ids q_offset (causal cfg))
                         b hd i) j
        * v.[[b; hd; j; d]])%R.
Proof.
  intros Hq Hk Hv Hqs Hks Hqo HD HT.
  destruct (make_attention_mask_spec q_segment_ids k_segment_ids q_offset
              (causal cfg) B t T Hqs Hks Hqo) as (m & Hm & Hms & Hmd).
  destruct q as [sq dq], k as [sk dk], v as [sv dv]. cbn [shape] in *. subst.
  unfold attention, einsum_bhtd_bhTd_bhtT, einsum_bhtT_bhTd_bhtd, max_last_keepdims,
    astype_float32, astype_bfloat16, softmax, tmap.
  cbn [shape List.last nth].
  destruct (Nat.eqb_spec D 0) as [| _]; [contradiction |].
  cbn [negb check bind]. rewrite !Nat.eqb_refl. cbn [andb bind shape nth].
  rewrite Hm. cbn [bind List.last shape].
  destruct (Nat.eqb_spec T 0) as [| _]; [contradiction |].
  cbn [negb check bind].
  unfold broadcast2, broadcast_shapes, bidx. rewrite Hms.
  cbn [shape data rev app bshape_rev bidx_rev].
  rewrite ?bdim_refl, ?bdim_1_r, ?bdim_1_l. cbn [rev app bind shape List.last].
  rewrite !Nat.eqb_refl. cbn [andb].
  eexists. split; [reflexivity |]. split; [reflexivity |].
  intros b hd i d Hb Hhd Hi Hd. cbn [data nth].
  apply rsum_ext. intros j Hj. f_equal.
  unfold softmax_row, masked_score. cbn [shape List.last data removelast app].
  assert (Hallowed : forall j', j' < T ->
            m.[[b; 0; i; j']]
            = allowed q_segment_ids k_segment_ids q_offset (causal cfg) b i j').
  { intros j' Hj'. rewrite Hmd by assumption. reflexivity. }
  apply (f_equal2 Rdiv).
  - apply f_equal. apply (f_equal2 Rminus).
    + tidx. rewrite Hallowed by assumption. reflexivity.
    + apply rmax_ext. intros j' Hj'. cbn beta. tidx.
      rewrite Hallowed by assumption. reflexivity.
  - apply rsum_ext. intros j' Hj'. cbn beta.
    apply f_equal. apply (f_equal2 Rminus).
    + tidx. rewrite Hallowed by assumption. reflexivity.
    + apply rmax_ext. intros j'' Hj''. cbn beta. tidx.
      rewrite Hallowed by assumption. reflexivity.
Qed.

(** ** 32-bit arithmetic without overflow *)

Lemma wrap32_small (z : Z) : (int32_min <= z <= int32_max)%Z -> wrap32 z = z.
Proof.
  unfold wrap32, int32_min, int32_max. intros Hz.
  rewrite Z.mod_small by lia. lia.
Qed.

Lemma add32_small (a b : Z) :
  (int32_min <= a + b <= int32_max)%Z -> add32 a b = (a + b)%Z.
Proof. apply wrap32_small. Qed.

Lemma zsum32_flags (n : nat) (f : nat -> Z) :
  (Z.of_nat n <= int32_max)%Z -> (forall j, j < n -> (0 <= f j <= 1)%Z) ->
  (0 <= zsum32 n f <= Z.of_nat n)%Z.
Proof.
  unfold int32_max. induction n as [| n IH]; intros Hn Hf; [simpl; lia |].
  cbn [zsum32]. specialize (IH ltac:(lia) ltac:(intros; apply Hf; lia)).
  specialize (Hf n ltac:(lia)).
  rewrite add32_small by (unfold int32_min, int32_max; lia). lia.
Qed.

Lemma valid_tokens_bounds (segment_ids : tensor Z) (B T b : nat) :
  shape segment_ids = [B; T] -> (Z.of_nat T <= int32_max)%Z ->
  (0 <= valid_tokens segment_ids b <= Z.of_nat T)%Z.
Proof.
  intros Hs HT. unfold valid_tokens, sum_last32, nonzero, tmap.
  cbn [shape data]. rewrite Hs. cbn [List.last].
  apply zsum32_flags; [exact HT |].
  intros j _. destruct (_ =? 0)%Z; lia.
Qed.

(** ** The cache update *)

Lemma slice_start_in_range (n size : nat) (index : Z) :
  (0 <= index)%Z -> (index + Z.of_nat size <= Z.of_nat n)%Z ->
  slice_start n size index = Z.to_nat index.
Proof.
  intros Hlo Hhi. unfold slice_start, clamp.
  destruct (Z.ltb_spec index 0); [lia |]. f_equal. lia.
Qed.

Lemma cache_update_spec (k v : tensor R) (segment_ids : tensor Z) (idx : nat)
    (cache : KVCache.t) (cache_k cache_v : tensor R) (B Hk T Tmax D : nat) :
  KVCache.k cache !! idx = Some cache_k -> KVCache.v cache !! idx = Some cache_v ->
  shape k = [B; Hk; T; D] -> shape v = [B; Hk; T; D] -> shape segment_ids = [B; T] ->
  shape cache_k = [B; Hk; Tmax; D] -> shape cache_v = [B; Hk; Tmax; D] ->
  shape (KVCache.lengths cache) = [B] ->
  T <= Tmax ->
  exists k' v' k_segment_ids,
    cache_update k v segment_ids idx cache
    = Ok (k', v', nonzero segment_ids, k_segment_ids, KVCache.lengths cache) /\
    shape k' = [B; Hk; Tmax; D] /\ shape v' = [B; Hk; Tmax; D] /\
    shape k_segment_ids = [B; Tmax] /\
    (forall b tau, b < B -> tau < Tmax ->
       let bound := add32 (KVCache.lengths cache).[[b]] (valid_tokens segment_ids b) in
       k_segment_ids.[[b; tau]] = (if (Z.of_nat tau <? bound)%Z then 1%Z else 0%Z)) /\
    forall b h tau d, b < B -> h < Hk -> tau < Tmax -> d < D ->
      let start := slice_start Tmax T (KVCache.lengths cache).[[b]] in
      let written (new old : tensor R) : R :=
        if (start <=? tau) && (tau - start <? T)
        then new.[[b; h; tau - start; d]] else old.[[b; h; tau; d]] in
      k'.[[b; h; tau; d]] = (written k cache_k * IZR k_segment_ids.[[b; tau]])%R /\
      v'.[[b; h; tau; d]] = (written v cache_v * IZR k_segment_ids.[[b; tau]])%R.
Proof.
  intros Hck Hcv Hk_ Hv_ Hs Hcks Hcvs Hl HT.
  destruct cache as [cks cvs lengths]. cbn [KVCache.k KVCache.v KVCache.lengths] in *.
  destruct k as [sk dk], v as [sv dv], cache_k as [sck dck], cache_v as [scv dcv],
    lengths as [sl dl], segment_ids as [ss ds].
  cbn [shape] in *. subst.
  unfold cache_update, list_get, astype_bfloat16.
  cbn [KVCache.k KVCache.v KVCache.lengths]. rewrite Hck, Hcv. cbn [bind].
  unfold vmap_update, vmap, dynamic_update_slice_in_dim, row, KVCache.time_axis.
  cbn [shape tail all_le Nat.sub nth].
  rewrite !Nat.eqb_refl, !Nat.leb_refl. apply Nat.leb_le in HT. rewrite HT.
  cbn [andb negb bind shape data nth tail].
  unfold sum_last32, nonzero, tmap, of_list.
  cbn [shape data removelast List.last nth].
  rewrite length_arange, arange_unit_length.
  bcast. cbn [bind shape]. bcast. cbn [bind shape]. bcast. cbn [bind shape]. bcast.
  cbn [bind shape].
  eexists _, _, _. split; [reflexivity |].
  split; [reflexivity |]. split; [reflexivity |]. split; [reflexivity |].
  split.
  { intros b tau Hb Htau. cbv zeta. tidx.
    rewrite nth_arange by (rewrite arange_unit_length; exact Htau).
    replace (0 + tau * 1) with tau by lia. reflexivity. }
  intros b h tau d Hb Hh Htau Hd. cbv zeta. tidx.
  rewrite nth_arange by (rewrite arange_unit_length; exact Htau).
  replace (0 + tau * 1) with tau by lia.
  unfold valid_tokens, sum_last32, nonzero, tmap.
  cbn [shape data List.last removelast app].
  assert (Hin : forall n, in_rangeb (<[1 := n]> [h; tau; d]) [Hk; T; D] = (n <? T)).
  { intros n. change (<[1 := n]> [h; tau; d]) with [h; n; d]. cbn [in_rangeb].
    apply Nat.ltb_lt in Hh, Hd. rewrite Hh, Hd, !andb_true_r. reflexivity. }
  rewrite !Hin.
  change (<[1 := (tau - slice_start Tmax T (dl [b]))%nat]> [h; tau; d])
    with [h; (tau - slice_start Tmax T (dl [b]))%nat; d].
  split; reflexivity.
Qed.

(** ** Claims about the reference attention and the cache update *)

(** C5, as stated: the mask between a padding query and a padding key.  The
    code lets the pair through, the stated mask does not. *)
Lemma attention_mask_padding_pair :
  exists m,
    make_attention_mask 1 1 (full [1; 1] 0%Z) (full [1; 1] 0%Z) (full [1] 0%Z) true
    = Ok m /\
    m.[[0; 0; 0; 0]] = true /\
    allowed_non_padding (full [1; 1] 0%Z) (full [1; 1] 0%Z) (full [1] 0%Z) true 0 0 0
    = false.
Proof.
  eexists. split; [reflexivity |]. split; reflexivity.
Qed.

(** C5, amended.  In the reference attention the mask lets a pair of a query
    and a key through exactly when their segment ids are equal (two padding
    positions, both with id 0, match each other) and, when causal, the
    position of the query, its offset plus its index in the chunk, is not
    before the key.  The scores of the other pairs are replaced by the
    sentinel -1e30, each row goes through the softmax, and the result weighs
    the values. *)
Theorem attention_mask_and_softmax (q k v : tensor R)
    (q_segment_ids k_segment_ids q_offset : tensor Z) (cfg : Config)
    (B H t T D Dv : nat) :
  shape q = [B; H; t; D] -> shape k = [B; H; T; D] -> shape v = [B; H; T; Dv] ->
  shape q_segment_ids = [B; t] -> shape k_segment_ids = [B; T] ->
  shape q_offset = [B] -> D <> 0 -> T <> 0 ->
  exists m out,
    make_attention_mask t T q_segment_ids k_segment_ids q_offset (causal cfg) = Ok m /\
    shape m = [B; 1; t; T] /\
    (forall b i j, b < B -> i < t -> j < T ->
       m.[[b; 0; i; j]] =
       (q_segment_ids.[[b; i]] =? k_segment_ids.[[b; j]])%Z
       && (if causal cfg
           then (add32 (Z.of_nat i) q_offset.[[b]] >=? Z.of_nat j)%Z
           else true)) /\
    mask_value = (-1e30)%R /\
    attention q k v q_segment_ids k_segment_ids q_offset cfg = Ok out /\
    shape out = [B; H; t; Dv] /\
    (forall b hd i d, b < B -> hd < H -> i < t -> d < Dv ->
       out.[[b; hd; i; d]] =
       rsum T (fun j =>
         Rmult (softmax_row T (masked_score q k (fun b i j => m.[[b; 0; i; j]]) b hd i) j)
               v.[[b; hd; j; d]])).
Proof.
  intros Hq Hk Hv Hqs Hks Hqo HD HT.
  destruct (make_attention_mask_spec q_segment_ids k_segment_ids q_offset
              (causal cfg) B t T Hqs Hks Hqo) as (m & Hm & Hms & Hmd).
  destruct (attention_spec q k v q_segment_ids k_segment_ids q_offset cfg
              B H t T D Dv Hq Hk Hv Hqs Hks Hqo HD HT) as (out & Hout & Hos & Hod).
  exists m, out. repeat (split; [assumption || reflexivity |]).
  intros b hd i d Hb Hhd Hi Hd. rewrite Hod by assumption.
  apply rsum_ext. intros j Hj. f_equal.
  apply softmax_row_ext; [exact Hj |].
  intros j' Hj'. unfold masked_score, allowed.
  rewrite Hmd by assumption. reflexivity.
Qed.

Lemma attention_mask_and_softmax_witness :
  exists m out,
    make_attention_mask 2 2 (full [1; 2] 1%Z) (full [1; 2] 1%Z) (full [1] 0%Z)
                        (causal reference_cfg) = Ok m /\
    m.[[0; 0; 0; 1]] = false /\ m.[[0; 0; 1; 0]] = true /\
    attention (ones [1; 1; 2; 2]) (ones [1; 1; 2; 2]) (ones [1; 1; 2; 2])
              (full [1; 2] 1%Z) (full [1; 2] 1%Z) (full [1] 0%Z) reference_cfg = Ok out /\
    shape out = [1; 1; 2; 2].
Proof.
  destruct (attention_mask_and_softmax
              (ones [1; 1; 2; 2]) (ones [1; 1; 2; 2]) (ones [1; 1; 2; 2])
              (full [1; 2] 1%Z) (full [1; 2] 1%Z) (full [1] 0%Z) reference_cfg
              1 1 2 2 2 2)
    as (m & out & Hm & _ & Hmd & _ & Hout & Hos & _);
    [reflexivity | reflexivity | reflexivity | reflexivity | reflexivity | reflexivity
    | discriminate | discriminate |].
  exists m, out. split; [exact Hm |].
  split; [rewrite (Hmd 0 0 1) by lia; reflexivity |].
  split; [rewrite (Hmd 0 1 0) by lia; reflexivity |].
  split; [exact Hout | exact Hos].
Defined.

(** A non-padding query never attends to a padding key. *)
Lemma allowed_key_not_padding (q_segment_ids k_segment_ids q_offset : tensor Z)
    (causal : bool) (b i j : nat) :
  q_segment_ids.[[b; i]] <> 0%Z ->
  allowed q_segment_ids k_segment_ids q_offset causal b i j = true ->
  k_segment_ids.[[b; j]] <> 0%Z.
Proof.
  unfold allowed. intros Hq Ha. apply andb_true_iff in Ha. destruct Ha as [Heq _].
  apply Z.eqb_eq in Heq. congruence.
Qed.

(** When the chunk would run past the end of the cache the start of the
    write is moved to the left. *)
Example slice_start_clamped : slice_start 4 2 3 = 2.
Proof. reflexivity. Qed.


(** ** The forward pass with a cache *)

Section Forward.

Variable flash_attention :
  tensor R -> tensor R -> tensor R -> tensor Z -> tensor Z -> bool -> R -> result (tensor R).

Lemma zsum32_count (segment_ids : tensor Z) (b T : nat) :
  (Z.of_nat T <= int32_max)%Z ->
  zsum32 T (fun t => if (segment_ids.[[b; t]] =? 0)%Z then 0%Z else 1%Z)
  = Z.of_nat (count_nonzero segment_ids b T).
Proof.
  unfold count_nonzero, int32_max. induction T as [| T IH]; intros HT; [reflexivity |].
  cbn [zsum32]. rewrite IH by lia.
  rewrite List.seq_S, List.filter_app, List.length_app. cbn [List.filter Nat.add].
  pose proof (List.filter_length_le
                (fun t => negb (segment_ids.[[b; t]] =? 0)%Z) (seq 0 T)) as Hle.
  rewrite List.length_seq in Hle.
  rewrite add32_small
    by (unfold int32_min, int32_max; destruct (segment_ids.[[b; T]] =? 0)%Z; lia).
  destruct (segment_ids.[[b; T]] =? 0)%Z; cbn [negb length]; lia.
Qed.

Lemma valid_tokens_count (segment_ids : tensor Z) (B T b : nat) :
  shape segment_ids = [B; T] -> (Z.of_nat T <= int32_max)%Z ->
  valid_tokens segment_ids b = Z.of_nat (count_nonzero segment_ids b T).
Proof.
  intros Hs HT. unfold valid_tokens, sum_last32, nonzero, tmap.
  cbn [shape data]. rewrite Hs. cbn [List.last app].
  apply zsum32_count. exact HT.
Qed.

Lemma count_nonzero_le (segment_ids : tensor Z) (b T : nat) :
  count_nonzero segment_ids b T <= T.
Proof.
  unfold count_nonzero.
  pose proof (List.filter_length_le
                (fun t => negb (segment_ids.[[b; t]] =? 0)%Z) (seq 0 T)) as Hle.
  rewrite List.length_seq in Hle. exact Hle.
Qed.

Lemma broadcast2_vectors {A B C : Type} (f : A -> B -> C) (x : tensor A) (y : tensor B)
    (n : nat) :
  shape x = [n] -> shape y = [n] ->
  exists r, broadcast2 f x y = Ok r /\ shape r = [n] /\
            forall b, b < n -> r.[[b]] = f x.[[b]] y.[[b]].
Proof.
  intros Hx Hy. destruct x as [sx dx], y as [sy dy]. cbn [shape] in *. subst.
  bcast. eexists. split; [reflexivity |]. split; [reflexivity |].
  intros b Hb. tidx. reflexivity.
Qed.

(** With a cache the layer does not reach the kernel. *)
Lemma forward_layer_cache_no_kernel
    (other : tensor R -> tensor R -> tensor R -> tensor Z -> tensor Z -> bool -> R
             -> result (tensor R))
    (x : tensor R) (segment_ids : tensor Z) (layer : Layer.t) (sin cos : tensor R)
    (idx : nat) (cfg : Config) (c : KVCache.t) :
  forward_layer other x segment_ids layer sin cos idx cfg (Some c)
  = forward_layer flash_attention x segment_ids layer sin cos idx cfg (Some c).
Proof. reflexivity. Qed.

Ltac step_bind :=
  match goal with
  | |- exists e, Raise _ = Raise e => eexists; reflexivity
  | |- exists e, bind ?m _ = Raise e =>
      destruct m as [? | ?]; cbn [bind]; [| eexists; reflexivity]
  | |- context [match ?p with (_, _) => _ end] => destruct p
  end.

Lemma forward_layer_kernel_with_cache (x : tensor R) (segment_ids : tensor Z)
    (layer : Layer.t) (sin cos : tensor R) (idx : nat) (cfg : Config) (c : KVCache.t) :
  use_attn_kernel cfg = true ->
  exists e, forward_layer flash_attention x segment_ids layer sin cos idx cfg (Some c)
            = Raise e.
Proof.
  intros Hkernel. unfold forward_layer. rewrite Hkernel. cbv iota.
  do 7 step_bind.
  repeat step_bind.
Qed.

Lemma forward_layers_cache_no_kernel
    (other : tensor R -> tensor R -> tensor R -> tensor Z -> tensor Z -> bool -> R
             -> result (tensor R))
    (layers : list Layer.t) :
  forall (x : tensor R) (segment_ids : tensor Z) (sin cos : tensor R) (idx : nat)
         (cfg : Config) (c : KVCache.t),
    forward_layers other x segment_ids layers sin cos idx cfg (Some c)
    = forward_layers flash_attention x segment_ids layers sin cos idx cfg (Some c).
Proof.
  induction layers as [| layer layers IH]; intros; [reflexivity |].
  cbn [forward_layers]. unfold bindM, get, lift, put, ret.
  rewrite (forward_layer_cache_no_kernel other).
  destruct (forward_layer flash_attention x segment_ids layer sin cos idx cfg (Some c))
    as [[[x' k'] v'] | e]; [| reflexivity].
  destruct (list_set (KVCache.k c) idx k') as [ks | e]; [| reflexivity].
  destruct (list_set (KVCache.v c) idx v') as [vs | e]; [| reflexivity].
  apply IH.
Qed.

(** No iteration of the loop over the layers changes the lengths held by the
    cache: every layer reads the lengths that the call started with. *)
Lemma forward_layers_lengths (layers : list Layer.t) :
  forall (x : tensor R) (segment_ids : tensor Z) (sin cos : tensor R) (idx : nat)
         (cfg : Config) (c : KVCache.t) (r : result (tensor R)) (s : store),
    forward_layers flash_attention x segment_ids layers sin cos idx cfg (Some c) = (r, s) ->
    exists c', s = Some c' /\ KVCache.lengths c' = KVCache.lengths c.
Proof.
  induction layers as [| layer layers IH]; intros x segment_ids sin cos idx cfg c r s Hrun.
  - cbn in Hrun. injection Hrun as <- <-. exists c. split; reflexivity.
  - cbn [forward_layers] in Hrun. unfold bindM, get, lift, put, ret in Hrun.
    destruct (forward_layer flash_attention x segment_ids layer sin cos idx cfg (Some c))
      as [[[x' k'] v'] | e].
    + destruct (list_set (KVCache.k c) idx k') as [ks | e].
      * destruct (list_set (KVCache.v c) idx v') as [vs | e].
        -- apply IH in Hrun. destruct Hrun as (c' & -> & Hlen).
           exists c'. split; [reflexivity | exact Hlen].
        -- injection Hrun as <- <-. eexists. split; reflexivity.
      * injection Hrun as <- <-. exists c. split; reflexivity.
    + injection Hrun as <- <-. exists c. split; reflexivity.
Qed.

Lemma forward_layers_kernel_with_cache (layer : Layer.t) (layers : list Layer.t)
    (x : tensor R) (segment_ids : tensor Z) (sin cos : tensor R) (idx : nat)
    (cfg : Config) (c : KVCache.t) :
  use_attn_kernel cfg = true ->
  exists e, forward_layers flash_attention x segment_ids (layer :: layers) sin cos idx cfg
                           (Some c) = (Raise e, Some c).
Proof.
  intros Hkernel.
  destruct (forward_layer_kernel_with_cache x segment_ids layer sin cos idx cfg c Hkernel)
    as [e He].
  exists e. cbn [forward_layers]. unfold bindM, get, lift. rewrite He. reflexivity.
Qed.

(** The steps of [forward] around the loop, for a supplied cache. *)
Lemma forward_with_cache (x segment_ids : tensor Z) (weights : Weights.t) (cfg : Config)
    (c : KVCache.t) :
  let x0 := take_rows (Weights.embedding weights) x in
  let tables :=
    _generate_fixed_pos_embedding (key_dim cfg) (max_seq_len cfg)
                                  default_min_timescale default_max_timescale in
  forward flash_attention x segment_ids weights cfg (Some c)
  = match check (2 <=? ndim x0) (IndexError "tuple index out of range") with
    | Raise e => (Raise e, Some c)
    | Ok _ =>
        match slices_at (fst tables) (KVCache.lengths c) (shape x0 @ 1) with
        | Raise e => (Raise e, Some c)
        | Ok sin =>
            match slices_at (snd tables) (KVCache.lengths c) (shape x0 @ 1) with
            | Raise e => (Raise e, Some c)
            | Ok cos =>
                match forward_layers flash_attention x0 segment_ids
                                     (Weights.layers weights) sin cos 0 cfg (Some c) with
                | (Raise e, s) => (Raise e, s)
                | (Ok x1, s) =>
                    match einsum_btd_df_btf x1 (Weights.vocab_proj weights) with
                    | Raise e => (Raise e, s)
                    | Ok logits =>
                        match s with
                        | Some c1 =>
                            match broadcast2 add32 (KVCache.lengths c1)
                                             (sum_last32 (nonzero segment_ids)) with
                            | Raise e => (Raise e, s)
                            | Ok lengths =>
                                (Ok (logits,
                                     Some {| KVCache.k := KVCache.k c1;
                                             KVCache.v := KVCache.v c1;
                                             KVCache.lengths := lengths |}), s)
                            end
                        | None => (Ok (logits, None), None)
                        end
                    end
                end
            end
        end
    end.
Proof.
  cbv zeta. unfold forward, bindM, lift, get, ret.
  unfold _generate_fixed_pos_embedding. cbn [fst snd].
  destruct (check _ _); [| reflexivity].
  destruct (slices_at _ _ _); [| reflexivity].
  destruct (slices_at _ _ _); [| reflexivity].
  destruct (forward_layers _ _ _ _ _ _ _ _ _) as [[x1 | e] s]; [| reflexivity].
  destruct (einsum_btd_df_btf _ _); [| reflexivity].
  destruct s as [c1 |]; [| reflexivity].
  destruct (broadcast2 _ _ _); reflexivity.
Qed.

(** C4.  With [use_attn_kernel] set and at least one layer, [forward] with
    a cache raises, and the cache object of the caller is what it was; the
    same holds of [forward_layer] for every layer, and the result does not
    depend on the kernel, which is never called. *)
Theorem forward_kernel_rejects_cache (x segment_ids : tensor Z) (weights : Weights.t)
    (cfg : Config) (c : KVCache.t) :
  use_attn_kernel cfg = true -> Weights.layers weights <> [] ->
  (exists e, forward flash_attention x segment_ids weights cfg (Some c)
             = (Raise e, Some c)) /\
  (forall x0 layer sin cos idx,
     exists e, forward_layer flash_attention x0 segment_ids layer sin cos idx cfg (Some c)
               = Raise e) /\
  (forall other,
     forward other x segment_ids weights cfg (Some c)
     = forward flash_attention x segment_ids weights cfg (Some c)).
Proof.
  intros Hkernel Hlayers. split; [| split].
  - rewrite forward_with_cache. cbv zeta.
    destruct (check _ _); [| eexists; reflexivity].
    destruct (slices_at _ _ _) as [sin | e]; [| eexists; reflexivity].
    destruct (slices_at _ _ _) as [cos | e]; [| eexists; reflexivity].
    destruct (Weights.layers weights) as [| layer layers]; [contradiction |].
    destruct (forward_layers_kernel_with_cache
                layer layers (take_rows (Weights.embedding weights) x) segment_ids
                sin cos 0 cfg c Hkernel) as [e He].
    rewrite He. exists e. reflexivity.
  - intros x0 layer sin cos idx. apply forward_layer_kernel_with_cache. exact Hkernel.
  - intros other. unfold forward, bindM, lift, get, ret.
    destruct (check _ _); [| reflexivity].
    destruct (_generate_fixed_pos_embedding _ _ _ _) as [sin cos].
    destruct (slices_at _ _ _); [| reflexivity].
    destruct (slices_at _ _ _); [| reflexivity].
    rewrite (forward_layers_cache_no_kernel other). reflexivity.
Qed.

(** The lengths that [forward] returns, and the lengths that its loop reads. *)
Lemma forward_lengths_spec (x segment_ids : tensor Z) (weights : Weights.t)
    (cfg : Config) (c : KVCache.t) (logits : tensor R) (oc s : store) (B T : nat) :
  forward flash_attention x segment_ids weights cfg (Some c) = (Ok (logits, oc), s) ->
  shape segment_ids = [B; T] -> shape (KVCache.lengths c) = [B] ->
  (Z.of_nat T <= int32_max)%Z ->
  (forall b, b < B ->
     (int32_min <= (KVCache.lengths c).[[b]])%Z /\
     ((KVCache.lengths c).[[b]] + Z.of_nat (count_nonzero segment_ids b T)
      <= int32_max)%Z) ->
  exists c' cs,
    oc = Some c' /\ s = Some cs /\
    shape (KVCache.lengths c') = [B] /\
    (forall b, b < B ->
       (KVCache.lengths c').[[b]]
       = ((KVCache.lengths c).[[b]] + Z.of_nat (count_nonzero segment_ids b T))%Z /\
       ((KVCache.lengths c).[[b]] <= (KVCache.lengths c').[[b]])%Z) /\
    KVCache.lengths cs = KVCache.lengths c /\
    KVCache.k c' = KVCache.k cs /\ KVCache.v c' = KVCache.v cs /\
    (forall layers x0 sin cos idx r s',
       forward_layers flash_attention x0 segment_ids layers sin cos idx cfg (Some c)
       = (r, s') ->
       exists ci, s' = Some ci /\ KVCache.lengths ci = KVCache.lengths c).
Proof.
  intros Hrun Hseg Hlen HT Hfit.
  rewrite forward_with_cache in Hrun. cbv zeta in Hrun.
  destruct (check _ _); [| discriminate].
  destruct (slices_at _ _ _) as [sin | e]; [| discriminate].
  destruct (slices_at _ _ _) as [cos | e]; [| discriminate].
  destruct (forward_layers _ _ _ _ _ _ _ _ _) as [[x1 | e] s1] eqn:Hloop; [| discriminate].
  apply forward_layers_lengths in Hloop. destruct Hloop as (c1 & -> & Hlen1).
  destruct (einsum_btd_df_btf _ _) as [logits' | e]; [| discriminate].
  destruct (broadcast2 add32 (KVCache.lengths c1) (sum_last32 (nonzero segment_ids)))
    as [lengths' | e] eqn:Hadd; [| discriminate].
  injection Hrun as <- <- <-.
  eexists _, c1. split; [reflexivity |]. split; [reflexivity |].
  cbn [KVCache.lengths KVCache.k KVCache.v].
  assert (Hnew : shape lengths' = [B] /\
                 forall b, b < B ->
                   lengths'.[[b]]
                   = add32 (KVCache.lengths c).[[b]] (valid_tokens segment_ids b)).
  { destruct (broadcast2_vectors add32 (KVCache.lengths c1)
                (sum_last32 (nonzero segment_ids)) B) as (r & Hr & Hrs & Hrd).
    - rewrite Hlen1. exact Hlen.
    - unfold sum_last32, nonzero, tmap. cbn [shape]. rewrite Hseg. reflexivity.
    - rewrite Hr in Hadd. injection Hadd as <-. split; [exact Hrs |].
      intros b Hb. rewrite (Hrd b Hb), Hlen1. reflexivity. }
  destruct Hnew as [Hshape Hdata].
  split; [exact Hshape |]. split; [| split; [exact Hlen1 |]].
  - intros b Hb. destruct (Hfit b Hb) as [Hlo Hhi].
    rewrite (Hdata b Hb), (valid_tokens_count segment_ids B T b Hseg HT).
    rewrite add32_small by lia. lia.
  - split; [reflexivity |]. split; [reflexivity |].
    intros layers x0 sin0 cos0 idx r s' Hloop.
    apply forward_layers_lengths in Hloop. exact Hloop.
Qed.

(** C3.  When [forward] returns with a cache of [B] rows, the lengths of the
    returned cache are, row by row, the lengths it was given plus the number
    of non-zero segment ids in that row of the chunk, hence not smaller
    (32-bit sums that do not overflow).  The advance is made once, on the
    returned cache: the cache object that the layers read and assign to keeps
    the lengths it had, through every iteration of the loop over the layers. *)
Theorem forward_advances_lengths (x segment_ids : tensor Z) (weights : Weights.t)
    (cfg : Config) (c : KVCache.t) (logits : tensor R) (oc s : store) (B T : nat) :
  forward flash_attention x segment_ids weights cfg (Some c) = (Ok (logits, oc), s) ->
  shape segment_ids = [B; T] -> shape (KVCache.lengths c) = [B] ->
  (Z.of_nat T <= int32_max)%Z ->
  (forall b, b < B ->
     (int32_min <= (KVCache.lengths c).[[b]])%Z /\
     ((KVCache.lengths c).[[b]] + Z.of_nat (count_nonzero segment_ids b T)
      <= int32_max)%Z) ->
  exists c' cs,
    oc = Some c' /\ s = Some cs /\
    shape (KVCache.lengths c') = [B] /\
    (forall b, b < B ->
       (KVCache.lengths c').[[b]]
       = ((KVCache.lengths c).[[b]] + Z.of_nat (count_nonzero segment_ids b T))%Z /\
       ((KVCache.lengths c).[[b]] <= (KVCache.lengths c').[[b]])%Z) /\
    KVCache.lengths cs = KVCache.lengths c /\
    KVCache.k c' = KVCache.k cs /\ KVCache.v c' = KVCache.v cs /\
    (forall layers x0 sin cos idx r s',
       forward_layers flash_attention x0 segment_ids layers sin cos idx cfg (Some c)
       = (r, s') ->
       exists ci, s' = Some ci /\ KVCache.lengths ci = KVCache.lengths c).
Proof.
  intros Hrun Hseg Hlen HT Hfit.
  exact (forward_lengths_spec x segment_ids weights cfg c logits oc s B T
           Hrun Hseg Hlen HT Hfit).
Qed.

End Forward.

Lemma reference_forward_ok :
  is_error (fst (forward no_flash_attention reference_chunk reference_chunk
                         reference_weights reference_cfg (Some reference_cache))) = false.
Proof. reflexivity. Qed.

Lemma forward_advances_lengths_witness :
  exists logits c' s,
    forward no_flash_attention reference_chunk reference_chunk reference_weights
            reference_cfg (Some reference_cache) = (Ok (logits, Some c'), s) /\
    (KVCache.lengths c').[[0]] = 2%Z.
Proof.
  pose proof reference_forward_ok as Hok.
  destruct (forward no_flash_attention reference_chunk reference_chunk reference_weights
                    reference_cfg (Some reference_cache))
    as [[[logits oc] | e] s] eqn:Hrun; [| discriminate].
  destruct (forward_advances_lengths no_flash_attention _ _ _ _ _ _ _ _ 1 2 Hrun)
    as (c' & cs & -> & _ & _ & Hadv & _);
    [reflexivity | reflexivity | unfold int32_max; lia
    | intros b Hb; assert (b = 0) as -> by lia; vm_compute; split; discriminate |].
  exists logits, c', s. split; [reflexivity |].
  destruct (Hadv 0 ltac:(lia)) as [-> _]. reflexivity.
Defined.

Lemma forward_kernel_rejects_cache_witness :
  exists e,
    forward no_flash_attention reference_chunk reference_chunk reference_weights
            kernel_cfg (Some reference_cache) = (Raise e, Some reference_cache).
Proof.
  destruct (forward_kernel_rejects_cache no_flash_attention reference_chunk
              reference_chunk reference_weights kernel_cfg reference_cache)
    as [Hraise _]; [reflexivity | discriminate |].
  exact Hraise.
Defined.

(** The error of the test configuration is the one of the kernel check. *)
Example forward_kernel_error :
  forward no_flash_attention reference_chunk reference_chunk reference_weights
          kernel_cfg (Some reference_cache)
  = (Raise (ValueError "Kernel is only for training."), Some reference_cache).
Proof. reflexivity. Qed.

(** Without layers the kernel check is never reached. *)
Example forward_no_layers :
  is_error (fst (forward no_flash_attention reference_chunk reference_chunk
                         {| Weights.layers := [];
                            Weights.embedding := ones [3; 2];
                            Weights.vocab_proj := ones [2; 3] |}
                         kernel_cfg (Some reference_cache))) = false.
Proof. reflexivity. Qed.

(** ** Token selection *)

Lemma argmax_fn_spec (n : nat) (f : nat -> R) :
  0 < n ->
  argmax_fn n f < n /\
  (forall j, j < n -> (f j <= f (argmax_fn n f))%R) /\
  (forall j, j < argmax_fn n f -> (f j < f (argmax_fn n f))%R).
Proof.
  induction n as [| n IH]; intros Hn; [lia |].
  destruct n as [| n].
  - cbn [argmax_fn]. destruct (Rlt_dec (f 0) (f 0)).
    + split; [lia |]. split; [| intros j Hj; lia].
      intros j Hj. assert (j = 0) as -> by lia. lra.
    + split; [lia |]. split; [| intros j Hj; lia].
      intros j Hj. assert (j = 0) as -> by lia. lra.
  - destruct (IH ltac:(lia)) as (Hlt & Hmax & Hfirst).
    change (argmax_fn (S (S n)) f)
      with (if Rlt_dec (f (argmax_fn (S n) f)) (f (S n))
            then S n else argmax_fn (S n) f).
    destruct (Rlt_dec (f (argmax_fn (S n) f)) (f (S n))) as [Hbetter | Hworse].
    + split; [lia |]. split.
      * intros j Hj. destruct (Nat.eq_dec j (S n)) as [-> | Hne]; [lra |].
        specialize (Hmax j ltac:(lia)). lra.
      * intros j Hj. specialize (Hmax j Hj). lra.
    + split; [lia |]. split.
      * intros j Hj. destruct (Nat.eq_dec j (S n)) as [-> | Hne]; [lra |].
        apply Hmax. lia.
      * exact Hfirst.
Qed.

(** With [greedy], on a vector of [V] logits, [V > 0], the result is the
    first index at which the logits are largest. *)
Lemma sample_next_token_greedy (categorical : Z -> tensor R -> result (tensor Z))
    (logits : tensor R) (temperature : R) (V : nat) :
  shape logits = [V] -> 0 < V ->
  exists token i,
    sample_next_token categorical logits temperature true = Ok token /\
    shape token = [] /\ token.[[]] = Z.of_nat i /\ i < V /\
    (forall j, j < V -> (logits.[[j]] <= logits.[[i]])%R) /\
    (forall j, j < i -> (logits.[[j]] < logits.[[i]])%R).
Proof.
  intros Hshape HV.
  unfold sample_next_token, argmax. rewrite Hshape. cbn [List.last removelast].
  destruct (Nat.eqb_spec V 0) as [| _]; [lia |]. cbn [negb check bind].
  destruct (argmax_fn_spec V (fun j => logits.[[j]]) HV) as (Hlt & Hmax & Hfirst).
  eexists _, (argmax_fn V (fun j => logits.[[j]])).
  split; [reflexivity |]. split; [reflexivity |]. split; [reflexivity |].
  split; [exact Hlt |]. split; [exact Hmax | exact Hfirst].
Qed.

(** ** Prompts with zero tokens *)

Lemma pow2_log2_up_ge (n : nat) : n <= 2 ^ Nat.log2_up n.
Proof.
  destruct n as [| n]; [lia |].
  apply Nat.log2_log2_up_spec. lia.
Qed.

Lemma prepare_chunk_spec (chunk : tensor Z) (len pad_to : nat) (pad_id : Z) :
  shape chunk = [len] -> len <= pad_to ->
  exists prompt segment_ids,
    prepare_chunk chunk pad_to pad_id = Ok (prompt, segment_ids) /\
    shape prompt = [1; pad_to] /\ shape segment_ids = [1; pad_to] /\
    (forall p, p < len -> prompt.[[0; p]] = chunk.[[p]]) /\
    (forall p, len <= p -> prompt.[[0; p]] = 0%Z) /\
    (forall p, segment_ids.[[0; p]]
               = if Z.eqb prompt.[[0; p]] pad_id then 0%Z else 1%Z).
Proof.
  intros Hshape Hle. unfold prepare_chunk, pad_right, expand_dims, tmap.
  rewrite Hshape. cbn [nth shape data take drop app map].
  apply Nat.leb_le in Hle. rewrite Hle. cbn [check bind]. apply Nat.leb_le in Hle.
  eexists _, _. split; [reflexivity |]. cbn [shape data].
  replace (len + (pad_to - len)) with pad_to by lia.
  split; [reflexivity |]. split; [reflexivity |]. split; [| split].
  - intros p Hp. cbn [take drop app in_rangeb].
    apply Nat.ltb_lt in Hp. rewrite Hp. reflexivity.
  - intros p Hp. cbn [take drop app in_rangeb].
    destruct (Nat.ltb_spec p len); [lia | reflexivity].
  - intros p. reflexivity.
Qed.


Section Prompt.

Variable flash_attention :
  tensor R -> tensor R -> tensor R -> tensor Z -> tensor Z -> bool -> R -> result (tensor R).


End Prompt.

(** ** Incremental decoding and the full causal mask *)

(** Without a cache, on a sequence of [N] tokens of one segment, the query
    at position [i] attends the keys up to [i]. *)
Lemma full_sequence_mask (N : nat) :
  (Z.of_nat N <= int32_max)%Z ->
  exists m,
    make_attention_mask N N (full [1; N] 1%Z) (full [1; N] 1%Z) (full [1] 0%Z) true
    = Ok m /\
    forall i j, i < N -> j < N -> m.[[0; 0; i; j]] = (j <=? i).
Proof.
  intros HN.
  destruct (make_attention_mask_spec (full [1; N] 1%Z) (full [1; N] 1%Z) (full [1] 0%Z)
              true 1 N N) as (m & Hm & _ & Hmd); [reflexivity .. |].
  exists m. split; [exact Hm |].
  intros i j Hi Hj. rewrite (Hmd 0 i j) by lia. cbn [full data Z.eqb andb].
  rewrite add32_small by (unfold int32_min, int32_max in *; lia).
  destruct (Z.geb_spec (Z.of_nat i + 0) (Z.of_nat j));
    destruct (Nat.leb_spec j i); (reflexivity || lia).
Qed.

(** With a cache whose row holds [L] tokens, the query of a decoding step of
    one token attends the keys up to position [L] and no other position of
    the buffer: the row [L] of the mask of the full sequence. *)
Lemma decode_step_mask (k v : tensor R) (idx : nat) (c : KVCache.t)
    (cache_k cache_v : tensor R) (Hk Tmax D L : nat) :
  KVCache.k c !! idx = Some cache_k -> KVCache.v c !! idx = Some cache_v ->
  shape k = [1; Hk; 1; D] -> shape v = [1; Hk; 1; D] ->
  shape cache_k = [1; Hk; Tmax; D] -> shape cache_v = [1; Hk; Tmax; D] ->
  shape (KVCache.lengths c) = [1] -> (KVCache.lengths c).[[0]] = Z.of_nat L ->
  L + 1 <= Tmax -> (Z.of_nat Tmax <= int32_max)%Z ->
  exists k' v' k_segment_ids m,
    cache_update k v (full [1; 1] 1%Z) idx c
    = Ok (k', v', nonzero (full [1; 1] 1%Z), k_segment_ids, KVCache.lengths c) /\
    make_attention_mask 1 Tmax (nonzero (full [1; 1] 1%Z)) k_segment_ids
                        (KVCache.lengths c) true = Ok m /\
    forall j, j < Tmax -> m.[[0; 0; 0; j]] = (j <=? L).
Proof.
  intros Hck Hcv Hks Hvs Hcks Hcvs Hls HL Hfit Hmax.
  destruct (cache_update_spec k v (full [1; 1] 1%Z) idx c cache_k cache_v 1 Hk 1 Tmax D)
    as (k' & v' & ks & Hrun & _ & _ & Hkss & Hmasks & _);
    [assumption | assumption | assumption | assumption | reflexivity
    | assumption | assumption | assumption | lia |].
  destruct (make_attention_mask_spec (nonzero (full [1; 1] 1%Z)) ks (KVCache.lengths c)
              true 1 1 Tmax) as (m & Hm & _ & Hmd);
    [reflexivity | exact Hkss | exact Hls |].
  exists k', v', ks, m. split; [exact Hrun |]. split; [exact Hm |].
  intros j Hj. rewrite (Hmd 0 0 j) by lia.
  rewrite (Hmasks 0 j ltac:(lia) Hj). cbv zeta. rewrite HL.
  change (valid_tokens (full [1; 1] 1%Z) 0) with (add32 0 1).
  change ((nonzero (full [1; 1] 1%Z)).[[0; 0]]) with 1%Z.
  replace (add32 0 1) with 1%Z by reflexivity.
  rewrite !add32_small by (unfold int32_min, int32_max in *; lia).
  destruct (Z.ltb_spec (Z.of_nat j) (Z.of_nat L + 1));
    destruct (Z.geb_spec (Z.of_nat 0 + Z.of_nat L) (Z.of_nat j));
    destruct (Nat.leb_spec j L); cbn; (reflexivity || lia).
Qed.

(** * Further properties of the code *)

(** ** Finite sums *)

Lemma rsum_scal_r (n : nat) (f : nat -> R) (c : R) :
  rsum n (fun j => f j * c)%R = (rsum n f * c)%R.
Proof.
  induction n as [| n IH]; cbn [rsum]; [ring |]. rewrite IH. ring.
Qed.

Lemma rsum_plus (n : nat) (f g : nat -> R) :
  rsum n (fun j => f j + g j)%R = (rsum n f + rsum n g)%R.
Proof.
  induction n as [| n IH]; cbn [rsum]; [ring |]. rewrite IH. ring.
Qed.

Lemma rsum_nonneg (n : nat) (f : nat -> R) :
  (forall j, j < n -> (0 <= f j)%R) -> (0 <= rsum n f)%R.
Proof.
  induction n as [| n IH]; intros Hf; cbn [rsum]; [lra |].
  specialize (IH ltac:(intros; apply Hf; lia)). specialize (Hf n ltac:(lia)). lra.
Qed.

Lemma rsum_pos (n : nat) (f : nat -> R) :
  0 < n -> (forall j, j < n -> (0 < f j)%R) -> (0 < rsum n f)%R.
Proof.
  intros Hn Hf. destruct n as [| n]; [lia |]. cbn [rsum].
  assert (0 <= rsum n f)%R by (apply rsum_nonneg; intros; left; apply Hf; lia).
  specialize (Hf n ltac:(lia)). lra.
Qed.

Lemma rsum_le (n : nat) (f g : nat -> R) :
  (forall j, j < n -> (f j <= g j)%R) -> (rsum n f <= rsum n g)%R.
Proof.
  induction n as [| n IH]; intros Hfg; cbn [rsum]; [lra |].
  specialize (IH ltac:(intros; apply Hfg; lia)). specialize (Hfg n ltac:(lia)). lra.
Qed.

Lemma rsum_term_le (n : nat) (f : nat -> R) (j : nat) :
  j < n -> (forall i, i < n -> (0 <= f i)%R) -> (f j <= rsum n f)%R.
Proof.
  induction n as [| n IH]; intros Hj Hf; [lia |]. cbn [rsum].
  assert (0 <= rsum n f)%R by (apply rsum_nonneg; intros; apply Hf; lia).
  destruct (Nat.eq_dec j n) as [-> | Hne]; [lra |].
  specialize (IH ltac:(lia) ltac:(intros; apply Hf; lia)).
  specialize (Hf n ltac:(lia)). lra.
Qed.

(** ** Softmax rows *)

Lemma softmax_row_pos (n : nat) (row : nat -> R) (j : nat) :
  0 < n -> (0 < softmax_row n row j)%R.
Proof.
  intros Hn. unfold softmax_row, Rdiv. apply Rmult_lt_0_compat; [apply exp_pos |].
  apply Rinv_0_lt_compat. apply rsum_pos; [exact Hn |]. intros; apply exp_pos.
Qed.

Lemma softmax_row_sum (n : nat) (row : nat -> R) :
  0 < n -> rsum n (softmax_row n row) = 1%R.
Proof.
  intros Hn. unfold softmax_row, Rdiv. rewrite rsum_scal_r.
  apply Rinv_r. apply Rgt_not_eq. apply rsum_pos; [exact Hn |]. intros; apply exp_pos.
Qed.

Lemma softmax_row_le_1 (n : nat) (row : nat -> R) (j : nat) :
  j < n -> (softmax_row n row j <= 1)%R.
Proof.
  intros Hj. rewrite <- (softmax_row_sum n row) by lia.
  apply rsum_term_le; [exact Hj |].
  intros i _. left. apply softmax_row_pos. lia.
Qed.

(** X1.  The weights of the reference attention are those of a convex
    combination: when the values of a batch row and head agree on a feature
    over all keys, the output for every query has that value. *)
Theorem attention_constant_values (q k v : tensor R)
    (q_segment_ids k_segment_ids q_offset : tensor Z) (cfg : Config)
    (B H t T D Dv : nat) (b hd d : nat) (c : R) :
  shape q = [B; H; t; D] -> shape k = [B; H; T; D] -> shape v = [B; H; T; Dv] ->
  shape q_segment_ids = [B; t] -> shape k_segment_ids = [B; T] ->
  shape q_offset = [B] -> D <> 0 -> T <> 0 ->
  b < B -> hd < H -> d < Dv ->
  (forall j, j < T -> v.[[b; hd; j; d]] = c) ->
  exists out,
    attention q k v q_segment_ids k_segment_ids q_offset cfg = Ok out /\
    forall i, i < t -> out.[[b; hd; i; d]] = c.
Proof.
  intros Hq Hk Hv Hqs Hks Hqo HD HT Hb Hhd Hd Hconst.
  destruct (attention_spec q k v q_segment_ids k_segment_ids q_offset cfg
              B H t T D Dv Hq Hk Hv Hqs Hks Hqo HD HT) as (out & Hout & _ & Hod).
  exists out. split; [exact Hout |].
  intros i Hi. rewrite (Hod b hd i d Hb Hhd Hi Hd).
  rewrite (rsum_ext T _ (fun j =>
             softmax_row T (masked_score q k
               (allowed q_segment_ids k_segment_ids q_offset (causal cfg)) b hd i) j
             * c)%R)
    by (intros j Hj; rewrite (Hconst j Hj); reflexivity).
  rewrite rsum_scal_r, softmax_row_sum by lia. ring.
Qed.

Lemma attention_constant_values_witness :
  exists out,
    attention (ones [1; 1; 2; 2]) (ones [1; 1; 2; 2]) (full [1; 1; 2; 2] 7%R)
              (full [1; 2] 1%Z) (full [1; 2] 1%Z) (full [1] 0%Z) reference_cfg = Ok out /\
    forall i, i < 2 -> out.[[0; 0; i; 1]] = 7%R.
Proof.
  apply (attention_constant_values _ _ _ _ _ _ reference_cfg 1 1 2 2 2 2 0 0 1 7%R);
    try reflexivity; try lia; try discriminate.
Defined.

(** What [sample_next_token] hands the sampler without [greedy]. *)
Lemma sample_next_token_probs (categorical : Z -> tensor R -> result (tensor Z))
    (logits : tensor R) (temperature : R) (V : nat) :
  shape logits = [V] ->
  exists probs,
    sample_next_token categorical logits temperature false = categorical 0%Z probs /\
    shape probs = [V] /\
    forall j, j < V ->
      probs.[[j]] = softmax_row V (fun j' => (logits.[[j']] / temperature)%R) j.
Proof.
  intros Hshape. unfold sample_next_token. eexists. split; [reflexivity |].
  unfold softmax, tmap. cbn [shape data]. rewrite Hshape. split; [reflexivity |].
  intros j Hj. cbn [List.last removelast app]. reflexivity.
Qed.

(** X2.  Without [greedy], what [sample_next_token] hands the sampler is a
    probability vector: its entries are positive and sum to 1, for every
    temperature that is not 0; the seed is 0 on every call. *)
Theorem sample_next_token_probabilities
    (categorical : Z -> tensor R -> result (tensor Z))
    (logits : tensor R) (temperature : R) (V : nat) :
  shape logits = [V] -> 0 < V -> temperature <> 0%R ->
  exists probs,
    sample_next_token categorical logits temperature false = categorical 0%Z probs /\
    shape probs = [V] /\
    (forall j, j < V -> (0 < probs.[[j]] <= 1)%R) /\
    rsum V (fun j => probs.[[j]]) = 1%R.
Proof.
  intros Hshape HV _.
  destruct (sample_next_token_probs categorical logits temperature V Hshape)
    as (probs & Hrun & Hps & Hdata).
  exists probs. split; [exact Hrun |]. split; [exact Hps |]. split.
  - intros j Hj. rewrite (Hdata j Hj). split.
    + apply (softmax_row_pos V (fun j' => (logits.[[j']] / temperature)%R) j HV).
    + apply (softmax_row_le_1 V (fun j' => (logits.[[j']] / temperature)%R) j Hj).
  - rewrite (rsum_ext V _ (softmax_row V (fun j' => (logits.[[j']] / temperature)%R)))
      by exact Hdata.
    apply (softmax_row_sum V (fun j' => (logits.[[j']] / temperature)%R) HV).
Qed.

Lemma sample_next_token_probabilities_witness :
  exists probs,
    sample_next_token constant_categorical (of_list 0%R [1%R; 3%R; 2%R]) 2%R false
    = constant_categorical 0%Z probs /\
    rsum 3 (fun j => probs.[[j]]) = 1%R.
Proof.
  destruct (sample_next_token_probabilities
              constant_categorical (of_list 0%R [1%R; 3%R; 2%R]) 2%R 3)
    as (probs & Hrun & _ & _ & Hsum); [reflexivity | lia | lra |].
  exists probs. split; [exact Hrun | exact Hsum].
Defined.

(** ** More on the rotary embedding *)

Lemma rsum_split (n m : nat) (f : nat -> R) :
  rsum (n + m) f = (rsum n f + rsum m (fun j => f (n + j)%nat))%R.
Proof.
  induction m as [| m IH].
  - rewrite Nat.add_0_r. cbn [rsum]. ring.
  - replace (n + S m) with (S (n + m)) by lia. cbn [rsum]. rewrite IH. ring.
Qed.

(** A sum over the two halves of the last axis, pair by pair. *)
Lemma rsum_pairs (h : nat) (f : nat -> R) :
  rsum (2 * h) f = rsum h (fun d => f d + f (d + h)%nat)%R.
Proof.
  replace (2 * h) with (h + h) by lia.
  rewrite rsum_split, rsum_plus. f_equal.
  apply rsum_ext. intros j _. f_equal. lia.
Qed.

Lemma rotated_lo (x sin cos : tensor R) (h b hd t d : nat) :
  d < h ->
  rotated x sin cos h b hd t d
  = (x.[[b; hd; t; d]] * cos.[[b; t; d]] - x.[[b; hd; t; (d + h)%nat]] * sin.[[b; t; d]])%R.
Proof.
  intros Hd. unfold rotated. destruct (Nat.ltb_spec d h); [reflexivity | lia].
Qed.

Lemma rotated_hi (x sin cos : tensor R) (h b hd t d : nat) :
  rotated x sin cos h b hd t (d + h)
  = (x.[[b; hd; t; (d + h)%nat]] * cos.[[b; t; d]] + x.[[b; hd; t; d]] * sin.[[b; t; d]])%R.
Proof.
  unfold rotated. destruct (Nat.ltb_spec (d + h) h); [lia |].
  replace (d + h - h) with d by lia. reflexivity.
Qed.

(** X3.  The rotation keeps the length of every vector: for tables that are
    the sine and cosine of the same angles, the sum of the squares over the
    last axis of the result is that of the argument. *)
Theorem apply_rotary_embedding_norm (x theta : tensor R) (B H T h : nat) :
  shape x = [B; H; T; 2 * h] -> shape theta = [B; T; h] ->
  exists y,
    apply_rotary_embedding x (tmap sin theta) (tmap cos theta) = Ok y /\
    forall b hd t, b < B -> hd < H -> t < T ->
      rsum (2 * h) (fun d => y.[[b; hd; t; d]] ^ 2)%R
      = rsum (2 * h) (fun d => x.[[b; hd; t; d]] ^ 2)%R.
Proof.
  intros Hx Htheta.
  destruct (apply_rotary_embedding_spec x (tmap sin theta) (tmap cos theta) B H T h)
    as (y & Hy & _ & Hyd); [assumption .. |].
  exists y. split; [exact Hy |].
  intros b hd t Hb Hhd Ht. rewrite !rsum_pairs.
  apply rsum_ext. intros d Hd.
  rewrite (Hyd b hd t d), (Hyd b hd t (d + h)) by lia.
  rewrite rotated_lo by exact Hd. rewrite rotated_hi. cbn [tmap data].
  pose proof (sin2_cos2 theta.[[b; t; d]]) as Hunit. rewrite !Rsqr_pow2 in Hunit.
  transitivity ((x.[[b; hd; t; d]] ^ 2 + x.[[b; hd; t; (d + h)%nat]] ^ 2)
                * (sin theta.[[b; t; d]] ^ 2 + cos theta.[[b; t; d]] ^ 2))%R;
    [ring |].
  rewrite Hunit. ring.
Qed.

Lemma apply_rotary_embedding_norm_witness :
  exists y,
    apply_rotary_embedding (ones [1; 2; 3; 2 * 2]) (tmap sin (ones [1; 3; 2]))
                           (tmap cos (ones [1; 3; 2])) = Ok y /\
    rsum (2 * 2) (fun d => pow y.[[0; 1; 2; d]] 2) = 4%R.
Proof.
  destruct (apply_rotary_embedding_norm (ones [1; 2; 3; 2 * 2]) (ones [1; 3; 2]) 1 2 3 2)
    as (y & Hy & Hnorm); [reflexivity | reflexivity |].
  exists y. split; [exact Hy |].
  rewrite (Hnorm 0 1 2) by lia. cbn [rsum ones full data Nat.mul Nat.add]. ring.
Defined.

Lemma rotated_pair_dot (q1 q2 k1 k2 a b : R) :
  ((q1 * cos a - q2 * sin a) * (k1 * cos b - k2 * sin b)
   + (q2 * cos a + q1 * sin a) * (k2 * cos b + k1 * sin b))%R
  = ((q1 * k1 + q2 * k2) * cos (a - b) + (q1 * k2 - q2 * k1) * sin (a - b))%R.
Proof. rewrite cos_minus, sin_minus. ring. Qed.

(** The score of a rotated query against a rotated key, from the angles. *)
Lemma rotary_score (q k ta tb : tensor R) (B H t T h : nat) :
  shape q = [B; H; t; 2 * h] -> shape k = [B; H; T; 2 * h] ->
  shape ta = [B; t; h] -> shape tb = [B; T; h] ->
  exists yq yk s,
    apply_rotary_embedding q (tmap sin ta) (tmap cos ta) = Ok yq /\
    apply_rotary_embedding k (tmap sin tb) (tmap cos tb) = Ok yk /\
    einsum_bhtd_bhTd_bhtT yq yk = Ok s /\
    shape s = [B; H; t; T] /\
    forall b hd i j, b < B -> hd < H -> i < t -> j < T ->
      s.[[b; hd; i; j]]
      = rsum h (fun d =>
          (q.[[b; hd; i; d]] * k.[[b; hd; j; d]]
           + q.[[b; hd; i; (d + h)%nat]] * k.[[b; hd; j; (d + h)%nat]])
          * cos (ta.[[b; i; d]] - tb.[[b; j; d]])
          + (q.[[b; hd; i; d]] * k.[[b; hd; j; (d + h)%nat]]
             - q.[[b; hd; i; (d + h)%nat]] * k.[[b; hd; j; d]])
            * sin (ta.[[b; i; d]] - tb.[[b; j; d]]))%R.
Proof.
  intros Hq Hk Hta Htb.
  destruct (apply_rotary_embedding_spec q (tmap sin ta) (tmap cos ta) B H t h)
    as (yq & Hyq & Hyqs & Hyqd); [assumption .. |].
  destruct (apply_rotary_embedding_spec k (tmap sin tb) (tmap cos tb) B H T h)
    as (yk & Hyk & Hyks & Hykd); [assumption .. |].
  exists yq, yk. unfold einsum_bhtd_bhTd_bhtT. rewrite Hyqs, Hyks.
  rewrite !Nat.eqb_refl. cbn [andb].
  eexists. split; [exact Hyq |]. split; [exact Hyk |]. split; [reflexivity |].
  split; [reflexivity |].
  intros b hd i j Hb Hhd Hi Hj. cbn [data nth]. rewrite rsum_pairs.
  apply rsum_ext. intros d Hd.
  rewrite (Hyqd b hd i d), (Hyqd b hd i (d + h)) by lia.
  rewrite (Hykd b hd j d), (Hykd b hd j (d + h)) by lia.
  rewrite !rotated_lo by exact Hd. rewrite !rotated_hi. cbn [tmap data].
  apply rotated_pair_dot.
Qed.

(** X4.  The scores of rotated queries against rotated keys depend on the
    angles through their differences only: two pairs of angle tables with
    the same differences between a query position and a key position give
    the same scores. *)
Theorem rotary_scores_relative (q k ta tb ta' tb' : tensor R) (B H t T h : nat) :
  shape q = [B; H; t; 2 * h] -> shape k = [B; H; T; 2 * h] ->
  shape ta = [B; t; h] -> shape tb = [B; T; h] ->
  shape ta' = [B; t; h] -> shape tb' = [B; T; h] ->
  (forall b i j d, b < B -> i < t -> j < T -> d < h ->
     (ta'.[[b; i; d]] - tb'.[[b; j; d]] = ta.[[b; i; d]] - tb.[[b; j; d]])%R) ->
  exists yq yk s yq' yk' s',
    apply_rotary_embedding q (tmap sin ta) (tmap cos ta) = Ok yq /\
    apply_rotary_embedding k (tmap sin tb) (tmap cos tb) = Ok yk /\
    einsum_bhtd_bhTd_bhtT yq yk = Ok s /\
    apply_rotary_embedding q (tmap sin ta') (tmap cos ta') = Ok yq' /\
    apply_rotary_embedding k (tmap sin tb') (tmap cos tb') = Ok yk' /\
    einsum_bhtd_bhTd_bhtT yq' yk' = Ok s' /\
    teq s' s.
Proof.
  intros Hq Hk Hta Htb Hta' Htb' Hdiff.
  destruct (rotary_score q k ta tb B H t T h)
    as (yq & yk & s & Hyq & Hyk & Hs & Hss & Hsd); [assumption .. |].
  destruct (rotary_score q k ta' tb' B H t T h)
    as (yq' & yk' & s' & Hyq' & Hyk' & Hs' & Hss' & Hsd'); [assumption .. |].
  exists yq, yk, s, yq', yk', s'. repeat (split; [assumption |]).
  split; [congruence |].
  intros i Hi. rewrite Hss' in Hi. in_range_inv Hi.
  rewrite Hsd, Hsd' by assumption.
  apply rsum_ext. intros d Hd. rewrite (Hdiff n n1 n2 d) by assumption. reflexivity.
Qed.

Lemma rotary_scores_relative_witness :
  exists yq yk s yq' yk' s',
    apply_rotary_embedding (ones [1; 1; 2; 2 * 1]) (tmap sin (full [1; 2; 1] 1%R))
                           (tmap cos (full [1; 2; 1] 1%R)) = Ok yq /\
    apply_rotary_embedding (ones [1; 1; 2; 2 * 1]) (tmap sin (full [1; 2; 1] 1%R))
                           (tmap cos (full [1; 2; 1] 1%R)) = Ok yk /\
    einsum_bhtd_bhTd_bhtT yq yk = Ok s /\
    apply_rotary_embedding (ones [1; 1; 2; 2 * 1]) (tmap sin (full [1; 2; 1] 5%R))
                           (tmap cos (full [1; 2; 1] 5%R)) = Ok yq' /\
    apply_rotary_embedding (ones [1; 1; 2; 2 * 1]) (tmap sin (full [1; 2; 1] 5%R))
                           (tmap cos (full [1; 2; 1] 5%R)) = Ok yk' /\
    einsum_bhtd_bhTd_bhtT yq' yk' = Ok s' /\
    teq s' s.
Proof.
  apply (rotary_scores_relative _ _ _ _ _ _ 1 1 2 2 1); try reflexivity.
  intros b i j d _ _ _ _. cbn [full data]. lra.
Defined.

(** X5.  Position 0 is not rotated: the first row of the sine table is 0 and
    that of the cosine table is 1, for every timescale, and with angles that
    are all 0 the rotation returns its argument. *)
Theorem rotary_position_zero (features length : nat) (lo hi : R)
    (x theta : tensor R) (B H T h : nat) :
  0 < length ->
  shape x = [B; H; T; 2 * h] -> shape theta = [B; T; h] ->
  (forall b t d, b < B -> t < T -> d < h -> theta.[[b; t; d]] = 0%R) ->
  (forall j, j < (features + 1) / 2 ->
     (fst (_generate_fixed_pos_embedding features length lo hi)).[[0; j]] = 0%R /\
     (snd (_generate_fixed_pos_embedding features length lo hi)).[[0; j]] = 1%R) /\
  exists y,
    apply_rotary_embedding x (tmap sin theta) (tmap cos theta) = Ok y /\ teq y x.
Proof.
  intros Hlen Hx Htheta Hzero. split.
  - intros j Hj.
    destruct (generate_fixed_pos_embedding_spec features length lo hi)
      as (_ & _ & _ & _ & Htab).
    destruct (Htab 0 j Hlen Hj) as [Hsin Hcos]. rewrite Hsin, Hcos.
    cbn [INR]. rewrite Rmult_0_l. split; [apply sin_0 | apply cos_0].
  - destruct (apply_rotary_embedding_spec x (tmap sin theta) (tmap cos theta) B H T h)
      as (y & Hy & Hys & Hyd); [assumption .. |].
    exists y. split; [exact Hy |]. split; [congruence |].
    intros i Hi. rewrite Hys in Hi. in_range_inv Hi.
    rewrite Hyd by assumption. unfold rotated. cbn [tmap data].
    destruct (Nat.ltb_spec n2 h).
    + rewrite Hzero by assumption. rewrite sin_0, cos_0. ring.
    + rewrite Hzero by (assumption || lia). rewrite sin_0, cos_0. ring.
Qed.

Lemma rotary_position_zero_witness :
  (fst (_generate_fixed_pos_embedding 4 8 1 10000)).[[0; 1]] = 0%R /\
  exists y,
    apply_rotary_embedding (ones [1; 2; 3; 2 * 2]) (tmap sin (full [1; 3; 2] 0%R))
                           (tmap cos (full [1; 3; 2] 0%R)) = Ok y /\
    teq y (ones [1; 2; 3; 2 * 2]).
Proof.
  destruct (rotary_position_zero 4 8 1 10000 (ones [1; 2; 3; 2 * 2]) (full [1; 3; 2] 0%R)
              1 2 3 2) as [Htab Hrot];
    [lia | reflexivity | reflexivity | intros; reflexivity |].
  split; [apply (Htab 1); cbn; lia | exact Hrot].
Defined.

(** ** Dynamic slices stay inside their array *)

Lemma slice_start_bounds (n size : nat) (index : Z) :
  size <= n -> slice_start n size index + size <= n.
Proof.
  intros Hle. unfold slice_start, clamp.
  destruct (Z.ltb_spec index 0); lia.
Qed.

Lemma slice_start_overflow (n size : nat) (index : Z) :
  size <= n -> (Z.of_nat n < index + Z.of_nat size)%Z -> (0 <= index)%Z ->
  slice_start n size index = n - size.
Proof.
  intros Hle Hover Hpos. unfold slice_start, clamp.
  destruct (Z.ltb_spec index 0); lia.
Qed.

(** X6.  [slices_at] gives every batch row a window of [length] rows of the
    table.  The window always lies inside the table; it starts at the index
    of the row when that leaves room for it, and at the last start that
    does when the index is too large. *)
Theorem slices_at_windows (table : tensor R) (indices : tensor Z) (L h B length : nat) :
  shape table = [L; h] -> shape indices = [B] -> length <= L ->
  exists out,
    slices_at table indices length = Ok out /\
    shape out = [B; length; h] /\
    forall b i j, b < B -> i < length ->
      let start := slice_start L length indices.[[b]] in
      out.[[b; i; j]] = table.[[i + start; j]] /\
      i + start < L /\
      ((0 <= indices.[[b]])%Z -> (indices.[[b]] + Z.of_nat length <= Z.of_nat L)%Z ->
       start = Z.to_nat indices.[[b]]) /\
      ((0 <= indices.[[b]])%Z -> (Z.of_nat L < indices.[[b]] + Z.of_nat length)%Z ->
       start = L - length).
Proof.
  intros Htable Hind Hle.
  unfold slices_at, vmap, slice_at, dynamic_slice_in_dim, row.
  rewrite Hind, Htable. cbn [nth shape data tail].
  destruct (Nat.ltb_spec L length) as [| _]; [lia |]. cbn [bind shape].
  eexists. split; [reflexivity |]. split; [reflexivity |].
  intros b i j Hb Hi. cbv zeta. cbn [data nth tail].
  split; [reflexivity |].
  pose proof (slice_start_bounds L length indices.[[b]] Hle) as Hbound.
  split; [lia |]. split.
  - intros Hlo Hhi. apply slice_start_in_range; assumption.
  - intros Hlo Hhi. apply slice_start_overflow; assumption.
Qed.

Lemma slices_at_windows_witness :
  exists out,
    slices_at (ones [4; 1]) (of_list 0%Z [0%Z; 3%Z]) 2 = Ok out /\
    shape out = [2; 2; 1] /\
    slice_start 4 2 3 = 4 - 2.
Proof.
  destruct (slices_at_windows (ones [4; 1]) (of_list 0%Z [0%Z; 3%Z]) 4 1 2 2)
    as (out & Hout & Hshape & Hdata); [reflexivity | reflexivity | lia |].
  exists out. split; [exact Hout |]. split; [exact Hshape |].
  destruct (Hdata 1 0 0) as (_ & _ & _ & Hover); [lia | lia |].
  apply Hover; cbn; lia.
Defined.

(** ** Chunks that do not fit *)

Section Bounds.

Variable flash_attention :
  tensor R -> tensor R -> tensor R -> tensor Z -> tensor Z -> bool -> R -> result (tensor R).

Lemma rotary_table_rows (features length : nat) (lo hi : R) :
  shape (fst (_generate_fixed_pos_embedding features length lo hi)) @ 0 = length.
Proof.
  destruct (generate_fixed_pos_embedding_spec features length lo hi) as (Hs & _).
  rewrite Hs. reflexivity.
Qed.

Lemma slices_at_too_long {A : Type} (table : tensor A) (indices : tensor Z) (length : nat) :
  shape table @ 0 < length -> exists e, slices_at table indices length = Raise e.
Proof.
  intros Hlong. unfold slices_at, vmap, slice_at, dynamic_slice_in_dim.
  destruct (shape indices) as [| n s]; [eexists; reflexivity |].
  apply Nat.ltb_lt in Hlong. rewrite Hlong. cbn [bind]. eexists. reflexivity.
Qed.

Lemma forward_too_long_spec (x segment_ids : tensor Z) (weights : Weights.t)
    (cfg : Config) (s : store) (B T : nat) :
  shape x = [B; T] -> max_seq_len cfg < T ->
  exists e, forward flash_attention x segment_ids weights cfg s = (Raise e, s).
Proof.
  intros Hx Hlong. unfold forward, bindM, lift, get, ret.
  unfold take_rows, ndim. rewrite Hx. cbn [shape length app nth Nat.leb check].
  destruct (_generate_fixed_pos_embedding (key_dim cfg) (max_seq_len cfg)
              default_min_timescale default_max_timescale) as [sin cos] eqn:Htab.
  assert (Hrows : shape sin @ 0 = max_seq_len cfg).
  { pose proof (rotary_table_rows (key_dim cfg) (max_seq_len cfg)
                  default_min_timescale default_max_timescale) as Hr.
    rewrite Htab in Hr. exact Hr. }
  match goal with
  | |- context [slices_at sin ?i T] =>
      destruct (slices_at_too_long sin i T) as [e He]; [lia |]; rewrite He
  end.
  exists e. reflexivity.
Qed.

(** X7.  A chunk with more positions than [max_seq_len] is refused: [forward]
    raises, with or without a cache, and leaves the cache object untouched. *)
Theorem forward_chunk_too_long (x segment_ids : tensor Z) (weights : Weights.t)
    (cfg : Config) (s : store) (B T : nat) :
  shape x = [B; T] -> max_seq_len cfg < T ->
  exists e, forward flash_attention x segment_ids weights cfg s = (Raise e, s).
Proof. exact (forward_too_long_spec x segment_ids weights cfg s B T). Qed.

(** X8.  When the chunk of a row does not fit behind the row's length, the
    write does not start at the length: the chunk is moved to the end of the
    buffer, so its token [t] lands on position [Tmax - T + t], before the
    length, where it replaces what the cache held. *)
Theorem cache_update_overflow (k v : tensor R) (segment_ids : tensor Z) (idx : nat)
    (cache : KVCache.t) (cache_k cache_v : tensor R) (B Hk T Tmax D b : nat) :
  KVCache.k cache !! idx = Some cache_k -> KVCache.v cache !! idx = Some cache_v ->
  shape k = [B; Hk; T; D] -> shape v = [B; Hk; T; D] -> shape segment_ids = [B; T] ->
  shape cache_k = [B; Hk; Tmax; D] -> shape cache_v = [B; Hk; Tmax; D] ->
  shape (KVCache.lengths cache) = [B] ->
  T <= Tmax -> b < B ->
  (0 <= (KVCache.lengths cache).[[b]])%Z ->
  (Z.of_nat Tmax < (KVCache.lengths cache).[[b]] + Z.of_nat T)%Z ->
  ((KVCache.lengths cache).[[b]] + Z.of_nat T <= int32_max)%Z ->
  exists k' v' k_segment_ids,
    cache_update k v segment_ids idx cache
    = Ok (k', v', nonzero segment_ids, k_segment_ids, KVCache.lengths cache) /\
    (Z.of_nat (Tmax - T) < (KVCache.lengths cache).[[b]])%Z /\
    forall h t d, h < Hk -> t < T -> d < D ->
      (Z.of_nat (Tmax - T + t)
       < (KVCache.lengths cache).[[b]] + valid_tokens segment_ids b)%Z ->
      k'.[[b; h; Tmax - T + t; d]] = k.[[b; h; t; d]] /\
      v'.[[b; h; Tmax - T + t; d]] = v.[[b; h; t; d]].
Proof.
  intros Hck Hcv Hks Hvs Hss Hcks Hcvs Hls HT Hb Hlo Hover Hmax.
  destruct (cache_update_spec k v segment_ids idx cache cache_k cache_v B Hk T Tmax D)
    as (k' & v' & ks & Hrun & _ & _ & _ & Hmasks & Hdata); [assumption .. |].
  exists k', v', ks. split; [exact Hrun |]. split; [lia |].
  intros h t d Hh Ht Hd Hvalid.
  destruct (Hdata b h (Tmax - T + t) d) as [Hkd Hvd]; [lia .. |].
  cbv zeta in Hkd, Hvd.
  rewrite (Hmasks b (Tmax - T + t)) in Hkd, Hvd by lia. cbv zeta in Hkd, Hvd.
  assert (HTmax : (Z.of_nat T <= int32_max)%Z) by lia.
  pose proof (valid_tokens_bounds segment_ids B T b Hss HTmax) as Hcnt.
  rewrite add32_small in Hkd, Hvd by (unfold int32_min, int32_max in *; lia).
  rewrite slice_start_overflow in Hkd, Hvd by assumption.
  destruct (Z.ltb_spec (Z.of_nat (Tmax - T + t))
              ((KVCache.lengths cache).[[b]] + valid_tokens segment_ids b));
    [| lia].
  destruct (Nat.leb_spec (Tmax - T) (Tmax - T + t)); [| lia].
  destruct (Nat.ltb_spec (Tmax - T + t - (Tmax - T)) T); [| lia].
  cbn [andb] in Hkd, Hvd.
  replace (Tmax - T + t - (Tmax - T)) with t in Hkd, Hvd by lia.
  rewrite Hkd, Hvd. split; apply Rmult_1_r.
Qed.

Lemma sample_from_prompt_errors (categorical : Z -> tensor R -> result (tensor Z))
    (tokens : tensor Z) (weights : Weights.t) (cache : KVCache.t) (cfg : Config)
    (batch_idx num_steps : nat) (greedy : bool) (len : nat) :
  shape tokens = [len] ->
  let run := sample_from_prompt flash_attention categorical tokens weights cache cfg
                                batch_idx num_steps greedy in
  (max_seq_len cfg < len -> run = Raise AssertionError) /\
  (len = 0 -> run = Raise (ValueError "math domain error")) /\
  (max_seq_len cfg < 2 ^ Nat.log2_up len -> exists e, run = Raise e).
Proof.
  intros Hshape run. subst run. unfold sample_from_prompt, ingest_prompt, prepare_prompt.
  rewrite Hshape. cbn [nth]. split; [| split].
  - intros Hlong. destruct (Nat.leb_spec len (max_seq_len cfg)); [lia |]. reflexivity.
  - intros ->. cbn [Nat.leb assert bind Nat.eqb negb check]. reflexivity.
  - intros Hpad.
    destruct (Nat.leb_spec len (max_seq_len cfg)); [| eexists; reflexivity].
    cbn [assert bind].
    destruct (Nat.eqb_spec len 0); [eexists; reflexivity |]. cbn [negb check bind].
    destruct (prepare_chunk_spec tokens len (2 ^ Nat.log2_up len) 0 Hshape
                (pow2_log2_up_ge len)) as (prompt & seg & Hprep & Hps & _).
    rewrite Hprep. cbn [bind].
    destruct (dynamic_update_slice_in_dim _ _ _ _) as [l0 | e]; [| eexists; reflexivity].
    cbn [bind]. eexists. reflexivity.
Qed.

(** X9.  [sample_from_prompt] refuses a prompt longer than [max_seq_len]
    with an assertion error and an empty prompt with a value error; it also
    raises for a prompt within [max_seq_len] whose padding to the next power
    of two is longer than [max_seq_len]. *)
Theorem sample_from_prompt_refuses (categorical : Z -> tensor R -> result (tensor Z))
    (tokens : tensor Z) (weights : Weights.t) (cache : KVCache.t) (cfg : Config)
    (batch_idx num_steps : nat) (greedy : bool) (len : nat) :
  shape tokens = [len] ->
  let run := sample_from_prompt flash_attention categorical tokens weights cache cfg
                                batch_idx num_steps greedy in
  (max_seq_len cfg < len -> run = Raise AssertionError) /\
  (len = 0 -> run = Raise (ValueError "math domain error")) /\
  (max_seq_len cfg < 2 ^ Nat.log2_up len -> exists e, run = Raise e).
Proof.
  exact (sample_from_prompt_errors categorical tokens weights cache cfg batch_idx
           num_steps greedy len).
Qed.

End Bounds.

Lemma forward_chunk_too_long_witness :
  exists e,
    forward no_flash_attention (full [1; 5] 1%Z) (full [1; 5] 1%Z) reference_weights
            reference_cfg (Some reference_cache) = (Raise e, Some reference_cache).
Proof.
  apply (forward_chunk_too_long no_flash_attention _ _ _ _ _ 1 5); [reflexivity |].
  cbn. lia.
Defined.

Lemma cache_update_overflow_witness :
  exists k' v' k_segment_ids,
    cache_update (full [1; 1; 2; 2] 5%R) (full [1; 1; 2; 2] 5%R) reference_chunk 0
                 full_cache
    = Ok (k', v', nonzero reference_chunk, k_segment_ids, KVCache.lengths full_cache) /\
    k'.[[0; 0; 2; 0]] = 5%R.
Proof.
  destruct (cache_update_overflow (full [1; 1; 2; 2] 5%R) (full [1; 1; 2; 2] 5%R)
              reference_chunk 0 full_cache (ones [1; 1; 4; 2]) (ones [1; 1; 4; 2])
              1 1 2 4 2 0)
    as (k' & v' & ks & Hrun & _ & Hdata);
    [reflexivity | reflexivity | reflexivity | reflexivity | reflexivity | reflexivity
    | reflexivity | reflexivity | lia | lia | cbn; lia | cbn; lia
    | unfold int32_max; cbn; lia |].
  exists k', v', ks. split; [exact Hrun |].
  destruct (Hdata 0 0 0) as [Hk0 _]; [lia | lia | lia | vm_compute; reflexivity |].
  exact Hk0.
Defined.

Lemma sample_from_prompt_refuses_witness :
  sample_from_prompt no_flash_attention constant_categorical
                     (of_list 0%Z [1%Z; 2%Z; 1%Z; 2%Z; 1%Z]) reference_weights
                     reference_cache reference_cfg 0 2 true
  = Raise AssertionError.
Proof.
  destruct (sample_from_prompt_refuses no_flash_attention constant_categorical
              (of_list 0%Z [1%Z; 2%Z; 1%Z; 2%Z; 1%Z]) reference_weights reference_cache
              reference_cfg 0 2 true 5) as [Hlong _]; [reflexivity |].
  apply Hlong. cbn. lia.
Defined.

(** ** The compiled call *)

Section Compiled.

Variable flash_attention :
  tensor R -> tensor R -> tensor R -> tensor Z -> tensor Z -> bool -> R -> result (tensor R).
Variable categorical : Z -> tensor R -> result (tensor Z).

(** X10.  [sample_from_prompt] never returns.  Whatever the prompt, the
    weights, the cache, the configuration and the number of steps, it raises:
    at the latest at its first call of [jax.jit(forward, static_argnames="cfg")],
    whose static argument, a [Config], is not hashable. *)
Theorem sample_from_prompt_never_returns (tokens : tensor Z) (weights : Weights.t)
    (cache : KVCache.t) (cfg : Config) (batch_idx num_steps : nat) (greedy : bool) :
  exists e,
    sample_from_prompt flash_attention categorical tokens weights cache cfg
                       batch_idx num_steps greedy = Raise e.
Proof.
  unfold sample_from_prompt, ingest_prompt.
  destruct (prepare_prompt tokens cache cfg batch_idx) as [[[prompt seg] c0] | e];
    [| eexists; reflexivity].
  cbn [bind]. unfold jit_forward, Config_hashable. cbn [check bind].
  eexists. reflexivity.
Qed.

End Compiled.

(** ** The schedule outside the training run *)

Section ScheduleRange.

Local Open Scope R_scope.

Variables (total_steps warmup_steps : Z) (max_lr min_lr : R).

Lemma decay_value_bounds (p : R) :
  min_lr <= max_lr ->
  min_lr <= min_lr + 0.5 * (max_lr - min_lr) * (1 + cos (PI * p)) <= max_lr.
Proof.
  intros Hmm. pose proof (COS_bound (PI * p)) as [Hlo Hhi].
  assert (H1 : 0 <= 0.5 * (max_lr - min_lr) * (1 + cos (PI * p)))
    by (apply Rmult_le_pos; lra).
  assert (H2 : 0.5 * (max_lr - min_lr) * (1 + cos (PI * p))
               <= 0.5 * (max_lr - min_lr) * 2)
    by (apply Rmult_le_compat_l; lra).
  lra.
Qed.

(** X12.  At every step from 0 on, also after [total_steps], the learning
    rate lies between 0 and [max_lr]; from [warmup_steps] on it is not below
    [min_lr]. *)
Theorem lr_within_bounds (step : Z) :
  (0 < warmup_steps < total_steps)%Z -> 0 <= min_lr <= max_lr -> (0 <= step)%Z ->
  0 <= get_lr_with_cosine_decay_and_warmup step total_steps max_lr min_lr warmup_steps
    <= max_lr /\
  ((warmup_steps <= step)%Z ->
   min_lr <= get_lr_with_cosine_decay_and_warmup step total_steps max_lr min_lr
                                                 warmup_steps).
Proof.
  intros [Hw Hwt] [Hmin Hmm] Hstep.
  unfold get_lr_with_cosine_decay_and_warmup.
  destruct (Z.ltb_spec step warmup_steps) as [Hlt | Hge].
  - split; [| lia].
    assert (Hd : 0 < IZR warmup_steps) by (apply IZR_lt; lia).
    assert (Hs : 0 <= IZR step) by (apply IZR_le; lia).
    assert (Hle : IZR step <= IZR warmup_steps) by (apply IZR_le; lia).
    assert (Hq0 : 0 <= IZR step / IZR warmup_steps)
      by (apply Rmult_le_pos; [exact Hs | left; apply Rinv_0_lt_compat; exact Hd]).
    assert (Hq1 : IZR step / IZR warmup_steps <= 1).
    { apply (Rmult_le_reg_r (IZR warmup_steps)); [exact Hd |].
      unfold Rdiv. rewrite Rmult_assoc, Rinv_l by lra. lra. }
    split; [apply Rmult_le_pos; lra |].
    rewrite <- (Rmult_1_r max_lr) at 2. apply Rmult_le_compat_l; lra.
  - pose proof (decay_value_bounds
                  (IZR (step - warmup_steps) / IZR (total_steps - warmup_steps)) Hmm)
      as [Hlo Hhi].
    split; [split; lra | intros _; exact Hlo].
Qed.

(** X13.  The schedule is not held at [min_lr] after [total_steps]: the
    cosine goes on, so the rate [k] steps after [total_steps] is the rate [k]
    steps before it, and at step [2 * total_steps - warmup_steps] the rate is
    [max_lr] again. *)
Theorem lr_after_total_steps (k : Z) :
  (warmup_steps < total_steps)%Z -> (0 <= k <= total_steps - warmup_steps)%Z ->
  get_lr_with_cosine_decay_and_warmup (total_steps + k) total_steps max_lr min_lr
                                      warmup_steps
  = get_lr_with_cosine_decay_and_warmup (total_steps - k) total_steps max_lr min_lr
                                        warmup_steps /\
  get_lr_with_cosine_decay_and_warmup (2 * total_steps - warmup_steps) total_steps
                                      max_lr min_lr warmup_steps
  = max_lr.
Proof.
  intros Hwt [Hk0 Hk1].
  assert (Hd : 0 < IZR (total_steps - warmup_steps)) by (apply IZR_lt; lia).
  unfold get_lr_with_cosine_decay_and_warmup.
  destruct (Z.ltb_spec (total_steps + k) warmup_steps); [lia |].
  destruct (Z.ltb_spec (total_steps - k) warmup_steps); [lia |].
  destruct (Z.ltb_spec (2 * total_steps - warmup_steps) warmup_steps); [lia |].
  set (q := IZR k / IZR (total_steps - warmup_steps)).
  assert (Hplus : IZR (total_steps + k - warmup_steps) / IZR (total_steps - warmup_steps)
                  = 1 + q).
  { replace (total_steps + k - warmup_steps)%Z
      with ((total_steps - warmup_steps) + k)%Z by lia.
    rewrite plus_IZR. unfold q. field. lra. }
  assert (Hminus : IZR (total_steps - k - warmup_steps)
                   / IZR (total_steps - warmup_steps) = 1 - q).
  { replace (total_steps - k - warmup_steps)%Z
      with ((total_steps - warmup_steps) - k)%Z by lia.
    rewrite minus_IZR. unfold q. field. lra. }
  assert (Htwo : IZR (2 * total_steps - warmup_steps - warmup_steps)
                 / IZR (total_steps - warmup_steps) = 2).
  { replace (2 * total_steps - warmup_steps - warmup_steps)%Z
      with (2 * (total_steps - warmup_steps))%Z by lia.
    rewrite mult_IZR. field. lra. }
  rewrite Hplus, Hminus, Htwo. split.
  - replace (PI * (1 + q)) with (PI + PI * q) by ring.
    replace (PI * (1 - q)) with (PI - PI * q) by ring.
    rewrite cos_plus, cos_minus, cos_PI, sin_PI. ring.
  - replace (PI * 2) with (2 * PI) by ring. rewrite cos_2PI. lra.
Qed.

End ScheduleRange.

Lemma lr_within_bounds_witness :
  (0 <= get_lr_with_cosine_decay_and_warmup 25 20 1 0 10 <= 1)%R.
Proof.
  destruct (lr_within_bounds 20 10 1 0 25) as [H _]; [lia | lra | lia |].
  exact H.
Defined.

Lemma lr_after_total_steps_witness :
  get_lr_with_cosine_decay_and_warmup 30 20 1 0 10 = 1%R.
Proof.
  destruct (lr_after_total_steps 20 10 1 0 10) as [_ H]; [lia | lia |].
  exact H.
Defined.

(** ** RMS normalization *)

Lemma rms_norm_spec (x gamma : tensor R) (B T D : nat) :
  shape x = [B; T; D] -> shape gamma = [D] ->
  exists out,
    rms_norm x gamma = Ok out /\ shape out = [B; T; D] /\
    forall b t d, b < B -> t < T -> d < D ->
      out.[[b; t; d]]
      = (gamma.[[d]] * x.[[b; t; d]]
         / sqrt (rsum D (fun j => x.[[b; t; j]] ^ 2) / INR D + 1e-6))%R.
Proof.
  intros Hx Hg. destruct x as [sx dx], gamma as [sg dg]. cbn [shape] in *. subst.
  unfold rms_norm, mean_last_keepdims, tmap. cbn [shape data List.last removelast app].
  bcast. cbn [bind]. bcast.
  eexists. split; [reflexivity |]. split; [reflexivity |].
  intros b t d Hb Ht Hd. tidx. reflexivity.
Qed.

Lemma mean_square_pos (D : nat) (f : nat -> R) :
  0 < D -> (0 < rsum D (fun j => f j ^ 2) / INR D + 1e-6)%R.
Proof.
  intros HD.
  assert (0 <= rsum D (fun j => f j ^ 2))%R
    by (apply rsum_nonneg; intros; apply pow2_ge_0).
  assert (0 < INR D)%R by (apply lt_0_INR; exact HD).
  assert (0 <= rsum D (fun j => f j ^ 2) / INR D)%R
    by (apply Rmult_le_pos; [assumption | left; apply Rinv_0_lt_compat; assumption]).
  lra.
Qed.

(** X14.  Whatever the size of the input, the output of [rms_norm] is
    bounded by the gain: the square of every element is at most the square of
    its gain times the number of features; and with a gain of 1 everywhere
    the mean of the squares of every output vector is below 1. *)
Theorem rms_norm_bounded (x gamma : tensor R) (B T D : nat) :
  shape x = [B; T; D] -> shape gamma = [D] -> 0 < D ->
  exists out,
    rms_norm x gamma = Ok out /\ shape out = [B; T; D] /\
    (forall b t d, b < B -> t < T -> d < D ->
       (out.[[b; t; d]] ^ 2 <= gamma.[[d]] ^ 2 * INR D)%R) /\
    ((forall d, d < D -> gamma.[[d]] = 1%R) ->
     forall b t, b < B -> t < T ->
       (rsum D (fun d => out.[[b; t; d]] ^ 2) / INR D < 1)%R).
Proof.
  intros Hx Hg HD.
  destruct (rms_norm_spec x gamma B T D Hx Hg) as (out & Hrun & Hshape & Hdata).
  exists out. split; [exact Hrun |]. split; [exact Hshape |].
  assert (HnD : (0 < INR D)%R) by (apply lt_0_INR; exact HD).
  split.
  - intros b t d Hb Ht Hd. rewrite (Hdata b t d Hb Ht Hd).
    pose proof (mean_square_pos D (fun j => x.[[b; t; j]]) HD) as Hpos.
    cbv beta in Hpos.
    set (S := rsum D (fun j => (x.[[b; t; j]] ^ 2)%R)) in *.
    assert (Hterm : (x.[[b; t; d]] ^ 2 <= S)%R).
    { unfold S. apply (rsum_term_le D (fun j => x.[[b; t; j]] ^ 2)%R d Hd).
      intros. apply pow2_ge_0. }
    set (m := (S / INR D + 1e-6)%R) in *.
    assert (Hsq : (sqrt m ^ 2 = m)%R).
    { replace (sqrt m ^ 2)%R with (sqrt m * sqrt m)%R by ring.
      apply sqrt_sqrt. lra. }
    assert (Hsp : (0 < sqrt m)%R) by (apply sqrt_lt_R0; exact Hpos).
    assert (Heq : ((gamma.[[d]] * x.[[b; t; d]] / sqrt m) ^ 2
                   = gamma.[[d]] ^ 2 * (x.[[b; t; d]] ^ 2 / sqrt m ^ 2))%R)
      by (field; lra).
    rewrite Heq, Hsq.
    apply Rmult_le_compat_l; [apply pow2_ge_0 |].
    apply (Rmult_le_reg_r m); [exact Hpos |].
    unfold Rdiv at 1. rewrite Rmult_assoc, Rinv_l, Rmult_1_r by lra.
    assert (Hm : (INR D * m = S + INR D * 1e-6)%R) by (unfold m; field; lra).
    rewrite Hm. nra.
  - intros Hgain b t Hb Ht.
    pose proof (mean_square_pos D (fun j => x.[[b; t; j]]) HD) as Hpos.
    cbv beta in Hpos.
    set (S := rsum D (fun j => (x.[[b; t; j]] ^ 2)%R)) in *.
    set (m := (S / INR D + 1e-6)%R) in *.
    assert (Hsq : (sqrt m ^ 2 = m)%R).
    { replace (sqrt m ^ 2)%R with (sqrt m * sqrt m)%R by ring.
      apply sqrt_sqrt. lra. }
    assert (Hsp : (0 < sqrt m)%R) by (apply sqrt_lt_R0; exact Hpos).
    assert (Hsum : rsum D (fun d => (out.[[b; t; d]] ^ 2)%R) = (S * / m)%R).
    { unfold S. rewrite <- rsum_scal_r. apply rsum_ext. intros d Hd.
      rewrite (Hdata b t d Hb Ht Hd), (Hgain d Hd). fold S. fold m.
      transitivity (x.[[b; t; d]] ^ 2 * / sqrt m ^ 2)%R; [field; lra |].
      rewrite Hsq. reflexivity. }
    rewrite Hsum.
    assert (HS : (0 <= S)%R) by (apply rsum_nonneg; intros; apply pow2_ge_0).
    apply (Rmult_lt_reg_r (INR D * m)); [apply Rmult_lt_0_compat; lra |].
    replace (S * / m / INR D * (INR D * m))%R with S by (field; lra).
    assert (Hm : (INR D * m = S + INR D * 1e-6)%R) by (unfold m; field; lra).
    rewrite Rmult_1_l, Hm. nra.
Qed.

Lemma rms_norm_bounded_witness :
  exists out,
    rms_norm (full [1; 2; 2] 1000%R) (ones [2]) = Ok out /\
    Rle (out.[[0; 0; 0]] ^ 2) (1 ^ 2 * INR 2).
Proof.
  destruct (rms_norm_bounded (full [1; 2; 2] 1000%R) (ones [2]) 1 2 2)
    as (out & Hrun & _ & Hbound & _); [reflexivity | reflexivity | lia |].
  exists out. split; [exact Hrun |].
  exact (Hbound 0 0 0 ltac:(lia) ltac:(lia) ltac:(lia)).
Defined.

(** ** The optimizer *)

Lemma bshape_rev_refl (s : list nat) : bshape_rev s s = Some s.
Proof.
  induction s as [| d s IH]; [reflexivity |].
  cbn [bshape_rev]. rewrite bdim_refl, IH. reflexivity.
Qed.

Lemma broadcast_shapes_refl (s : list nat) : broadcast_shapes s s = Some s.
Proof.
  unfold broadcast_shapes. rewrite bshape_rev_refl, rev_involutive. reflexivity.
Qed.

Lemma in_range_rev (i s : list nat) : in_range i s -> in_range (rev i) (rev s).
Proof.
  unfold in_range. induction 1 as [| n d i s Hn Hr IH]; [constructor |].
  cbn [rev]. apply Forall2_app; [exact IH |]. constructor; [exact Hn | constructor].
Qed.

Lemma bidx_rev_in_range (i s : list nat) : in_range i s -> bidx_rev s i = i.
Proof.
  unfold in_range. induction 1 as [| n d i s Hn Hr IH]; [reflexivity |].
  cbn [bidx_rev]. rewrite IH, (bsel d n Hn). reflexivity.
Qed.

Lemma bidx_in_range (i s : list nat) : in_range i s -> bidx s i = i.
Proof.
  intros Hi. unfold bidx. rewrite bidx_rev_in_range by (apply in_range_rev; exact Hi).
  apply rev_involutive.
Qed.

(** An operation on two arrays of the same shape is made element by element. *)
Lemma broadcast2_same_shape {A B C : Type} (f : A -> B -> C) (x : tensor A)
    (y : tensor B) (s : list nat) :
  shape x = s -> shape y = s ->
  exists r, broadcast2 f x y = Ok r /\ shape r = s /\
            forall i, in_range i s -> r.[i] = f x.[i] y.[i].
Proof.
  intros Hx Hy. unfold broadcast2. rewrite Hx, Hy, broadcast_shapes_refl.
  eexists. split; [reflexivity |]. split; [reflexivity |].
  intros i Hi. cbn [data]. rewrite (bidx_in_range i s Hi). reflexivity.
Qed.

Lemma adam_update_spec (param grad m v : tensor R) (lr : R) (t : Z)
    (beta1 beta2 eps : R) (s : list nat) :
  shape param = s -> shape grad = s -> shape m = s -> shape v = s ->
  exists param' m' v',
    adam_update param grad m v lr t beta1 beta2 eps = Ok (param', m', v') /\
    shape param' = s /\ shape m' = s /\ shape v' = s /\
    forall i, in_range i s ->
      m'.[i] = (beta1 * m.[i] + (1 - beta1) * grad.[i])%R /\
      v'.[i] = (beta2 * v.[i] + (1 - beta2) * grad.[i] ^ 2)%R /\
      param'.[i]
      = (param.[i]
         - lr * (m'.[i] / (1 - powerRZ beta1 (t + 1)))
           / (sqrt (v'.[i] / (1 - powerRZ beta2 (t + 1))) + eps))%R.
Proof.
  intros Hp Hg Hm Hv. unfold adam_update.
  destruct (broadcast2_same_shape Rplus (tmap (Rmult beta1) m)
              (tmap (Rmult (1 - beta1)) grad) s Hm Hg) as (m' & -> & Hm's & Hm').
  cbn [bind].
  destruct (broadcast2_same_shape Rplus (tmap (Rmult beta2) v)
              (tmap (Rmult (1 - beta2)) (tmap (fun g => (g ^ 2)%R) grad)) s Hv Hg)
    as (v' & -> & Hv's & Hv').
  cbn [bind].
  destruct (broadcast2_same_shape Rdiv
              (tmap (Rmult lr) (tmap (fun a => (a / (1 - powerRZ beta1 (t + 1)))%R) m'))
              (tmap (fun a => (sqrt a + eps)%R)
                    (tmap (fun a => (a / (1 - powerRZ beta2 (t + 1)))%R) v'))
              s Hm's Hv's) as (u & -> & Hus & Hu).
  cbn [bind].
  destruct (broadcast2_same_shape Rminus param u s Hp Hus) as (p' & -> & Hp's & Hp').
  cbn [bind]. exists p', m', v'. split; [reflexivity |].
  split; [exact Hp's |]. split; [exact Hm's |]. split; [exact Hv's |].
  intros i Hi. specialize (Hm' i Hi). specialize (Hv' i Hi).
  cbn [tmap data] in Hm', Hv'.
  split; [exact Hm' |]. split; [exact Hv' |].
  rewrite (Hp' i Hi), (Hu i Hi). cbn [tmap data]. reflexivity.
Qed.

Lemma powerRZ_succ_lt_1 (beta : R) (t : Z) :
  (0 <= beta < 1)%R -> (0 <= t)%Z -> (0 < 1 - powerRZ beta (t + 1))%R.
Proof.
  intros [Hb0 Hb1] Ht.
  replace (t + 1)%Z with (Z.of_nat (S (Z.to_nat t))) by lia.
  rewrite <- pow_powerRZ.
  assert (Hpow : forall n, (0 <= beta ^ n <= 1)%R).
  { induction n as [| n [IH0 IH1]]; cbn [pow]; [lra |]. split; nra. }
  destruct (Hpow (Z.to_nat t)) as [H0 H1]. cbn [pow]. nra.
Qed.

(** The step of Adam from zero moments at [t = 0]. *)
Lemma first_step_update (g lr beta1 beta2 eps : R) :
  (0 <= beta1 < 1)%R -> (0 <= beta2 < 1)%R ->
  (lr * ((beta1 * 0 + (1 - beta1) * g) / (1 - powerRZ beta1 (0 + 1)))
   / (sqrt ((beta2 * 0 + (1 - beta2) * g ^ 2) / (1 - powerRZ beta2 (0 + 1))) + eps)
   = lr * g / (Rabs g + eps))%R.
Proof.
  intros Hb1 Hb2. change (0 + 1)%Z with 1%Z. rewrite !powerRZ_1.
  replace ((beta1 * 0 + (1 - beta1) * g) / (1 - beta1))%R with g by (field; lra).
  replace ((beta2 * 0 + (1 - beta2) * g ^ 2) / (1 - beta2))%R with (Rsqr g)
    by (unfold Rsqr; field; lra).
  rewrite sqrt_Rsqr_abs. reflexivity.
Qed.

(** X15.  The first step of Adam, from the moments of [init_adam_state] at
    [t = 0], moves every parameter against the sign of its gradient by
    [lr * |g| / (|g| + eps)], which is less than [lr] whatever the size of
    the gradient; a parameter whose gradient is 0 stays where it is. *)
Theorem adam_update_first_step (param grad : tensor R) (lr beta1 beta2 eps : R)
    (s : list nat) :
  shape param = s -> shape grad = s ->
  (0 < lr)%R -> (0 <= beta1 < 1)%R -> (0 <= beta2 < 1)%R -> (0 < eps)%R ->
  exists param' m' v',
    adam_update param grad (zeros_like param) (zeros_like param) lr 0 beta1 beta2 eps
    = Ok (param', m', v') /\
    shape param' = s /\
    forall i, in_range i s ->
      param'.[i] = (param.[i] - lr * grad.[i] / (Rabs grad.[i] + eps))%R /\
      (Rabs (param'.[i] - param.[i]) < lr)%R /\
      ((0 < grad.[i])%R -> (param'.[i] < param.[i])%R) /\
      ((grad.[i] < 0)%R -> (param.[i] < param'.[i])%R) /\
      (grad.[i] = 0%R -> param'.[i] = param.[i]).
Proof.
  intros Hp Hg Hlr Hb1 Hb2 Heps.
  destruct (adam_update_spec param grad (zeros_like param) (zeros_like param) lr 0
              beta1 beta2 eps s Hp Hg Hp Hp)
    as (p' & m' & v' & Hrun & Hps & _ & _ & Hdata).
  exists p', m', v'. split; [exact Hrun |]. split; [exact Hps |].
  intros i Hi. destruct (Hdata i Hi) as (Hm' & Hv' & Hp').
  rewrite Hm', Hv' in Hp'. cbn [zeros_like full data] in Hp'.
  rewrite (first_step_update grad.[i] lr beta1 beta2 eps Hb1 Hb2) in Hp'.
  set (g := grad.[i]) in *.
  pose proof (Rabs_pos g) as Habs.
  assert (Hden : (0 < Rabs g + eps)%R) by lra.
  assert (Hinv : (0 < / (Rabs g + eps))%R) by (apply Rinv_0_lt_compat; exact Hden).
  assert (Hstep : (param.[i] - p'.[i] = lr * g * / (Rabs g + eps))%R)
    by (rewrite Hp'; unfold Rdiv; ring).
  split; [exact Hp' |]. split; [| split; [| split]].
  - replace (p'.[i] - param.[i])%R with (- (lr * g * / (Rabs g + eps)))%R by lra.
    rewrite Rabs_Ropp, !Rabs_mult, (Rabs_pos_eq lr), (Rabs_pos_eq (/ _)) by lra.
    apply (Rmult_lt_reg_r (Rabs g + eps)); [exact Hden |].
    rewrite !Rmult_assoc, Rinv_l by lra. nra.
  - intros Hpos.
    assert (0 < lr * g * / (Rabs g + eps))%R
      by (apply Rmult_lt_0_compat; [apply Rmult_lt_0_compat |]; assumption).
    lra.
  - intros Hneg.
    assert (0 < lr * (- g) * / (Rabs g + eps))%R
      by (apply Rmult_lt_0_compat; [apply Rmult_lt_0_compat |]; lra).
    lra.
  - intros Hzero. rewrite Hzero in Hstep. lra.
Qed.

(** X16.  The estimate of the second moment does not become negative, so the
    square root is taken of a number that is not negative and the step is
    divided by a positive number; the first moment stays between the moment
    before and the gradient. *)
Theorem adam_update_moments (param grad m v : tensor R) (lr : R) (t : Z)
    (beta1 beta2 eps : R) (s : list nat) :
  shape param = s -> shape grad = s -> shape m = s -> shape v = s ->
  (0 <= beta1 < 1)%R -> (0 <= beta2 < 1)%R -> (0 < eps)%R -> (0 <= t)%Z ->
  (forall i, in_range i s -> (0 <= v.[i])%R) ->
  exists param' m' v',
    adam_update param grad m v lr t beta1 beta2 eps = Ok (param', m', v') /\
    shape m' = s /\ shape v' = s /\
    forall i, in_range i s ->
      (0 <= v'.[i])%R /\
      (0 < sqrt (v'.[i] / (1 - powerRZ beta2 (t + 1))) + eps)%R /\
      (Rmin m.[i] grad.[i] <= m'.[i] <= Rmax m.[i] grad.[i])%R.
Proof.
  intros Hp Hg Hm Hv Hb1 Hb2 Heps Ht Hvpos.
  destruct (adam_update_spec param grad m v lr t beta1 beta2 eps s Hp Hg Hm Hv)
    as (p' & m' & v' & Hrun & _ & Hms & Hvs & Hdata).
  exists p', m', v'. split; [exact Hrun |]. split; [exact Hms |]. split; [exact Hvs |].
  intros i Hi. destruct (Hdata i Hi) as (Hm' & Hv' & _).
  specialize (Hvpos i Hi).
  assert (Hv'pos : (0 <= v'.[i])%R).
  { rewrite Hv'. pose proof (pow2_ge_0 grad.[i]). nra. }
  split; [exact Hv'pos |]. split.
  - pose proof (sqrt_pos (v'.[i] / (1 - powerRZ beta2 (t + 1)))). lra.
  - rewrite Hm'. unfold Rmin, Rmax.
    destruct (Rle_dec m.[i] grad.[i]); split; nra.
Qed.

Lemma tree_map3_spec {A B C D : Type} (f : A -> B -> C -> result D)
    (P : A -> B -> C -> D -> Prop) :
  (forall x y z d, f x y z = Ok d -> P x y z d) ->
  forall xs ys zs ds,
    tree_map3 f xs ys zs = Ok ds ->
    length ds = length xs /\ length ys = length xs /\ length zs = length xs /\
    forall n x y z d,
      xs !! n = Some x -> ys !! n = Some y -> zs !! n = Some z -> ds !! n = Some d ->
      P x y z d.
Proof.
  intros Hf. induction xs as [| x xs IH]; intros ys zs ds Hrun.
  - destruct ys, zs; try discriminate. injection Hrun as <-.
    repeat split. intros n x y z d Hx. discriminate.
  - destruct ys as [| y ys], zs as [| z zs]; try discriminate.
    cbn [tree_map3] in Hrun.
    destruct (f x y z) as [d0 | e] eqn:Hd; [| discriminate]. cbn [bind] in Hrun.
    destruct (tree_map3 f xs ys zs) as [ds0 | e] eqn:Hds; [| discriminate].
    cbn [bind] in Hrun. injection Hrun as <-.
    destruct (IH ys zs ds0 Hds) as (H1 & H2 & H3 & H4).
    cbn [length]. repeat split; try congruence.
    intros [| n] x' y' z' d' Hx Hy Hz Hd'; cbn in Hx, Hy, Hz, Hd'.
    + injection Hx as <-. injection Hy as <-. injection Hz as <-. injection Hd' as <-.
      apply Hf. exact Hd.
    + exact (H4 n x' y' z' d' Hx Hy Hz Hd').
Qed.

(** X17.  The first training step, from the state of [init_adam_state],
    changes no weight by [lr] or more: when [update_weights] returns, there
    are as many new weights and states as weights, and every element of every
    weight whose gradient has the shape of the weight has moved by less than
    [lr]. *)
Theorem update_weights_first_step (weights grads new_weights : list (tensor R))
    (new_state : list (tensor R * tensor R)) (lr : R) :
  (0 < lr)%R ->
  update_weights weights grads (init_adam_state weights) lr 0
  = Ok (new_weights, new_state) ->
  length new_weights = length weights /\ length new_state = length weights /\
  forall n w g w',
    weights !! n = Some w -> grads !! n = Some g -> new_weights !! n = Some w' ->
    shape g = shape w ->
    shape w' = shape w /\
    forall i, in_range i (shape w) -> (Rabs (w'.[i] - w.[i]) < lr)%R.
Proof.
  intros Hlr Hrun. unfold update_weights in Hrun.
  destruct (tree_map3 _ _ _ _) as [updated | e] eqn:Hmap; [| discriminate].
  cbn [bind] in Hrun. injection Hrun as <- <-.
  pose proof (tree_map3_spec (update_fn lr 0)
                (fun (w g : tensor R) (st : tensor R * tensor R)
                     (d : tensor R * (tensor R * tensor R)) =>
                   update_fn lr 0 w g st = Ok d)
                ltac:(intros; assumption) _ _ _ _ Hmap) as (Hl & _ & _ & Hall).
  rewrite !length_map. split; [exact Hl |]. split; [exact Hl |].
  intros n w g w' Hw Hg Hw' Hshape.
  rewrite list_lookup_fmap in Hw'.
  destruct (updated !! n) as [[w0 st0] |] eqn:Hu; [| discriminate].
  cbn in Hw'. injection Hw' as <-.
  assert (Hst : init_adam_state weights !! n = Some (zeros_like w, zeros_like w)).
  { unfold init_adam_state. rewrite list_lookup_fmap, Hw. reflexivity. }
  specialize (Hall n w g _ _ Hw Hg Hst Hu). unfold update_fn in Hall.
  destruct (adam_update_spec w g (zeros_like w) (zeros_like w) lr 0 default_beta1
              default_beta2 default_eps (shape w) eq_refl Hshape eq_refl eq_refl)
    as (p' & m' & v' & Hrun & Hps & _ & _ & Hdata).
  rewrite Hrun in Hall. cbn [bind] in Hall. injection Hall as <- _.
  split; [exact Hps |].
  intros i Hi. destruct (Hdata i Hi) as (Hm' & Hv' & Hp').
  rewrite Hm', Hv' in Hp'. cbn [zeros_like full data] in Hp'.
  assert (Hb1 : (0 <= default_beta1 < 1)%R) by (unfold default_beta1; lra).
  assert (Hb2 : (0 <= default_beta2 < 1)%R) by (unfold default_beta2; lra).
  rewrite (first_step_update g.[i] lr default_beta1 default_beta2 default_eps Hb1 Hb2)
    in Hp'.
  pose proof (Rabs_pos g.[i]) as Habs.
  assert (Heps : (0 < default_eps)%R) by (unfold default_eps; lra).
  assert (Hden : (0 < Rabs g.[i] + default_eps)%R) by lra.
  replace (p'.[i] - w.[i])%R with (- (lr * g.[i] * / (Rabs g.[i] + default_eps)))%R
    by (rewrite Hp'; unfold Rdiv; ring).
  rewrite Rabs_Ropp, !Rabs_mult, (Rabs_pos_eq lr) by lra.
  rewrite (Rabs_pos_eq (/ _)) by (left; apply Rinv_0_lt_compat; exact Hden).
  apply (Rmult_lt_reg_r (Rabs g.[i] + default_eps)); [exact Hden |].
  rewrite !Rmult_assoc, Rinv_l by lra. nra.
Qed.

Lemma adam_update_first_step_witness :
  exists param' m' v',
    adam_update (of_list 0%R [1%R; 2%R]) (of_list 0%R [1000%R; 0%R])
                (zeros_like (of_list 0%R [1%R; 2%R])) (zeros_like (of_list 0%R [1%R; 2%R]))
                0.5 0 default_beta1 default_beta2 default_eps
    = Ok (param', m', v') /\
    param'.[[1]] = 2%R.
Proof.
  destruct (adam_update_first_step (of_list 0%R [1%R; 2%R]) (of_list 0%R [1000%R; 0%R])
              0.5 default_beta1 default_beta2 default_eps [2])
    as (p' & m' & v' & Hrun & _ & Hdata);
    [reflexivity | reflexivity | lra | unfold default_beta1; lra
    | unfold default_beta2; lra | unfold default_eps; lra |].
  exists p', m', v'. split; [exact Hrun |].
  destruct (Hdata [1]) as (_ & _ & _ & _ & Hzero);
    [repeat constructor |].
  apply Hzero. reflexivity.
Defined.

Lemma adam_update_moments_witness :
  exists param' m' v',
    adam_update (of_list 0%R [1%R; 2%R]) (of_list 0%R [3%R; (-4)%R])
                (of_list 0%R [1%R; 1%R]) (of_list 0%R [0%R; 5%R])
                0.5 7 default_beta1 default_beta2 default_eps
    = Ok (param', m', v') /\
    Rle 0 v'.[[1]].
Proof.
  destruct (adam_update_moments (of_list 0%R [1%R; 2%R]) (of_list 0%R [3%R; (-4)%R])
              (of_list 0%R [1%R; 1%R]) (of_list 0%R [0%R; 5%R])
              0.5 7 default_beta1 default_beta2 default_eps [2])
    as (p' & m' & v' & Hrun & _ & _ & Hdata);
    [reflexivity | reflexivity | reflexivity | reflexivity | unfold default_beta1; lra
    | unfold default_beta2; lra | unfold default_eps; lra | lia | |].
  - intros i Hi. in_range_inv Hi. cbn [of_list data nth].
    destruct n as [| [| n]]; [cbn [nth]; lra | cbn [nth]; lra | lia].
  - exists p', m', v'. split; [exact Hrun |].
    destruct (Hdata [1]) as (Hpos & _); [repeat constructor |].
    exact Hpos.
Defined.

Lemma update_weights_first_step_witness :
  exists new_weights new_state,
    update_weights [of_list 0%R [1%R; 2%R]] [of_list 0%R [3%R; (-4)%R]]
                   (init_adam_state [of_list 0%R [1%R; 2%R]]) 0.5 0
    = Ok (new_weights, new_state) /\
    length new_weights = 1.
Proof.
  destruct (update_weights [of_list 0%R [1%R; 2%R]] [of_list 0%R [3%R; (-4)%R]]
              (init_adam_state [of_list 0%R [1%R; 2%R]]) 0.5 0)
    as [[new_weights new_state] | e] eqn:Hrun.
  - exists new_weights, new_state. split; [reflexivity |].
    destruct (update_weights_first_step [of_list 0%R [1%R; 2%R]]
                [of_list 0%R [3%R; (-4)%R]] new_weights new_state 0.5)
      as (Hlen & _); [lra | exact Hrun |].
    exact Hlen.
  - exfalso. vm_compute in Hrun. discriminate.
Defined.

(** ** The loss *)

Lemma zsum32_ext (n : nat) (f g : nat -> Z) :
  (forall j, j < n -> f j = g j) -> zsum32 n f = zsum32 n g.
Proof.
  induction n as [| n IH]; intros Hfg; [reflexivity |].
  cbn [zsum32]. rewrite IH by (intros; apply Hfg; lia).
  rewrite Hfg by lia. reflexivity.
Qed.

(** Sums of 32-bit integers between 0 and [c] that stay below [2^31]. *)
Lemma zsum32_bounded (n : nat) (f : nat -> Z) (c : Z) :
  (forall j, j < n -> (0 <= f j <= c)%Z) -> (Z.of_nat n * c <= int32_max)%Z ->
  (0 <= zsum32 n f <= Z.of_nat n * c)%Z /\
  IZR (zsum32 n f) = rsum n (fun j => IZR (f j)) /\
  (forall j, j < n -> (f j <= zsum32 n f)%Z).
Proof.
  induction n as [| n IH]; intros Hf Hmax.
  - cbn [zsum32 rsum]. split; [lia |]. split; [reflexivity | intros; lia].
  - assert (Hc : (0 <= c)%Z) by (specialize (Hf 0 ltac:(lia)); lia).
    destruct IH as (Hb & Hr & Hj); [intros; apply Hf; lia | nia |].
    specialize (Hf n ltac:(lia)) as Hn.
    cbn [zsum32 rsum].
    rewrite add32_small by (unfold int32_min, int32_max in *; nia).
    split; [nia |]. split.
    + rewrite plus_IZR, Hr. reflexivity.
    + intros j Hlt. destruct (Nat.eq_dec j n) as [-> | Hne]; [lia |].
      specialize (Hj j ltac:(lia)). lia.
Qed.

Lemma zsum32_le (n : nat) (f g : nat -> Z) (c : Z) :
  (forall j, j < n -> (0 <= f j <= g j)%Z) -> (forall j, j < n -> (g j <= c)%Z) ->
  (Z.of_nat n * c <= int32_max)%Z ->
  (zsum32 n f <= zsum32 n g)%Z.
Proof.
  induction n as [| n IH]; intros Hfg Hg Hmax; [cbn; lia |].
  assert (Hc : (0 <= c)%Z)
    by (specialize (Hfg 0 ltac:(lia)); specialize (Hg 0 ltac:(lia)); lia).
  specialize (IH ltac:(intros; apply Hfg; lia) ltac:(intros; apply Hg; lia) ltac:(nia)).
  destruct (zsum32_bounded n f c) as (Hbf & _);
    [intros j Hj; specialize (Hfg j ltac:(lia)); specialize (Hg j ltac:(lia)); lia
    | nia |].
  destruct (zsum32_bounded n g c) as (Hbg & _);
    [intros j Hj; specialize (Hfg j ltac:(lia)); specialize (Hg j ltac:(lia)); lia
    | nia |].
  specialize (Hfg n ltac:(lia)). specialize (Hg n ltac:(lia)).
  cbn [zsum32].
  rewrite !add32_small by (unfold int32_min, int32_max in *; nia). lia.
Qed.

(** The product with a one-hot row selects the element of the label. *)
Lemma one_hot_select (V : nat) (l : Z) (g : nat -> R) :
  rsum V (fun j => (if Z.eqb l (Z.of_nat j) then 1 else 0) * g j)%R
  = if (0 <=? l)%Z && (l <? Z.of_nat V)%Z then g (Z.to_nat l) else 0%R.
Proof.
  induction V as [| V IH].
  - cbn [rsum]. destruct (0 <=? l)%Z eqn:H0; cbn [andb]; [| reflexivity].
    destruct (Z.ltb_spec l (Z.of_nat 0)); [| reflexivity].
    apply Z.leb_le in H0. lia.
  - cbn [rsum]. rewrite IH.
    destruct (Z.leb_spec 0 l) as [H0 | H0]; cbn [andb].
    + destruct (Z.ltb_spec l (Z.of_nat V)) as [Hlt | Hge].
      * destruct (Z.ltb_spec l (Z.of_nat (S V))); [| lia].
        destruct (Z.eqb_spec l (Z.of_nat V)); [lia |]. ring.
      * destruct (Z.eqb_spec l (Z.of_nat V)) as [-> | Hne].
        -- destruct (Z.ltb_spec (Z.of_nat V) (Z.of_nat (S V))); [| lia].
           rewrite Nat2Z.id. ring.
        -- destruct (Z.ltb_spec l (Z.of_nat (S V))); [lia |]. ring.
    + destruct (Z.eqb_spec l (Z.of_nat V)); [lia |]. ring.
Qed.

Lemma in_range_2 (b t B T : nat) : b < B -> t < T -> in_range [b; t] [B; T].
Proof. intros Hb Ht. repeat constructor; assumption. Qed.

Lemma in_range_3 (b t j B T V : nat) :
  b < B -> t < T -> j < V -> in_range [b; t; j] [B; T; V].
Proof. intros Hb Ht Hj. repeat constructor; assumption. Qed.

Lemma cross_entropy_loss_spec (logits : tensor R) (labels mask : tensor Z)
    (internals : option dict) (B T V : nat) :
  shape logits = [B; T; V] -> shape labels = [B; T] -> shape mask = [B; T] -> 0 < V ->
  exists per_token_loss,
    cross_entropy_loss logits labels mask internals
    = Ok (mean_loss logits labels mask B T V, mean_accuracy logits labels mask B T V,
          option_map (dict_set "per_token_loss" per_token_loss) internals) /\
    shape per_token_loss = [B; T] /\
    forall b t, b < B -> t < T ->
      per_token_loss.[[b; t]]
      = (token_loss logits labels V b t * IZR mask.[[b; t]])%R.
Proof.
  intros Hlogits Hlabels Hmask HV. unfold cross_entropy_loss, ndim.
  rewrite Hlogits. cbn [length Nat.leb check bind List.last].
  destruct (broadcast2_same_shape Rmult (one_hot labels V) (log_softmax logits)
              [B; T; V]) as (weighted & -> & Hws & Hw).
  { unfold one_hot. cbn [shape]. rewrite Hlabels. reflexivity. }
  { unfold log_softmax. cbn [shape]. exact Hlogits. }
  cbn [bind].
  destruct (broadcast2_same_shape (fun l m => (l * IZR m)%R)
              (tmap Ropp (sum_last weighted)) mask [B; T])
    as (loss & -> & Hls & Hl).
  { unfold sum_last, tmap. cbn [shape]. rewrite Hws. reflexivity. }
  { exact Hmask. }
  cbn [bind].
  assert (Hloss : forall b t, b < B -> t < T ->
            loss.[[b; t]] = (token_loss logits labels V b t * IZR mask.[[b; t]])%R).
  { intros b t Hb Ht. rewrite (Hl _ (in_range_2 b t B T Hb Ht)).
    f_equal. unfold sum_last, tmap. cbn [data shape]. rewrite Hws.
    cbn [List.last app].
    rewrite (rsum_ext V _
               (fun j => (if Z.eqb labels.[[b; t]] (Z.of_nat j) then 1 else 0)
                         * log_prob logits V b t j)%R).
    - rewrite one_hot_select. unfold token_loss.
      destruct ((0 <=? labels.[[b; t]])%Z && (labels.[[b; t]] <? Z.of_nat V)%Z);
        [reflexivity | ring].
    - intros j Hj. rewrite (Hw _ (in_range_3 b t j B T V Hb Ht Hj)).
      unfold one_hot, log_softmax, log_prob. cbn [data shape].
      rewrite Hlogits. cbn [List.last removelast app]. reflexivity. }
  unfold argmax. rewrite Hlogits. cbn [List.last removelast].
  destruct (Nat.eqb_spec V 0) as [-> | _]; [lia |]. cbn [negb check bind].
  match goal with
  | |- context [broadcast2 Z.eqb ?p labels] =>
      destruct (broadcast2_same_shape Z.eqb p labels [B; T] eq_refl Hlabels)
        as (hits & -> & Hhs & Hh)
  end.
  cbn [bind].
  destruct (broadcast2_same_shape (fun (h : bool) m => if h then m else 0%Z)
              hits mask [B; T] Hhs Hmask) as (hits' & -> & Hhs' & Hh').
  cbn [bind].
  exists loss. split; [| split; [exact Hls | exact Hloss]].
  rewrite Hls, Hhs', Hmask. cbn [sum_all sum_all32].
  apply f_equal. apply f_equal2; [apply f_equal2 | reflexivity].
  - unfold mean_loss, mask_total. f_equal.
    apply rsum_ext. intros b Hb. apply rsum_ext. intros t Ht.
    apply Hloss; assumption.
  - unfold mean_accuracy, mask_total. f_equal. f_equal.
    apply zsum32_ext. intros b Hb. apply zsum32_ext. intros t Ht.
    rewrite (Hh' _ (in_range_2 b t B T Hb Ht)), (Hh _ (in_range_2 b t B T Hb Ht)).
    cbn [data app]. reflexivity.
Qed.

Lemma rmax_const (n : nat) (f : nat -> R) (c : R) :
  0 < n -> (forall j, j < n -> f j = c) -> rmax n f = c.
Proof.
  induction n as [| n IH]; intros Hn Hf; [lia |].
  destruct n as [| n]; [cbn [rmax]; apply Hf; lia |].
  change (rmax (S (S n)) f) with (Rmax (rmax (S n) f) (f (S n))).
  rewrite IH by (try lia; intros; apply Hf; lia).
  rewrite Hf by lia. apply Rmax_left. lra.
Qed.

Lemma rsum_const (n : nat) (c : R) : rsum n (fun _ => c) = (INR n * c)%R.
Proof.
  induction n as [| n IH]; [cbn [rsum INR]; ring |].
  cbn [rsum]. rewrite IH, S_INR. ring.
Qed.

Lemma argmax_fn_ext (n : nat) (f g : nat -> R) :
  (forall j, j < n -> f j = g j) -> argmax_fn n f = argmax_fn n g.
Proof.
  induction n as [| n IH]; intros Hfg; [reflexivity |].
  cbn [argmax_fn]. rewrite <- IH by (intros; apply Hfg; lia).
  destruct n as [| n].
  - cbn [argmax_fn]. rewrite <- (Hfg 0) by lia.
    destruct (Rlt_dec (f 0) (f 0)); reflexivity.
  - destruct (argmax_fn_spec (S n) f ltac:(lia)) as (Hlt & _).
    rewrite <- (Hfg (argmax_fn (S n) f)) by lia.
    rewrite <- (Hfg (S n)) by lia. reflexivity.
Qed.

(** The logarithm of a probability is not positive. *)
Lemma log_prob_nonpos (logits : tensor R) (V b t j : nat) :
  j < V -> (log_prob logits V b t j <= 0)%R.
Proof.
  intros Hj. unfold log_prob.
  set (x_max := rmax V (fun j' => logits.[[b; t; j']])).
  set (total := rsum V (fun j' => exp (logits.[[b; t; j']] - x_max))).
  assert (Hterm : (exp (logits.[[b; t; j]] - x_max) <= total)%R).
  { unfold total.
    apply (rsum_term_le V (fun j' => exp (logits.[[b; t; j']] - x_max)) j Hj).
    intros i _. left. apply exp_pos. }
  pose proof (exp_pos (logits.[[b; t; j]] - x_max)) as Hpos.
  assert (Hln : (logits.[[b; t; j]] - x_max <= ln total)%R).
  { rewrite <- (ln_exp (logits.[[b; t; j]] - x_max)).
    destruct Hterm as [Hlt | Heq].
    - left. apply ln_increasing; assumption.
    - rewrite Heq. right. reflexivity. }
  lra.
Qed.

Lemma token_loss_nonneg (logits : tensor R) (labels : tensor Z) (V b t : nat) :
  (0 <= token_loss logits labels V b t)%R.
Proof.
  unfold token_loss.
  destruct (Z.leb_spec 0 labels.[[b; t]]) as [H0 | H0]; cbn [andb]; [| lra].
  destruct (Z.ltb_spec labels.[[b; t]] (Z.of_nat V)) as [Hlt | Hge]; [| lra].
  pose proof (log_prob_nonpos logits V b t (Z.to_nat labels.[[b; t]]) ltac:(lia)).
  lra.
Qed.

Lemma token_loss_ext (logits logits' : tensor R) (labels labels' : tensor Z)
    (V b t : nat) :
  labels.[[b; t]] = labels'.[[b; t]] ->
  (forall j, j < V -> logits.[[b; t; j]] = logits'.[[b; t; j]]) ->
  token_loss logits labels V b t = token_loss logits' labels' V b t /\
  token_hit logits labels V b t = token_hit logits' labels' V b t.
Proof.
  intros Hl Hx. unfold token_loss, token_hit. rewrite <- Hl. split.
  - destruct (Z.leb_spec 0 labels.[[b; t]]) as [H0 | H0]; cbn [andb]; [| reflexivity].
    destruct (Z.ltb_spec labels.[[b; t]] (Z.of_nat V)) as [Hlt | Hge]; [| reflexivity].
    unfold log_prob.
    rewrite (rmax_ext V _ (fun j' => logits'.[[b; t; j']]) Hx).
    rewrite (Hx (Z.to_nat labels.[[b; t]])) by lia.
    do 3 f_equal. apply rsum_ext. intros j Hj. rewrite (Hx j Hj). reflexivity.
  - rewrite (argmax_fn_ext V _ (fun j => logits'.[[b; t; j]]) Hx). reflexivity.
Qed.

(** The number of positions that count, for a mask of zeros and ones. *)
Lemma mask_total_spec (mask : tensor Z) (B T : nat) :
  (forall b t, b < B -> t < T -> (0 <= mask.[[b; t]] <= 1)%Z) ->
  (Z.of_nat (B * T) <= int32_max)%Z ->
  (0 <= mask_total mask B T <= Z.of_nat (B * T))%Z /\
  IZR (mask_total mask B T) = rsum B (fun b => rsum T (fun t => IZR mask.[[b; t]])) /\
  (forall b t, b < B -> t < T -> (mask.[[b; t]] <= mask_total mask B T)%Z).
Proof.
  intros Hflags Hmax. unfold mask_total.
  destruct (Nat.eq_dec B 0) as [-> | HB].
  { cbn [zsum32 rsum]. split; [cbn; lia |]. split; [reflexivity | intros; lia]. }
  assert (HT : (Z.of_nat T * 1 <= int32_max)%Z) by (unfold int32_max in *; nia).
  assert (Hrow : forall b, b < B ->
            (0 <= zsum32 T (fun t => mask.[[b; t]]) <= Z.of_nat T)%Z /\
            IZR (zsum32 T (fun t => mask.[[b; t]])) = rsum T (fun t => IZR mask.[[b; t]]) /\
            forall t, t < T -> (mask.[[b; t]] <= zsum32 T (fun t' => mask.[[b; t']]))%Z).
  { intros b Hb.
    destruct (zsum32_bounded T (fun t => mask.[[b; t]]) 1) as (H1 & H2 & H3);
      [intros t Ht; apply Hflags; assumption | exact HT |].
    split; [lia |]. split; [exact H2 | exact H3]. }
  destruct (zsum32_bounded B (fun b => zsum32 T (fun t => mask.[[b; t]])) (Z.of_nat T))
    as (H1 & H2 & H3); [intros b Hb; apply (Hrow b Hb) | lia |].
  split; [lia |]. split.
  - rewrite H2. apply rsum_ext. intros b Hb. apply (Hrow b Hb).
  - intros b t Hb Ht. specialize (H3 b Hb).
    destruct (Hrow b Hb) as (_ & _ & Ht'). specialize (Ht' t Ht). lia.
Qed.

(** The mean loss and accuracy for a mask of zeros and ones with a 1. *)
Lemma mean_loss_bounds (logits : tensor R) (labels mask : tensor Z) (B T V b0 t0 : nat) :
  (forall b t, b < B -> t < T -> (0 <= mask.[[b; t]] <= 1)%Z) ->
  (Z.of_nat (B * T) <= int32_max)%Z ->
  b0 < B -> t0 < T -> mask.[[b0; t0]] = 1%Z ->
  (0 <= mean_loss logits labels mask B T V)%R /\
  (0 <= mean_accuracy logits labels mask B T V <= 1)%R.
Proof.
  intros Hflags Hmax Hb0 Ht0 Hone.
  destruct (mask_total_spec mask B T Hflags Hmax) as (Htot & _ & Hge).
  specialize (Hge b0 t0 Hb0 Ht0). rewrite Hone in Hge.
  assert (Hpos : (0 < IZR (mask_total mask B T))%R) by (apply IZR_lt; lia).
  assert (Hinv : (0 < / IZR (mask_total mask B T))%R)
    by (apply Rinv_0_lt_compat; exact Hpos).
  split; [| split].
  - unfold mean_loss. apply Rmult_le_pos; [| lra].
    apply rsum_nonneg. intros b Hb. apply rsum_nonneg. intros t Ht.
    apply Rmult_le_pos; [apply token_loss_nonneg |].
    apply IZR_le. apply (Hflags b t Hb Ht).
  - unfold mean_accuracy. apply Rmult_le_pos; [| lra].
    apply IZR_le.
    destruct (mask_total_spec
                (Tensor [B; T] (fun i => if token_hit logits labels V (i @ 0) (i @ 1)
                                         then mask.[[i @ 0; i @ 1]] else 0%Z)) B T)
      as (Hhits & _); [| exact Hmax |].
    + intros b t Hb Ht. cbn [data nth]. specialize (Hflags b t Hb Ht).
      destruct (token_hit logits labels V b t); lia.
    + unfold mask_total in Hhits. cbn [data nth] in Hhits. lia.
  - unfold mean_accuracy.
    apply (Rmult_le_reg_r (IZR (mask_total mask B T))); [exact Hpos |].
    unfold Rdiv. rewrite Rmult_assoc, Rinv_l, Rmult_1_r, Rmult_1_l by lra.
    apply IZR_le. unfold mask_total.
    assert (HT : (Z.of_nat T * 1 <= int32_max)%Z) by (unfold int32_max in *; nia).
    apply (zsum32_le B _ _ (Z.of_nat T)); [| | lia].
    + intros b Hb. split.
      * destruct (zsum32_bounded T
                    (fun t => if token_hit logits labels V b t
                              then mask.[[b; t]] else 0%Z) 1) as (H1 & _);
          [| exact HT | lia].
        intros t Ht. specialize (Hflags b t Hb Ht).
        destruct (token_hit logits labels V b t); lia.
      * apply (zsum32_le T _ _ 1); [| | exact HT].
        -- intros t Ht. specialize (Hflags b t Hb Ht).
           destruct (token_hit logits labels V b t); lia.
        -- intros t Ht. apply (Hflags b t Hb Ht).
    + intros b Hb.
      destruct (zsum32_bounded T (fun t => mask.[[b; t]]) 1) as (H1 & _);
        [intros t Ht; apply (Hflags b t Hb Ht) | exact HT | lia].
Qed.

(** X18.  For a mask of zeros and ones with at least one 1, the loss of
    [cross_entropy_loss] is not negative and the accuracy lies between 0
    and 1. *)
Theorem cross_entropy_loss_bounds (logits : tensor R) (labels mask : tensor Z)
    (internals : option dict) (B T V b0 t0 : nat) :
  shape logits = [B; T; V] -> shape labels = [B; T] -> shape mask = [B; T] -> 0 < V ->
  (forall b t, b < B -> t < T -> (0 <= mask.[[b; t]] <= 1)%Z) ->
  (Z.of_nat (B * T) <= int32_max)%Z ->
  b0 < B -> t0 < T -> mask.[[b0; t0]] = 1%Z ->
  exists loss accuracy out,
    cross_entropy_loss logits labels mask internals = Ok (loss, accuracy, out) /\
    (0 <= loss)%R /\ (0 <= accuracy <= 1)%R.
Proof.
  intros Hlogits Hlabels Hmask HV Hflags Hmax Hb0 Ht0 Hone.
  destruct (cross_entropy_loss_spec logits labels mask internals B T V
              Hlogits Hlabels Hmask HV) as (ptl & Hrun & _).
  eexists _, _, _. split; [exact Hrun |].
  exact (mean_loss_bounds logits labels mask B T V b0 t0 Hflags Hmax Hb0 Ht0 Hone).
Qed.

(** The positions whose mask is 0 do not count in the means. *)
Lemma mean_loss_ext (logits logits' : tensor R) (labels labels' mask : tensor Z)
    (B T V : nat) :
  (forall b t, b < B -> t < T -> mask.[[b; t]] <> 0%Z ->
     labels.[[b; t]] = labels'.[[b; t]] /\
     forall j, j < V -> logits.[[b; t; j]] = logits'.[[b; t; j]]) ->
  mean_loss logits labels mask B T V = mean_loss logits' labels' mask B T V /\
  mean_accuracy logits labels mask B T V = mean_accuracy logits' labels' mask B T V.
Proof.
  intros Hagree. split.
  - unfold mean_loss. f_equal.
    apply rsum_ext. intros b Hb. apply rsum_ext. intros t Ht.
    destruct (Z.eq_dec mask.[[b; t]] 0%Z) as [Hz | Hnz]; [rewrite Hz; ring |].
    destruct (Hagree b t Hb Ht Hnz) as [Hl Hx].
    destruct (token_loss_ext logits logits' labels labels' V b t Hl Hx) as [<- _].
    reflexivity.
  - unfold mean_accuracy. f_equal. f_equal.
    apply zsum32_ext. intros b Hb. apply zsum32_ext. intros t Ht.
    destruct (Z.eq_dec mask.[[b; t]] 0%Z) as [Hz | Hnz].
    + rewrite Hz. destruct (token_hit logits' labels' V b t), (token_hit logits labels V b t);
        reflexivity.
    + destruct (Hagree b t Hb Ht Hnz) as [Hl Hx].
      destruct (token_loss_ext logits logits' labels labels' V b t Hl Hx) as [_ <-].
      reflexivity.
Qed.

(** X19.  The positions whose mask is 0 do not count: two calls whose logits
    and labels agree wherever the mask is not 0 return the same loss and the
    same accuracy. *)
Theorem cross_entropy_loss_masked_positions (logits logits' : tensor R)
    (labels labels' mask : tensor Z) (internals : option dict) (B T V : nat) :
  shape logits = [B; T; V] -> shape logits' = [B; T; V] ->
  shape labels = [B; T] -> shape labels' = [B; T] -> shape mask = [B; T] -> 0 < V ->
  (forall b t, b < B -> t < T -> mask.[[b; t]] <> 0%Z ->
     labels.[[b; t]] = labels'.[[b; t]] /\
     forall j, j < V -> logits.[[b; t; j]] = logits'.[[b; t; j]]) ->
  exists loss accuracy out out',
    cross_entropy_loss logits labels mask internals = Ok (loss, accuracy, out) /\
    cross_entropy_loss logits' labels' mask internals = Ok (loss, accuracy, out').
Proof.
  intros Hlogits Hlogits' Hlabels Hlabels' Hmask HV Hagree.
  destruct (cross_entropy_loss_spec logits labels mask internals B T V
              Hlogits Hlabels Hmask HV) as (ptl & Hrun & _).
  destruct (cross_entropy_loss_spec logits' labels' mask internals B T V
              Hlogits' Hlabels' Hmask HV) as (ptl' & Hrun' & _).
  destruct (mean_loss_ext logits logits' labels labels' mask B T V Hagree)
    as [Hloss Hacc].
  eexists _, _, _, _. split; [exact Hrun |]. rewrite Hrun', Hloss, Hacc. reflexivity.
Qed.

(** X20.  A model that gives the same logit to every class has the loss
    [ln V]: when the logits of every counted position are constant over the
    [V] classes and its labels are classes, [cross_entropy_loss] returns the
    logarithm of the number of classes. *)
Theorem cross_entropy_loss_uniform (logits : tensor R) (labels mask : tensor Z)
    (internals : option dict) (B T V b0 t0 : nat) :
  shape logits = [B; T; V] -> shape labels = [B; T] -> shape mask = [B; T] -> 0 < V ->
  (forall b t, b < B -> t < T -> (0 <= mask.[[b; t]] <= 1)%Z) ->
  (Z.of_nat (B * T) <= int32_max)%Z ->
  b0 < B -> t0 < T -> mask.[[b0; t0]] = 1%Z ->
  (forall b t, b < B -> t < T -> mask.[[b; t]] <> 0%Z ->
     (0 <= labels.[[b; t]] < Z.of_nat V)%Z /\
     forall j, j < V -> logits.[[b; t; j]] = logits.[[b; t; 0]]) ->
  exists accuracy out,
    cross_entropy_loss logits labels mask internals = Ok (ln (INR V), accuracy, out).
Proof.
  intros Hlogits Hlabels Hmask HV Hflags Hmax Hb0 Ht0 Hone Hunif.
  destruct (cross_entropy_loss_spec logits labels mask internals B T V
              Hlogits Hlabels Hmask HV) as (ptl & Hrun & _).
  eexists _, _. rewrite Hrun.
  apply f_equal. apply f_equal2; [apply f_equal2 | reflexivity]; [| reflexivity].
  destruct (mask_total_spec mask B T Hflags Hmax) as (Htot & Hsum & Hge).
  specialize (Hge b0 t0 Hb0 Ht0). rewrite Hone in Hge.
  assert (Hpos : (0 < IZR (mask_total mask B T))%R) by (apply IZR_lt; lia).
  unfold mean_loss.
  rewrite (rsum_ext B _ (fun b => rsum T (fun t => IZR mask.[[b; t]]) * ln (INR V))%R).
  - rewrite rsum_scal_r, <- Hsum. field. lra.
  - intros b Hb. rewrite <- rsum_scal_r. apply rsum_ext. intros t Ht.
    destruct (Z.eq_dec mask.[[b; t]] 0%Z) as [Hz | Hnz]; [rewrite Hz; ring |].
    destruct (Hunif b t Hb Ht Hnz) as [[Hl0 Hl1] Hx].
    rewrite Rmult_comm. f_equal. unfold token_loss.
    destruct (Z.leb_spec 0 labels.[[b; t]]); [| lia].
    destruct (Z.ltb_spec labels.[[b; t]] (Z.of_nat V)); [| lia].
    cbn [andb]. unfold log_prob.
    rewrite (rmax_const V _ logits.[[b; t; 0]] HV Hx).
    rewrite (Hx (Z.to_nat labels.[[b; t]])) by lia.
    rewrite (rsum_ext V _ (fun _ => 1%R))
      by (intros j Hj; rewrite (Hx j Hj), Rminus_diag; apply exp_0).
    rewrite rsum_const, Rmult_1_r. ring.
Qed.

Lemma cross_entropy_loss_bounds_witness :
  exists loss accuracy out,
    cross_entropy_loss (full [1; 2; 2] 0%R) (full [1; 2] 1%Z)
                       (expand_dims (of_list 0%Z [1%Z; 0%Z]) 0) None
    = Ok (loss, accuracy, out) /\
    (0 <= loss)%R /\ (0 <= accuracy <= 1)%R.
Proof.
  apply (cross_entropy_loss_bounds _ _ _ None 1 2 2 0 0);
    try reflexivity; try lia.
  - intros b t Hb Ht. assert (b = 0) as -> by lia.
    destruct t as [| [| t]]; [cbn; lia | cbn; lia | lia].
  - unfold int32_max. cbn. lia.
Defined.

Lemma cross_entropy_loss_masked_positions_witness :
  exists loss accuracy out out',
    cross_entropy_loss (full [1; 2; 2] 0%R) (full [1; 2] 1%Z)
                       (expand_dims (of_list 0%Z [1%Z; 0%Z]) 0) None
    = Ok (loss, accuracy, out) /\
    cross_entropy_loss (full [1; 2; 2] 0%R) (expand_dims (of_list 0%Z [1%Z; 0%Z]) 0)
                       (expand_dims (of_list 0%Z [1%Z; 0%Z]) 0) None
    = Ok (loss, accuracy, out').
Proof.
  apply (cross_entropy_loss_masked_positions _ _ _ _ _ None 1 2 2);
    try reflexivity; try lia.
  intros b t Hb Ht Hmask. assert (b = 0) as -> by lia.
  destruct t as [| [| t]]; [| | lia].
  - split; [reflexivity | intros; reflexivity].
  - exfalso. apply Hmask. reflexivity.
Defined.

Lemma cross_entropy_loss_uniform_witness :
  exists accuracy out,
    cross_entropy_loss (full [1; 2; 2] 3%R) (full [1; 2] 1%Z)
                       (expand_dims (of_list 0%Z [1%Z; 0%Z]) 0) None
    = Ok (ln (INR 2), accuracy, out).
Proof.
  apply (cross_entropy_loss_uniform _ _ _ None 1 2 2 0 0);
    try reflexivity; try lia.
  - intros b t Hb Ht. assert (b = 0) as -> by lia.
    destruct t as [| [| t]]; [cbn; lia | cbn; lia | lia].
  - unfold int32_max. cbn. lia.
  - intros b t Hb Ht _. split; [cbn; lia | intros; reflexivity].
Defined.

(** ** The forward pass on arrays of the expected shapes *)

Lemma einsum_btd_dhq_bhtq_shape (x w : tensor R) (b t d h q : nat) :
  shape x = [b; t; d] -> shape w = [d; h; q] ->
  exists r, einsum_btd_dhq_bhtq x w = Ok r /\ shape r = [b; h; t; q].
Proof.
  intros Hx Hw. unfold einsum_btd_dhq_bhtq. rewrite Hx, Hw, Nat.eqb_refl.
  eexists. split; reflexivity.
Qed.

Lemma einsum_bhtq_hqd_btd_shape (x w : tensor R) (b h t q d : nat) :
  shape x = [b; h; t; q] -> shape w = [h; q; d] ->
  exists r, einsum_bhtq_hqd_btd x w = Ok r /\ shape r = [b; t; d].
Proof.
  intros Hx Hw. unfold einsum_bhtq_hqd_btd. rewrite Hx, Hw, !Nat.eqb_refl.
  eexists. split; reflexivity.
Qed.

Lemma einsum_btd_df_btf_shape (x w : tensor R) (b t d f : nat) :
  shape x = [b; t; d] -> shape w = [d; f] ->
  exists r, einsum_btd_df_btf x w = Ok r /\ shape r = [b; t; f].
Proof.
  intros Hx Hw. unfold einsum_btd_df_btf. rewrite Hx, Hw, Nat.eqb_refl.
  eexists. split; reflexivity.
Qed.

Lemma slices_at_shape (table : tensor R) (indices : tensor Z) (L h B length : nat) :
  shape table = [L; h] -> shape indices = [B] -> length <= L ->
  exists out, slices_at table indices length = Ok out /\ shape out = [B; length; h].
Proof.
  intros Htable Hind Hle.
  unfold slices_at, vmap, slice_at, dynamic_slice_in_dim, row.
  rewrite Hind, Htable. cbn [nth shape data tail].
  destruct (Nat.ltb_spec L length) as [| _]; [lia |]. cbn [bind shape].
  eexists. split; reflexivity.
Qed.

Section ForwardShapes.

Variable flash_attention :
  tensor R -> tensor R -> tensor R -> tensor Z -> tensor Z -> bool -> R -> result (tensor R).

Variables (B T D H h F : nat) (cfg : Config).
Hypothesis HT : T <> 0.
Hypothesis Hh : h <> 0.
Hypothesis Hkernel : use_attn_kernel cfg = false.

Lemma forward_layer_shape (x : tensor R) (segment_ids : tensor Z) (layer : Layer.t)
    (sin cos : tensor R) (idx : nat) :
  shape x = [B; T; D] -> shape segment_ids = [B; T] ->
  shape sin = [B; T; h] -> shape cos = [B; T; h] ->
  layer_shapes D H (2 * h) F layer ->
  exists x' k v,
    forward_layer flash_attention x segment_ids layer sin cos idx cfg None
    = Ok (x', k, v) /\
    shape x' = [B; T; D].
Proof using HT Hh Hkernel.
  intros Hx Hseg Hsin Hcos (Hq & Hk & Hv & Hproj & Hw1 & Hw2 & Hg1 & Hg2).
  unfold forward_layer.
  destruct (rms_norm_spec x (Layer.gamma1 layer) B T D Hx Hg1)
    as (attn_in & -> & Hai & _).
  cbn [bind].
  destruct (einsum_btd_dhq_bhtq_shape attn_in (Layer.q layer) B T D H (2 * h) Hai Hq)
    as (q0 & -> & Hq0).
  cbn [bind].
  destruct (einsum_btd_dhq_bhtq_shape attn_in (Layer.k layer) B T D H (2 * h) Hai Hk)
    as (k0 & -> & Hk0).
  cbn [bind].
  destruct (einsum_btd_dhq_bhtq_shape attn_in (Layer.v layer) B T D H (2 * h) Hai Hv)
    as (v0 & -> & Hv0).
  cbn [bind].
  destruct (apply_rotary_embedding_spec q0 sin cos B H T h Hq0 Hsin Hcos)
    as (q1 & -> & Hq1 & _).
  cbn [bind].
  destruct (apply_rotary_embedding_spec k0 sin cos B H T h Hk0 Hsin Hcos)
    as (k1 & -> & Hk1 & _).
  cbn [bind]. rewrite Hkernel, Hx. cbn [nth].
  destruct (attention_spec q1 k1 v0 segment_ids segment_ids (full [B] 0%Z) cfg
              B H T T (2 * h) (2 * h) Hq1 Hk1 Hv0 Hseg Hseg eq_refl ltac:(lia) HT)
    as (attn_out & -> & Hao & _).
  cbn [bind].
  destruct (einsum_bhtq_hqd_btd_shape attn_out (Layer.proj layer) B H T (2 * h) D
              Hao Hproj) as (proj_out & -> & Hpo).
  cbn [bind].
  destruct (broadcast2_same_shape Rplus x proj_out [B; T; D] Hx Hpo)
    as (x1 & -> & Hx1 & _).
  cbn [bind].
  destruct (rms_norm_spec x1 (Layer.gamma2 layer) B T D Hx1 Hg2)
    as (ff_in & -> & Hfi & _).
  cbn [bind].
  destruct (einsum_btd_df_btf_shape ff_in (Layer.w1 layer) B T D F Hfi Hw1)
    as (ff1 & -> & Hff1).
  cbn [bind].
  destruct (einsum_btd_df_btf_shape (tmap gelu ff1) (Layer.w2 layer) B T F D Hff1 Hw2)
    as (ff2 & -> & Hff2).
  cbn [bind].
  destruct (broadcast2_same_shape Rplus x1 ff2 [B; T; D] Hx1 Hff2)
    as (x2 & -> & Hx2 & _).
  cbn [bind]. eexists _, _, _. split; [reflexivity | exact Hx2].
Qed.

Lemma forward_layers_shape (layers : list Layer.t) :
  forall (x : tensor R) (segment_ids : tensor Z) (sin cos : tensor R) (idx : nat),
    shape x = [B; T; D] -> shape segment_ids = [B; T] ->
    shape sin = [B; T; h] -> shape cos = [B; T; h] ->
    Forall (layer_shapes D H (2 * h) F) layers ->
    exists x',
      forward_layers flash_attention x segment_ids layers sin cos idx cfg None
      = (Ok x', None) /\
      shape x' = [B; T; D].
Proof using HT Hh Hkernel.
  induction layers as [| layer layers IH];
    intros x segment_ids sin cos idx Hx Hseg Hsin Hcos Hall.
  - exists x. split; [reflexivity | exact Hx].
  - inversion Hall as [| ? ? Hlayer Hrest]; subst.
    destruct (forward_layer_shape x segment_ids layer sin cos idx Hx Hseg Hsin Hcos
                Hlayer) as (x' & k & v & Hrun & Hx').
    destruct (IH x' segment_ids sin cos (S idx) Hx' Hseg Hsin Hcos Hrest)
      as (x'' & Hrun' & Hx'').
    exists x''. split; [| exact Hx''].
    cbn [forward_layers]. unfold bindM, get, lift, ret. rewrite Hrun. exact Hrun'.
Qed.

Lemma forward_no_cache_spec (x segment_ids : tensor Z) (weights : Weights.t)
    (Vocab V : nat) :
  shape x = [B; T] -> shape segment_ids = [B; T] ->
  weights_shapes Vocab D H (2 * h) F V weights ->
  key_dim cfg = 2 * h -> T <= max_seq_len cfg ->
  exists logits,
    forward flash_attention x segment_ids weights cfg None = (Ok (logits, None), None) /\
    shape logits = [B; T; V].
Proof using HT Hh Hkernel.
  intros Hx Hseg (Hlayers & Hemb & Hvp) Hkd Hlen.
  unfold forward, bindM, lift, get, ret.
  unfold take_rows at 1, ndim at 1. cbn [shape]. rewrite Hx, Hemb.
  cbn [app tail length Nat.leb check].
  destruct (_generate_fixed_pos_embedding (key_dim cfg) (max_seq_len cfg)
              default_min_timescale default_max_timescale) as [sin cos] eqn:Htab.
  destruct (generate_fixed_pos_embedding_spec (key_dim cfg) (max_seq_len cfg)
              default_min_timescale default_max_timescale) as (Hs & Hc & _).
  rewrite Htab in Hs, Hc. cbn [fst snd] in Hs, Hc.
  assert (Hhalf : (key_dim cfg + 1) / 2 = h).
  { rewrite Hkd. replace (2 * h + 1) with (1 + h * 2) by lia.
    rewrite Nat.div_add by lia. reflexivity. }
  rewrite Hhalf in Hs, Hc.
  unfold take_rows, ndim. cbn [shape]. rewrite Hx, Hemb. cbn [app tail nth length].
  destruct (slices_at_shape sin (full [B] 0%Z) (max_seq_len cfg) h B T Hs eq_refl Hlen)
    as (sin' & -> & Hsin').
  destruct (slices_at_shape cos (full [B] 0%Z) (max_seq_len cfg) h B T Hc eq_refl Hlen)
    as (cos' & -> & Hcos').
  match goal with
  | |- context [forward_layers flash_attention ?x0 segment_ids _ sin' cos' 0 cfg None] =>
      destruct (forward_layers_shape (Weights.layers weights) x0 segment_ids sin' cos' 0)
        as (x1 & -> & Hx1); [reflexivity | exact Hseg | exact Hsin' | exact Hcos'
                            | exact Hlayers |]
  end.
  destruct (einsum_btd_df_btf_shape x1 (Weights.vocab_proj weights) B T D V Hx1 Hvp)
    as (logits & -> & Hlogits).
  exists logits. split; [reflexivity | exact Hlogits].
Qed.

(** X21.  On tokens and weights of the expected shapes, without a cache and
    without the kernel, [forward] raises no exception: for a chunk of at
    least one and at most [max_seq_len] positions it returns logits of shape
    [B, T, V], and no cache. *)
Theorem forward_returns_logits (x segment_ids : tensor Z) (weights : Weights.t)
    (Vocab V : nat) :
  shape x = [B; T] -> shape segment_ids = [B; T] ->
  weights_shapes Vocab D H (2 * h) F V weights ->
  key_dim cfg = 2 * h -> T <= max_seq_len cfg ->
  exists logits,
    forward flash_attention x segment_ids weights cfg None = (Ok (logits, None), None) /\
    shape logits = [B; T; V].
Proof using HT Hh Hkernel.
  exact (forward_no_cache_spec x segment_ids weights Vocab V).
Qed.

End ForwardShapes.

Lemma reference_weights_shapes : weights_shapes 3 2 1 (2 * 1) 2 3 reference_weights.
Proof.
  split; [| split; reflexivity].
  constructor; [| constructor]. repeat split.
Qed.

Lemma forward_returns_logits_witness :
  exists logits,
    forward no_flash_attention reference_chunk reference_chunk reference_weights
            reference_cfg None = (Ok (logits, None), None) /\
    shape logits = [1; 2; 3].
Proof.
  apply (forward_returns_logits no_flash_attention 1 2 2 1 1 2 reference_cfg
           ltac:(lia) ltac:(lia) eq_refl reference_chunk reference_chunk
           reference_weights 3 3);
    [reflexivity | reflexivity | exact reference_weights_shapes | reflexivity
    | cbn; lia].
Defined.

(** ** The training loss *)

Section ComputeLoss.

Variable flash_attention :
  tensor R -> tensor R -> tensor R -> tensor Z -> tensor Z -> bool -> R -> result (tensor R).

Variables (B T D H h F Vocab V : nat) (cfg : Config).
Variables (weights : Weights.t) (x segment_ids : tensor Z).
Hypothesis HT : T <> 0.
Hypothesis Hh : h <> 0.
Hypothesis HV : 0 < V.
Hypothesis Hkernel : use_attn_kernel cfg = false.
Hypothesis Hx : shape x = [B; T].
Hypothesis Hseg : shape segment_ids = [B; T].
Hypothesis Hweights : weights_shapes Vocab D H (2 * h) F V weights.
Hypothesis Hkd : key_dim cfg = 2 * h.
Hypothesis Hlen : T <= max_seq_len cfg.

(** What [compute_loss] returns: the mean loss of the logits of [forward]
    over the positions that are not padding, and the dictionary with the
    loss of every position and the accuracy. *)
Lemma compute_loss_spec (y : tensor Z) :
  shape y = [B; T] ->
  exists logits per_token_loss,
    let loss_mask := tmap (fun s => if Z.eqb s 0 then 0%Z else 1%Z) segment_ids in
    forward flash_attention x segment_ids weights cfg None = (Ok (logits, None), None) /\
    shape logits = [B; T; V] /\
    compute_loss flash_attention weights x segment_ids y cfg
    = Ok (mean_loss logits y loss_mask B T V,
          dict_set "accuracy" (full [] (mean_accuracy logits y loss_mask B T V))
                   (dict_set "per_token_loss" per_token_loss [])) /\
    shape per_token_loss = [B; T] /\
    forall b t, b < B -> t < T ->
      per_token_loss.[[b; t]]
      = (token_loss logits y V b t * IZR loss_mask.[[b; t]])%R.
Proof using All.
  intros Hy. cbv zeta.
  destruct (forward_no_cache_spec flash_attention B T D H h F cfg HT Hh Hkernel
              x segment_ids weights Vocab V Hx Hseg Hweights Hkd Hlen)
    as (logits & Hrun & Hlogits).
  exists logits.
  unfold compute_loss. rewrite Hrun. cbn [fst bind]. cbv zeta.
  match goal with
  | |- context [cross_entropy_loss logits y ?m ?i] =>
      destruct (cross_entropy_loss_spec logits y m i B T V Hlogits Hy Hseg HV)
        as (ptl & Hce & Hptl & Hdata);
      rewrite Hce
  end.
  exists ptl. split; [reflexivity |]. split; [exact Hlogits |].
  split; [reflexivity |]. split; [exact Hptl | exact Hdata].
Qed.

(** X22.  The labels of the padding do not count in the training loss: two
    label arrays that agree wherever the segment id is not 0 give the same
    loss and the same recorded accuracy. *)
Theorem compute_loss_ignores_padding (y y' : tensor Z) :
  shape y = [B; T] -> shape y' = [B; T] ->
  (forall b t, b < B -> t < T -> segment_ids.[[b; t]] <> 0%Z ->
     y.[[b; t]] = y'.[[b; t]]) ->
  exists loss internals internals',
    compute_loss flash_attention weights x segment_ids y cfg = Ok (loss, internals) /\
    compute_loss flash_attention weights x segment_ids y' cfg = Ok (loss, internals') /\
    dict_get "accuracy" internals = dict_get "accuracy" internals' /\
    dict_get "accuracy" internals <> None.
Proof using All.
  intros Hy Hy' Hagree.
  destruct (compute_loss_spec y Hy) as (logits & ptl & Hrun & _ & Hloss & _).
  destruct (compute_loss_spec y' Hy') as (logits' & ptl' & Hrun' & _ & Hloss' & _).
  cbv zeta in Hloss, Hloss'.
  rewrite Hrun in Hrun'. injection Hrun' as <-.
  set (loss_mask := tmap (fun s => if Z.eqb s 0 then 0%Z else 1%Z) segment_ids) in *.
  destruct (mean_loss_ext logits logits y y' loss_mask B T V) as [Hl Ha].
  { intros b t Hb Ht Hmask. split; [| intros; reflexivity].
    apply (Hagree b t Hb Ht). intros Hz. apply Hmask.
    unfold loss_mask, tmap. cbn [data]. rewrite Hz. reflexivity. }
  eexists _, _, _. split; [exact Hloss |]. split; [rewrite Hloss', Hl; reflexivity |].
  cbn [dict_set dict_get fst]. rewrite String.eqb_refl, Ha.
  split; [reflexivity | discriminate].
Qed.

(** X23.  When the batch has a token that is not padding, the training loss
    is not negative, the accuracy recorded under ["accuracy"] lies between 0
    and 1, and the dictionary holds the loss of every position under
    ["per_token_loss"], which is 0 at the padding. *)
Theorem compute_loss_bounds (y : tensor Z) (b0 t0 : nat) :
  shape y = [B; T] -> (Z.of_nat (B * T) <= int32_max)%Z ->
  b0 < B -> t0 < T -> segment_ids.[[b0; t0]] <> 0%Z ->
  exists loss accuracy per_token_loss internals,
    compute_loss flash_attention weights x segment_ids y cfg = Ok (loss, internals) /\
    (0 <= loss)%R /\
    dict_get "accuracy" internals = Some (full [] accuracy) /\
    (0 <= accuracy <= 1)%R /\
    dict_get "per_token_loss" internals = Some per_token_loss /\
    shape per_token_loss = [B; T] /\
    forall b t, b < B -> t < T ->
      (0 <= per_token_loss.[[b; t]])%R /\
      (segment_ids.[[b; t]] = 0%Z -> per_token_loss.[[b; t]] = 0%R).
Proof using All.
  intros Hy Hmax Hb0 Ht0 Hvalid.
  destruct (compute_loss_spec y Hy) as (logits & ptl & _ & _ & Hloss & Hptl & Hdata).
  cbv zeta in Hloss, Hdata.
  set (loss_mask := tmap (fun s => if Z.eqb s 0 then 0%Z else 1%Z) segment_ids) in *.
  assert (Hflags : forall b t, b < B -> t < T -> (0 <= loss_mask.[[b; t]] <= 1)%Z).
  { intros b t _ _. unfold loss_mask, tmap. cbn [data].
    destruct (Z.eqb segment_ids.[[b; t]] 0); lia. }
  assert (Hone : loss_mask.[[b0; t0]] = 1%Z).
  { unfold loss_mask, tmap. cbn [data].
    destruct (Z.eqb_spec segment_ids.[[b0; t0]] 0); [contradiction | reflexivity]. }
  destruct (mean_loss_bounds logits y loss_mask B T V b0 t0 Hflags Hmax Hb0 Ht0 Hone)
    as [Hl Ha].
  eexists _, _, ptl, _. split; [exact Hloss |]. split; [exact Hl |].
  split; [cbn [dict_set dict_get fst]; rewrite String.eqb_refl; reflexivity |].
  split; [exact Ha |]. split; [reflexivity |]. split; [exact Hptl |].
  intros b t Hb Ht. rewrite (Hdata b t Hb Ht). split.
  - apply Rmult_le_pos; [apply token_loss_nonneg |].
    apply IZR_le. apply (Hflags b t Hb Ht).
  - intros Hz. unfold loss_mask, tmap. cbn [data]. rewrite Hz. cbn [Z.eqb]. ring.
Qed.

End ComputeLoss.

Lemma compute_loss_ignores_padding_witness :
  exists loss internals internals',
    compute_loss no_flash_attention reference_weights reference_chunk
                 (expand_dims (of_list 0%Z [1%Z; 0%Z]) 0) (full [1; 2] 1%Z) reference_cfg
    = Ok (loss, internals) /\
    compute_loss no_flash_attention reference_weights reference_chunk
                 (expand_dims (of_list 0%Z [1%Z; 0%Z]) 0)
                 (expand_dims (of_list 0%Z [1%Z; 2%Z]) 0) reference_cfg
    = Ok (loss, internals').
Proof.
  destruct (compute_loss_ignores_padding no_flash_attention 1 2 2 1 1 2 3 3 reference_cfg
              reference_weights reference_chunk (expand_dims (of_list 0%Z [1%Z; 0%Z]) 0)
              ltac:(lia) ltac:(lia) ltac:(lia) eq_refl eq_refl eq_refl
              reference_weights_shapes eq_refl ltac:(cbn; lia)
              (full [1; 2] 1%Z) (expand_dims (of_list 0%Z [1%Z; 2%Z]) 0))
    as (loss & i1 & i2 & H1 & H2 & _); [reflexivity | reflexivity | |].
  - intros b t Hb Ht Hs. assert (b = 0) as -> by lia.
    destruct t as [| [| t]]; [reflexivity | | lia].
    exfalso. apply Hs. reflexivity.
  - exists loss, i1, i2. split; [exact H1 | exact H2].
Defined.

Lemma compute_loss_bounds_witness :
  exists loss internals,
    compute_loss no_flash_attention reference_weights reference_chunk
                 (expand_dims (of_list 0%Z [1%Z; 0%Z]) 0) (full [1; 2] 1%Z) reference_cfg
    = Ok (loss, internals) /\
    (0 <= loss)%R.
Proof.
  destruct (compute_loss_bounds no_flash_attention 1 2 2 1 1 2 3 3 reference_cfg
              reference_weights reference_chunk (expand_dims (of_list 0%Z [1%Z; 0%Z]) 0)
              ltac:(lia) ltac:(lia) ltac:(lia) eq_refl eq_refl eq_refl
              reference_weights_shapes eq_refl ltac:(cbn; lia)
              (full [1; 2] 1%Z) 0 0)
    as (loss & acc & ptl & internals & Hrun & Hloss & _);
    [reflexivity | unfold int32_max; cbn; lia | lia | lia | cbn; lia |].
  exists loss, internals. split; [exact Hrun | exact Hloss].
Defined.

(** ** The forward pass with a cache, on arrays of the expected shapes *)

Section ForwardCacheShapes.

Variable flash_attention :
  tensor R -> tensor R -> tensor R -> tensor Z -> tensor Z -> bool -> R -> result (tensor R).

Variables (B T D H h F Tmax n : nat) (cfg : Config).
Hypothesis HT : T <= Tmax.
Hypothesis HTmax : Tmax <> 0.
Hypothesis Hh : h <> 0.
Hypothesis Hkernel : use_attn_kernel cfg = false.

Lemma forward_layer_cache_shape (x : tensor R) (segment_ids : tensor Z) (layer : Layer.t)
    (sin cos : tensor R) (idx : nat) (c : KVCache.t) :
  shape x = [B; T; D] -> shape segment_ids = [B; T] ->
  shape sin = [B; T; h] -> shape cos = [B; T; h] ->
  layer_shapes D H (2 * h) F layer ->
  cache_shapes B H (2 * h) Tmax n c -> idx < n ->
  exists x' k v,
    forward_layer flash_attention x segment_ids layer sin cos idx cfg (Some c)
    = Ok (x', k, v) /\
    shape x' = [B; T; D] /\
    shape k = [B; H; Tmax; 2 * h] /\ shape v = [B; H; Tmax; 2 * h].
Proof using HT HTmax Hh Hkernel.
  intros Hx Hseg Hsin Hcos (Hq & Hk & Hv & Hproj & Hw1 & Hw2 & Hg1 & Hg2)
         (Hkn & Hvn & Hks & Hvs & Hlen) Hidx.
  destruct (lookup_lt_is_Some_2 (KVCache.k c) idx ltac:(lia)) as [cache_k Hck].
  destruct (lookup_lt_is_Some_2 (KVCache.v c) idx ltac:(lia)) as [cache_v Hcv].
  pose proof (proj1 (Forall_lookup _ _) Hks idx cache_k Hck) as Hcks.
  pose proof (proj1 (Forall_lookup _ _) Hvs idx cache_v Hcv) as Hcvs.
  cbv beta in Hcks, Hcvs.
  unfold forward_layer.
  destruct (rms_norm_spec x (Layer.gamma1 layer) B T D Hx Hg1)
    as (attn_in & -> & Hai & _).
  cbn [bind].
  destruct (einsum_btd_dhq_bhtq_shape attn_in (Layer.q layer) B T D H (2 * h) Hai Hq)
    as (q0 & -> & Hq0).
  cbn [bind].
  destruct (einsum_btd_dhq_bhtq_shape attn_in (Layer.k layer) B T D H (2 * h) Hai Hk)
    as (k0 & -> & Hk0).
  cbn [bind].
  destruct (einsum_btd_dhq_bhtq_shape attn_in (Layer.v layer) B T D H (2 * h) Hai Hv)
    as (v0 & -> & Hv0).
  cbn [bind].
  destruct (apply_rotary_embedding_spec q0 sin cos B H T h Hq0 Hsin Hcos)
    as (q1 & -> & Hq1 & _).
  cbn [bind].
  destruct (apply_rotary_embedding_spec k0 sin cos B H T h Hk0 Hsin Hcos)
    as (k1 & -> & Hk1 & _).
  cbn [bind].
  destruct (cache_update_spec k1 v0 segment_ids idx c cache_k cache_v B H T Tmax (2 * h)
              Hck Hcv Hk1 Hv0 Hseg Hcks Hcvs Hlen HT)
    as (k' & v' & ks & -> & Hk' & Hv' & Hkss & _).
  cbn [bind]. rewrite Hkernel.
  destruct (attention_spec q1 k' v' (nonzero segment_ids) ks (KVCache.lengths c) cfg
              B H T Tmax (2 * h) (2 * h) Hq1 Hk' Hv')
    as (attn_out & -> & Hao & _);
    [unfold nonzero, tmap; cbn [shape]; exact Hseg | exact Hkss | exact Hlen | lia
    | exact HTmax |].
  cbn [bind].
  destruct (einsum_bhtq_hqd_btd_shape attn_out (Layer.proj layer) B H T (2 * h) D
              Hao Hproj) as (proj_out & -> & Hpo).
  cbn [bind].
  destruct (broadcast2_same_shape Rplus x proj_out [B; T; D] Hx Hpo)
    as (x1 & -> & Hx1 & _).
  cbn [bind].
  destruct (rms_norm_spec x1 (Layer.gamma2 layer) B T D Hx1 Hg2)
    as (ff_in & -> & Hfi & _).
  cbn [bind].
  destruct (einsum_btd_df_btf_shape ff_in (Layer.w1 layer) B T D F Hfi Hw1)
    as (ff1 & -> & Hff1).
  cbn [bind].
  destruct (einsum_btd_df_btf_shape (tmap gelu ff1) (Layer.w2 layer) B T F D Hff1 Hw2)
    as (ff2 & -> & Hff2).
  cbn [bind].
  destruct (broadcast2_same_shape Rplus x1 ff2 [B; T; D] Hx1 Hff2)
    as (x2 & -> & Hx2 & _).
  cbn [bind]. eexists _, _, _. split; [reflexivity |].
  split; [exact Hx2 |]. split; [exact Hk' | exact Hv'].
Qed.

Lemma forward_layers_cache_shape (layers : list Layer.t) :
  forall (x : tensor R) (segment_ids : tensor Z) (sin cos : tensor R) (idx : nat)
         (c : KVCache.t),
    shape x = [B; T; D] -> shape segment_ids = [B; T] ->
    shape sin = [B; T; h] -> shape cos = [B; T; h] ->
    Forall (layer_shapes D H (2 * h) F) layers ->
    cache_shapes B H (2 * h) Tmax n c -> idx + length layers <= n ->
    exists x' c',
      forward_layers flash_attention x segment_ids layers sin cos idx cfg (Some c)
      = (Ok x', Some c') /\
      shape x' = [B; T; D] /\ cache_shapes B H (2 * h) Tmax n c' /\
      KVCache.lengths c' = KVCache.lengths c.
Proof using HT HTmax Hh Hkernel.
  induction layers as [| layer layers IH];
    intros x segment_ids sin cos idx c Hx Hseg Hsin Hcos Hall Hc Hidx.
  - exists x, c. split; [reflexivity |]. split; [exact Hx |]. split; [exact Hc |].
    reflexivity.
  - inversion Hall as [| ? ? Hlayer Hrest]; subst. cbn [length] in Hidx.
    destruct (forward_layer_cache_shape x segment_ids layer sin cos idx c Hx Hseg Hsin
                Hcos Hlayer Hc ltac:(lia)) as (x' & k & v & Hrun & Hx' & Hk & Hv).
    destruct Hc as (Hkn & Hvn & Hks & Hvs & Hlen).
    set (c1 := {| KVCache.k := <[idx := k]> (KVCache.k c);
                  KVCache.v := <[idx := v]> (KVCache.v c);
                  KVCache.lengths := KVCache.lengths c |}).
    assert (Hc1 : cache_shapes B H (2 * h) Tmax n c1).
    { unfold cache_shapes, c1. cbn [KVCache.k KVCache.v KVCache.lengths].
      rewrite !length_insert.
      split; [exact Hkn |]. split; [exact Hvn |].
      split; [apply Forall_insert; assumption |].
      split; [apply Forall_insert; assumption | exact Hlen]. }
    destruct (IH x' segment_ids sin cos (S idx) c1 Hx' Hseg Hsin Hcos Hrest Hc1
                ltac:(lia)) as (x'' & c' & Hrun' & Hx'' & Hc' & Hlen').
    exists x'', c'. split; [| split; [exact Hx'' |]; split; [exact Hc' | exact Hlen']].
    cbn [forward_layers]. unfold bindM, get, lift, put, ret, list_set.
    rewrite Hrun.
    destruct (Nat.ltb_spec idx (length (KVCache.k c))) as [_ |]; [| lia].
    destruct (Nat.ltb_spec idx (length (KVCache.v c))) as [_ |]; [| lia].
    exact Hrun'.
Qed.

Lemma forward_cache_spec (x segment_ids : tensor Z) (weights : Weights.t)
    (c : KVCache.t) (Vocab V : nat) :
  shape x = [B; T] -> shape segment_ids = [B; T] ->
  weights_shapes Vocab D H (2 * h) F V weights ->
  cache_shapes B H (2 * h) Tmax n c -> length (Weights.layers weights) <= n ->
  key_dim cfg = 2 * h -> T <= max_seq_len cfg ->
  exists logits c' cs,
    forward flash_attention x segment_ids weights cfg (Some c)
    = (Ok (logits, Some c'), Some cs) /\
    shape logits = [B; T; V] /\ cache_shapes B H (2 * h) Tmax n c'.
Proof using HT HTmax Hh Hkernel.
  intros Hx Hseg (Hlayers & Hemb & Hvp) Hc Hn Hkd Hlen.
  rewrite forward_with_cache. cbv zeta.
  unfold take_rows, ndim. cbn [shape]. rewrite Hx, Hemb.
  cbn [app tail length Nat.leb check nth].
  destruct (generate_fixed_pos_embedding_spec (key_dim cfg) (max_seq_len cfg)
              default_min_timescale default_max_timescale) as (Hs & Hc' & _).
  assert (Hhalf : (key_dim cfg + 1) / 2 = h).
  { rewrite Hkd. replace (2 * h + 1) with (1 + h * 2) by lia.
    rewrite Nat.div_add by lia. reflexivity. }
  rewrite Hhalf in Hs, Hc'.
  pose proof Hc as (_ & _ & _ & _ & Hlengths).
  destruct (slices_at_shape _ (KVCache.lengths c) (max_seq_len cfg) h B T Hs Hlengths
              Hlen) as (sin' & -> & Hsin').
  destruct (slices_at_shape _ (KVCache.lengths c) (max_seq_len cfg) h B T Hc' Hlengths
              Hlen) as (cos' & -> & Hcos').
  match goal with
  | |- context [forward_layers flash_attention ?x0 segment_ids _ sin' cos' 0 cfg _] =>
      destruct (forward_layers_cache_shape (Weights.layers weights) x0 segment_ids
                  sin' cos' 0 c)
        as (x1 & c1 & -> & Hx1 & Hc1 & Hl1);
        [reflexivity | exact Hseg | exact Hsin' | exact Hcos' | exact Hlayers
        | exact Hc | lia |]
  end.
  destruct (einsum_btd_df_btf_shape x1 (Weights.vocab_proj weights) B T D V Hx1 Hvp)
    as (logits & -> & Hlogits).
  destruct Hc1 as (Hkn & Hvn & Hks & Hvs & Hl).
  destruct (broadcast2_vectors add32 (KVCache.lengths c1)
              (sum_last32 (nonzero segment_ids)) B Hl) as (lengths' & -> & Hls & _).
  { unfold sum_last32, nonzero, tmap. cbn [shape]. rewrite Hseg. reflexivity. }
  eexists logits, _, c1. split; [reflexivity |]. split; [exact Hlogits |].
  unfold cache_shapes. cbn [KVCache.k KVCache.v KVCache.lengths].
  repeat split; assumption.
Qed.

(** X24.  On tokens, weights and a cache of the expected shapes, without the
    kernel, [forward] raises no exception for a chunk of at most [Tmax] and
    at most [max_seq_len] positions, whatever the lengths in the cache, also
    when the chunk does not fit behind them: it returns logits of shape
    [B, T, V] and a cache of the same shapes. *)
Theorem forward_with_cache_returns (x segment_ids : tensor Z) (weights : Weights.t)
    (c : KVCache.t) (Vocab V : nat) :
  shape x = [B; T] -> shape segment_ids = [B; T] ->
  weights_shapes Vocab D H (2 * h) F V weights ->
  cache_shapes B H (2 * h) Tmax n c -> length (Weights.layers weights) <= n ->
  key_dim cfg = 2 * h -> T <= max_seq_len cfg ->
  exists logits c' cs,
    forward flash_attention x segment_ids weights cfg (Some c)
    = (Ok (logits, Some c'), Some cs) /\
    shape logits = [B; T; V] /\ cache_shapes B H (2 * h) Tmax n c'.
Proof using HT HTmax Hh Hkernel.
  exact (forward_cache_spec x segment_ids weights c Vocab V).
Qed.

End ForwardCacheShapes.

Lemma reference_cache_shapes : cache_shapes 1 1 (2 * 1) 4 1 reference_cache.
Proof.
  unfold cache_shapes, reference_cache, KVCache.init.
  cbn [KVCache.k KVCache.v KVCache.lengths reference_cfg num_layers key_heads key_dim
       repeat length].
  repeat split; repeat constructor.
Qed.

Lemma forward_with_cache_returns_witness :
  exists logits c' cs,
    forward no_flash_attention reference_chunk reference_chunk reference_weights
            reference_cfg (Some reference_cache) = (Ok (logits, Some c'), Some cs) /\
    shape logits = [1; 2; 3].
Proof.
  destruct (forward_with_cache_returns no_flash_attention 1 2 2 1 1 2 4 1 reference_cfg
              ltac:(lia) ltac:(lia) ltac:(lia) eq_refl reference_chunk reference_chunk
              reference_weights reference_cache 3 3)
    as (logits & c' & cs & Hrun & Hshape & _);
    [reflexivity | reflexivity | exact reference_weights_shapes
    | exact reference_cache_shapes | cbn; lia | reflexivity | cbn; lia |].
  exists logits, c', cs. split; [exact Hrun | exact Hshape].
Defined.

(** ** The non-zero tokens of a padded prompt *)





(** ** Token ids outside the vocabulary *)

Lemma gather_index_cases (n : nat) (i : Z) :
  0 < n ->
  gather_index n i < n /\
  ((0 <= i < Z.of_nat n)%Z -> gather_index n i = Z.to_nat i) /\
  ((Z.of_nat n <= i)%Z -> gather_index n i = n - 1) /\
  ((- Z.of_nat n <= i < 0)%Z -> gather_index n i = Z.to_nat (i + Z.of_nat n)) /\
  ((i < - Z.of_nat n)%Z -> gather_index n i = 0).
Proof.
  intros Hn. unfold gather_index, clamp.
  destruct (Z.ltb_spec i 0); repeat split; intros; lia.
Qed.

Lemma gather_index_idempotent (n : nat) (i : Z) :
  gather_index n (Z.of_nat (gather_index n i)) = gather_index n i.
Proof.
  unfold gather_index, clamp.
  destruct (Z.ltb_spec i 0);
    match goal with
    | |- context [(Z.of_nat ?a <? 0)%Z] => destruct (Z.ltb_spec (Z.of_nat a) 0)
    end; lia.
Qed.

(** X27.  A token id outside the vocabulary is not refused.  [forward]
    reads the last row of the embedding for an id that is too large, counts
    a negative id from the end of the table, and reads the first row for an
    id below minus the number of rows: its result is that for the ids of the
    rows read. *)
Theorem forward_token_ids_clamped
    (flash_attention : tensor R -> tensor R -> tensor R -> tensor Z -> tensor Z -> bool
                       -> R -> result (tensor R))
    (x segment_ids : tensor Z) (weights : Weights.t) (cfg : Config) (s : store)
    (Vocab : nat) :
  shape (Weights.embedding weights) @ 0 = Vocab -> 0 < Vocab ->
  forward flash_attention (tmap (normalize_token Vocab) x) segment_ids weights cfg s
  = forward flash_attention x segment_ids weights cfg s /\
  forall id : Z,
    (0 <= normalize_token Vocab id < Z.of_nat Vocab)%Z /\
    ((0 <= id < Z.of_nat Vocab)%Z -> normalize_token Vocab id = id) /\
    ((Z.of_nat Vocab <= id)%Z -> normalize_token Vocab id = (Z.of_nat Vocab - 1)%Z) /\
    ((- Z.of_nat Vocab <= id < 0)%Z -> normalize_token Vocab id = (id + Z.of_nat Vocab)%Z) /\
    ((id < - Z.of_nat Vocab)%Z -> normalize_token Vocab id = 0%Z).
Proof.
  intros Hrows HVocab. split.
  - assert (Heq : take_rows (Weights.embedding weights) (tmap (normalize_token Vocab) x)
                  = take_rows (Weights.embedding weights) x).
    { unfold take_rows, tmap, ndim. cbn [shape data]. f_equal.
      apply functional_extensionality. intros i. rewrite Hrows.
      unfold normalize_token. rewrite gather_index_idempotent. reflexivity. }
    unfold forward. rewrite Heq. reflexivity.
  - intros id. unfold normalize_token.
    destruct (gather_index_cases Vocab id HVocab) as (Hlt & Hin & Hhi & Hneg & Hlo).
    split; [lia |]. split; [intros Hr; rewrite (Hin Hr); lia |].
    split; [intros Hr; rewrite (Hhi Hr); lia |].
    split; [intros Hr; rewrite (Hneg Hr); lia |].
    intros Hr. rewrite (Hlo Hr). reflexivity.
Qed.

Lemma forward_token_ids_clamped_witness :
  forward no_flash_attention (tmap (normalize_token 3) (full [1; 2] 7%Z)) reference_chunk
          reference_weights reference_cfg None
  = forward no_flash_attention (full [1; 2] 7%Z) reference_chunk reference_weights
            reference_cfg None /\
  normalize_token 3 7 = 2%Z.
Proof.
  destruct (forward_token_ids_clamped no_flash_attention (full [1; 2] 7%Z) reference_chunk
              reference_weights reference_cfg None 3) as [Hrun Hids];
    [reflexivity | lia |].
  split; [exact Hrun |].
  destruct (Hids 7%Z) as (_ & _ & Hhi & _). apply Hhi. lia.
Defined.

(** ** The kernel and [cfg.causal] *)

Section KernelCausal.

Variable flash_attention :
  tensor R -> tensor R -> tensor R -> tensor Z -> tensor Z -> bool -> R -> result (tensor R).




End KernelCausal.


(** ** A query without any key to attend *)

Lemma softmax_row_const (n : nat) (c : R) (j : nat) :
  0 < n -> softmax_row n (fun _ => c) j = (/ INR n)%R.
Proof.
  intros Hn. unfold softmax_row.
  rewrite (rmax_const n (fun _ => c) c Hn) by reflexivity.
  rewrite Rminus_diag, exp_0, rsum_const, Rmult_1_r.
  unfold Rdiv. apply Rmult_1_l.
Qed.

(** X29.  A query whose keys are all masked does not give an undefined
    row: all its scores are the sentinel, the softmax weighs every key alike,
    and the output is the mean of the values over all the keys, the masked
    ones. *)
Theorem attention_fully_masked (q k v : tensor R)
    (q_segment_ids k_segment_ids q_offset : tensor Z) (cfg : Config)
    (B H t T D Dv : nat) (b hd i : nat) :
  shape q = [B; H; t; D] -> shape k = [B; H; T; D] -> shape v = [B; H; T; Dv] ->
  shape q_segment_ids = [B; t] -> shape k_segment_ids = [B; T] ->
  shape q_offset = [B] -> D <> 0 -> T <> 0 ->
  b < B -> hd < H -> i < t ->
  (forall j, j < T ->
     allowed q_segment_ids k_segment_ids q_offset (causal cfg) b i j = false) ->
  exists out,
    attention q k v q_segment_ids k_segment_ids q_offset cfg = Ok out /\
    forall d, d < Dv ->
      out.[[b; hd; i; d]] = (rsum T (fun j => v.[[b; hd; j; d]]) / INR T)%R.
Proof.
  intros Hq Hk Hv Hqs Hks Hqo HD HT Hb Hhd Hi Hmasked.
  destruct (attention_spec q k v q_segment_ids k_segment_ids q_offset cfg
              B H t T D Dv Hq Hk Hv Hqs Hks Hqo HD HT) as (out & Hout & _ & Hod).
  exists out. split; [exact Hout |].
  intros d Hd. rewrite (Hod b hd i d Hb Hhd Hi Hd).
  rewrite (rsum_ext T _ (fun j => v.[[b; hd; j; d]] * / INR T)%R).
  - rewrite rsum_scal_r. reflexivity.
  - intros j Hj.
    rewrite (softmax_row_ext T _ (fun _ => mask_value) j Hj).
    + rewrite softmax_row_const by lia. ring.
    + intros j' Hj'. unfold masked_score. rewrite (Hmasked j' Hj'). reflexivity.
Qed.

Lemma attention_fully_masked_witness :
  exists out,
    attention (ones [1; 1; 2; 2]) (ones [1; 1; 2; 2]) (full [1; 1; 2; 2] 7%R)
              (full [1; 2] 1%Z) (full [1; 2] 2%Z) (full [1] 0%Z) reference_cfg = Ok out /\
    forall d, d < 2 ->
      out.[[0; 0; 1; d]]
      = Rdiv (rsum 2 (fun j => (full [1; 1; 2; 2] 7%R).[[0; 0; j; d]])) (INR 2).
Proof.
  apply (attention_fully_masked _ _ _ _ _ _ reference_cfg 1 1 2 2 2 2 0 0 1);
    try reflexivity; try lia; try discriminate.
Defined.

(** ** Labels that are not classes *)

Lemma zsum32_zero (n : nat) (f : nat -> Z) :
  (forall j, j < n -> f j = 0%Z) -> zsum32 n f = 0%Z.
Proof.
  induction n as [| n IH]; intros Hf; [reflexivity |].
  cbn [zsum32]. rewrite IH by (intros; apply Hf; lia). rewrite Hf by lia.
  reflexivity.
Qed.

Lemma rsum_zero (n : nat) (f : nat -> R) :
  (forall j, j < n -> f j = 0%R) -> rsum n f = 0%R.
Proof.
  induction n as [| n IH]; intros Hf; [reflexivity |].
  cbn [rsum]. rewrite IH by (intros; apply Hf; lia). rewrite Hf by lia. ring.
Qed.

Lemma token_outside (logits : tensor R) (labels : tensor Z) (V b t : nat) :
  0 < V -> (labels.[[b; t]] < 0 \/ Z.of_nat V <= labels.[[b; t]])%Z ->
  token_loss logits labels V b t = 0%R /\ token_hit logits labels V b t = false.
Proof.
  intros HV Hout. unfold token_loss, token_hit. split.
  - destruct (Z.leb_spec 0 labels.[[b; t]]); cbn [andb]; [| reflexivity].
    destruct (Z.ltb_spec labels.[[b; t]] (Z.of_nat V)); [lia | reflexivity].
  - destruct (argmax_fn_spec V (fun j => logits.[[b; t; j]]) HV) as (Hlt & _).
    apply Z.eqb_neq. lia.
Qed.

(** X30.  A label that is not a class, negative or not below the number of
    classes, is not refused: its position has the loss 0 and never counts as
    a correct prediction, though it counts among the valid tokens.  When no
    label is a class the loss and the accuracy are 0, whatever the logits. *)
Theorem cross_entropy_loss_labels_outside (logits : tensor R) (labels mask : tensor Z)
    (internals : dict) (B T V b0 t0 : nat) :
  shape logits = [B; T; V] -> shape labels = [B; T] -> shape mask = [B; T] -> 0 < V ->
  (forall b t, b < B -> t < T -> (0 <= mask.[[b; t]] <= 1)%Z) ->
  (Z.of_nat (B * T) <= int32_max)%Z ->
  b0 < B -> t0 < T -> mask.[[b0; t0]] = 1%Z ->
  exists loss accuracy per_token_loss,
    cross_entropy_loss logits labels mask (Some internals)
    = Ok (loss, accuracy, Some (dict_set "per_token_loss" per_token_loss internals)) /\
    (forall b t, b < B -> t < T ->
       (labels.[[b; t]] < 0 \/ Z.of_nat V <= labels.[[b; t]])%Z ->
       per_token_loss.[[b; t]] = 0%R) /\
    ((forall b t, b < B -> t < T ->
        (labels.[[b; t]] < 0 \/ Z.of_nat V <= labels.[[b; t]])%Z) ->
     loss = 0%R /\ accuracy = 0%R).
Proof.
  intros Hlogits Hlabels Hmask HV Hflags Hmax Hb0 Ht0 Hone.
  destruct (cross_entropy_loss_spec logits labels mask (Some internals) B T V
              Hlogits Hlabels Hmask HV) as (ptl & Hrun & _ & Hptl).
  eexists _, _, ptl. split; [exact Hrun |]. split.
  - intros b t Hb Ht Hout. rewrite (Hptl b t Hb Ht).
    destruct (token_outside logits labels V b t HV Hout) as [-> _]. ring.
  - intros Hall. split.
    + unfold mean_loss. rewrite rsum_zero; [unfold Rdiv; ring |].
      intros b Hb. apply rsum_zero. intros t Ht.
      destruct (token_outside logits labels V b t HV (Hall b t Hb Ht)) as [-> _]. ring.
    + unfold mean_accuracy. rewrite zsum32_zero; [unfold Rdiv; ring |].
      intros b Hb. apply zsum32_zero. intros t Ht.
      destruct (token_outside logits labels V b t HV (Hall b t Hb Ht)) as [_ ->].
      reflexivity.
Qed.

Lemma cross_entropy_loss_labels_outside_witness :
  exists loss accuracy per_token_loss,
    cross_entropy_loss (full [1; 2; 2] 0%R) (full [1; 2] 5%Z)
                       (expand_dims (of_list 0%Z [1%Z; 0%Z]) 0) (Some [])
    = Ok (loss, accuracy, Some (dict_set "per_token_loss" per_token_loss [])) /\
    loss = 0%R /\ accuracy = 0%R.
Proof.
  destruct (cross_entropy_loss_labels_outside (full [1; 2; 2] 0%R) (full [1; 2] 5%Z)
              (expand_dims (of_list 0%Z [1%Z; 0%Z]) 0) [] 1 2 2 0 0)
    as (loss & acc & ptl & Hrun & _ & Hall);
    [reflexivity | reflexivity | reflexivity | lia | | unfold int32_max; cbn; lia
    | lia | lia | reflexivity |].
  - intros b t Hb Ht. assert (b = 0) as -> by lia.
    destruct t as [| [| t]]; [cbn; lia | cbn; lia | lia].
  - exists loss, acc, ptl. split; [exact Hrun |].
    apply Hall. intros b t _ _. right. cbn. lia.
Defined.

(** ** Sampling hands probabilities to a sampler of logits *)








(** ** The cache that the forward pass returns *)

Lemma layer_queries_keys_values_shape (x : tensor R) (layer : Layer.t) (sin cos : tensor R)
    (B T D H h F : nat) :
  shape x = [B; T; D] -> shape sin = [B; T; h] -> shape cos = [B; T; h] ->
  layer_shapes D H (2 * h) F layer ->
  exists q k v,
    layer_queries_keys_values x layer sin cos = Ok (q, k, v) /\
    shape q = [B; H; T; 2 * h] /\ shape k = [B; H; T; 2 * h] /\
    shape v = [B; H; T; 2 * h] /\
    forall b hd t d, b < B -> hd < H -> t < T -> d < 2 * h ->
      v.[[b; hd; t; d]]
      = rsum D (fun j =>
          (Layer.gamma1 layer).[[j]] * x.[[b; t; j]]
          / sqrt (rsum D (fun j' => x.[[b; t; j']] ^ 2) / INR D + 1e-6)
          * (Layer.v layer).[[j; hd; d]])%R.
Proof.
  intros Hx Hsin Hcos (Hq & Hk & Hv & Hproj & Hw1 & Hw2 & Hg1 & Hg2).
  unfold layer_queries_keys_values.
  destruct (rms_norm_spec x (Layer.gamma1 layer) B T D Hx Hg1)
    as (attn_in & -> & Hai & Haid).
  cbn [bind].
  destruct (einsum_btd_dhq_bhtq_shape attn_in (Layer.q layer) B T D H (2 * h) Hai Hq)
    as (q0 & -> & Hq0).
  cbn [bind].
  destruct (einsum_btd_dhq_bhtq_shape attn_in (Layer.k layer) B T D H (2 * h) Hai Hk)
    as (k0 & -> & Hk0).
  cbn [bind].
  unfold einsum_btd_dhq_bhtq at 1. rewrite Hai, Hv, Nat.eqb_refl. cbn [bind].
  destruct (apply_rotary_embedding_spec q0 sin cos B H T h Hq0 Hsin Hcos)
    as (q1 & -> & Hq1 & _).
  cbn [bind].
  destruct (apply_rotary_embedding_spec k0 sin cos B H T h Hk0 Hsin Hcos)
    as (k1 & -> & Hk1 & _).
  cbn [bind]. eexists _, _, _. split; [reflexivity |].
  split; [exact Hq1 |]. split; [exact Hk1 |]. split; [reflexivity |].
  intros b hd t d Hb Hhd Ht Hd. cbn [data nth]. apply rsum_ext.
  intros j Hj. rewrite (Haid b t j Hb Ht Hj). reflexivity.
Qed.

Lemma layer_output_shape (x attn_out : tensor R) (layer : Layer.t) (B T D H h F : nat) :
  shape x = [B; T; D] -> shape attn_out = [B; H; T; 2 * h] ->
  layer_shapes D H (2 * h) F layer ->
  exists x', layer_output x attn_out layer = Ok x' /\ shape x' = [B; T; D].
Proof.
  intros Hx Hao (Hq & Hk & Hv & Hproj & Hw1 & Hw2 & Hg1 & Hg2).
  unfold layer_output.
  destruct (einsum_bhtq_hqd_btd_shape attn_out (Layer.proj layer) B H T (2 * h) D
              Hao Hproj) as (proj_out & -> & Hpo).
  cbn [bind].
  destruct (broadcast2_same_shape Rplus x proj_out [B; T; D] Hx Hpo)
    as (x1 & -> & Hx1 & _).
  cbn [bind].
  destruct (rms_norm_spec x1 (Layer.gamma2 layer) B T D Hx1 Hg2)
    as (ff_in & -> & Hfi & _).
  cbn [bind].
  destruct (einsum_btd_df_btf_shape ff_in (Layer.w1 layer) B T D F Hfi Hw1)
    as (ff1 & -> & Hff1).
  cbn [bind].
  destruct (einsum_btd_df_btf_shape (tmap gelu ff1) (Layer.w2 layer) B T F D Hff1 Hw2)
    as (ff2 & -> & Hff2).
  cbn [bind].
  destruct (broadcast2_same_shape Rplus x1 ff2 [B; T; D] Hx1 Hff2)
    as (x2 & -> & Hx2 & _).
  exists x2. split; [reflexivity | exact Hx2].
Qed.

(** With a cache, [forward_layer] is the composition of its parts: the
    queries, keys and values of the chunk, the update of the cache, the
    attention over the updated keys and values, and the rest of the layer. *)
Lemma forward_layer_steps
    (flash_attention : tensor R -> tensor R -> tensor R -> tensor Z -> tensor Z -> bool
                       -> R -> result (tensor R))
    (x : tensor R) (segment_ids : tensor Z) (layer : Layer.t) (sin cos : tensor R)
    (idx : nat) (cfg : Config) (c : KVCache.t) :
  forward_layer flash_attention x segment_ids layer sin cos idx cfg (Some c)
  = let* (q, k, v) := layer_queries_keys_values x layer sin cos in
    let* (k', v', q_segment_ids, k_segment_ids, q_offset) :=
      cache_update k v segment_ids idx c in
    let* attn_out :=
      if use_attn_kernel cfg then Raise (ValueError "Kernel is only for training.")
      else attention q k' v' q_segment_ids k_segment_ids q_offset cfg in
    let* x' := layer_output x attn_out layer in
    Ok (x', k', v').
Proof.
  unfold forward_layer, layer_queries_keys_values, layer_output.
  destruct (rms_norm x (Layer.gamma1 layer)) as [attn_in |]; [| reflexivity].
  cbn [bind].
  destruct (einsum_btd_dhq_bhtq attn_in (Layer.q layer)) as [q0 |]; [| reflexivity].
  cbn [bind].
  destruct (einsum_btd_dhq_bhtq attn_in (Layer.k layer)) as [k0 |]; [| reflexivity].
  cbn [bind].
  destruct (einsum_btd_dhq_bhtq attn_in (Layer.v layer)) as [v0 |]; [| reflexivity].
  cbn [bind].
  destruct (apply_rotary_embedding q0 sin cos) as [q1 |]; [| reflexivity].
  cbn [bind].
  destruct (apply_rotary_embedding k0 sin cos) as [k1 |]; [| reflexivity].
  cbn [bind].
  destruct (cache_update k1 v0 segment_ids idx c) as [[[[[k' v'] qs] ks] qo] |];
    [| reflexivity].
  cbn [bind].
  destruct (use_attn_kernel cfg); [reflexivity |].
  destruct (attention q1 k' v' qs ks qo cfg) as [attn_out |]; [| reflexivity].
  cbn [bind].
  destruct (einsum_bhtq_hqd_btd attn_out (Layer.proj layer)) as [proj_out |];
    [| reflexivity].
  cbn [bind].
  destruct (broadcast2 Rplus x proj_out) as [x1 |]; [| reflexivity].
  cbn [bind].
  destruct (rms_norm x1 (Layer.gamma2 layer)) as [ff_in |]; [| reflexivity].
  cbn [bind].
  destruct (einsum_btd_df_btf ff_in (Layer.w1 layer)) as [ff1 |]; [| reflexivity].
  cbn [bind].
  destruct (einsum_btd_df_btf (tmap gelu ff1) (Layer.w2 layer)) as [ff2 |];
    [| reflexivity].
  cbn [bind].
  destruct (broadcast2 Rplus x1 ff2) as [x2 |]; reflexivity.
Qed.

(** The layers of a prefix run first, on the same cache object. *)
Lemma forward_layers_app
    (flash_attention : tensor R -> tensor R -> tensor R -> tensor Z -> tensor Z -> bool
                       -> R -> result (tensor R))
    (segment_ids : tensor Z) (sin cos : tensor R) (cfg : Config)
    (layers1 layers2 : list Layer.t) :
  forall (x : tensor R) (idx : nat) (s : store),
    forward_layers flash_attention x segment_ids (layers1 ++ layers2) sin cos idx cfg s
    = match forward_layers flash_attention x segment_ids layers1 sin cos idx cfg s with
      | (Ok x1, s1) =>
          forward_layers flash_attention x1 segment_ids layers2 sin cos
                         (idx + length layers1) cfg s1
      | (Raise e, s1) => (Raise e, s1)
      end.
Proof.
  induction layers1 as [| layer layers1 IH]; intros x idx s.
  - cbn [app forward_layers length]. unfold ret. rewrite Nat.add_0_r. reflexivity.
  - cbn [app forward_layers length]. unfold bindM, get, lift, put, ret.
    destruct (forward_layer flash_attention x segment_ids layer sin cos idx cfg s)
      as [[[x' k'] v'] |]; [| reflexivity].
    replace (idx + S (length layers1)) with (S idx + length layers1) by lia.
    destruct s as [c |]; [| apply IH].
    destruct (list_set (KVCache.k c) idx k') as [ks |]; [| reflexivity].
    destruct (list_set (KVCache.v c) idx v') as [vs |]; [| reflexivity].
    apply IH.
Qed.

(** The layers from [idx] on assign to the entries from [idx] on only. *)
Lemma forward_layers_frame
    (flash_attention : tensor R -> tensor R -> tensor R -> tensor Z -> tensor Z -> bool
                       -> R -> result (tensor R))
    (segment_ids : tensor Z) (sin cos : tensor R) (cfg : Config) (layers : list Layer.t) :
  forall (x : tensor R) (idx : nat) (c : KVCache.t) (r : result (tensor R)) (s : store),
    forward_layers flash_attention x segment_ids layers sin cos idx cfg (Some c) = (r, s) ->
    exists c', s = Some c' /\
      forall i, i < idx \/ idx + length layers <= i ->
        KVCache.k c' !! i = KVCache.k c !! i /\ KVCache.v c' !! i = KVCache.v c !! i.
Proof.
  induction layers as [| layer layers IH]; intros x idx c r s Hrun.
  - cbn in Hrun. injection Hrun as <- <-. exists c. split; [reflexivity |].
    intros i _. split; reflexivity.
  - cbn [forward_layers length] in *. unfold bindM, get, lift, put, ret, list_set in Hrun.
    destruct (forward_layer flash_attention x segment_ids layer sin cos idx cfg (Some c))
      as [[[x' k'] v'] | e].
    + destruct (idx <? length (KVCache.k c)).
      * destruct (idx <? length (KVCache.v c)).
        -- apply IH in Hrun. destruct Hrun as (c' & -> & Hframe).
           exists c'. split; [reflexivity |]. intros i Hi.
           destruct (Hframe i ltac:(lia)) as [Hk Hv].
           cbn [KVCache.k KVCache.v] in Hk, Hv.
           rewrite list_lookup_insert_ne in Hk by lia.
           rewrite list_lookup_insert_ne in Hv by lia.
           split; assumption.
        -- injection Hrun as <- <-. eexists. split; [reflexivity |].
           intros i Hi. cbn [KVCache.k KVCache.v].
           rewrite list_lookup_insert_ne by lia. split; reflexivity.
      * injection Hrun as <- <-. exists c. split; [reflexivity |].
        intros i _. split; reflexivity.
    + injection Hrun as <- <-. exists c. split; [reflexivity |].
      intros i _. split; reflexivity.
Qed.

(** What [cache_update] leaves in one row [b] of the cache: the key-segment
    ids are 1 exactly below [bound], the keys and values are zero from
    [bound] on, and when the chunk fits behind the length of the row they are
    the previous content before the length and the chunk from the length on. *)
Lemma cache_update_row (k v : tensor R) (segment_ids : tensor Z) (idx : nat)
    (cache : KVCache.t) (cache_k cache_v : tensor R) (B Hk T Tmax D : nat)
    (k' v' : tensor R) (q_segment_ids k_segment_ids q_offset : tensor Z) (b : nat) :
  KVCache.k cache !! idx = Some cache_k -> KVCache.v cache !! idx = Some cache_v ->
  shape k = [B; Hk; T; D] -> shape v = [B; Hk; T; D] -> shape segment_ids = [B; T] ->
  shape cache_k = [B; Hk; Tmax; D] -> shape cache_v = [B; Hk; Tmax; D] ->
  shape (KVCache.lengths cache) = [B] ->
  T <= Tmax -> (Z.of_nat Tmax <= int32_max)%Z ->
  cache_update k v segment_ids idx cache
  = Ok (k', v', q_segment_ids, k_segment_ids, q_offset) ->
  b < B ->
  let len := (KVCache.lengths cache).[[b]] in
  let bound := add32 len (Z.of_nat (count_nonzero segment_ids b T)) in
  (forall tau, tau < Tmax ->
     k_segment_ids.[[b; tau]] = if (Z.of_nat tau <? bound)%Z then 1%Z else 0%Z) /\
  (forall hd tau d, hd < Hk -> tau < Tmax -> d < D -> (bound <= Z.of_nat tau)%Z ->
     k'.[[b; hd; tau; d]] = 0%R /\ v'.[[b; hd; tau; d]] = 0%R) /\
  ((0 <= len)%Z -> (len + Z.of_nat T <= Z.of_nat Tmax)%Z ->
   bound = (len + Z.of_nat (count_nonzero segment_ids b T))%Z /\
   forall hd tau d, hd < Hk -> tau < Tmax -> d < D ->
     ((Z.of_nat tau < len)%Z ->
      k'.[[b; hd; tau; d]] = cache_k.[[b; hd; tau; d]] /\
      v'.[[b; hd; tau; d]] = cache_v.[[b; hd; tau; d]]) /\
     (forall t, t < T -> Z.of_nat tau = (len + Z.of_nat t)%Z ->
        (Z.of_nat tau < bound)%Z ->
        k'.[[b; hd; tau; d]] = k.[[b; hd; t; d]] /\
        v'.[[b; hd; tau; d]] = v.[[b; hd; t; d]])).
Proof.
  intros Hck Hcv Hks Hvs Hss Hcks Hcvs Hls HT Hmax Hrun Hb. cbv zeta.
  destruct (cache_update_spec k v segment_ids idx cache cache_k cache_v B Hk T Tmax D)
    as (k'' & v'' & ks & Hrun' & _ & _ & _ & Hmasks & Hdata); [assumption .. |].
  rewrite Hrun in Hrun'. injection Hrun' as <- <- _ <- _.
  pose proof (valid_tokens_count segment_ids B T b Hss ltac:(lia)) as Hcnt.
  pose proof (count_nonzero_le segment_ids b T) as Hle.
  assert (Hmask : forall tau, tau < Tmax ->
            k_segment_ids.[[b; tau]]
            = if (Z.of_nat tau
                  <? add32 (KVCache.lengths cache).[[b]]
                           (Z.of_nat (count_nonzero segment_ids b T)))%Z
              then 1%Z else 0%Z).
  { intros tau Htau. pose proof (Hmasks b tau Hb Htau) as Hm. cbv zeta in Hm.
    rewrite Hcnt in Hm. exact Hm. }
  split; [exact Hmask |]. split.
  - intros hd tau d Hhd Htau Hd Hge.
    destruct (Hdata b hd tau d Hb Hhd Htau Hd) as (Hkd & Hvd). cbv zeta in Hkd, Hvd.
    rewrite Hkd, Hvd, (Hmask tau Htau).
    destruct (Z.ltb_spec (Z.of_nat tau)
                (add32 (KVCache.lengths cache).[[b]]
                       (Z.of_nat (count_nonzero segment_ids b T)))); [lia |].
    split; apply Rmult_0_r.
  - intros Hlo Hhi.
    assert (Hbound : add32 (KVCache.lengths cache).[[b]]
                           (Z.of_nat (count_nonzero segment_ids b T))
                     = ((KVCache.lengths cache).[[b]]
                        + Z.of_nat (count_nonzero segment_ids b T))%Z).
    { apply add32_small. unfold int32_min, int32_max in *. lia. }
    split; [exact Hbound |].
    intros hd tau d Hhd Htau Hd.
    destruct (Hdata b hd tau d Hb Hhd Htau Hd) as (Hkd & Hvd). cbv zeta in Hkd, Hvd.
    rewrite slice_start_in_range in Hkd, Hvd by assumption.
    rewrite (Hmask tau Htau), Hbound in Hkd, Hvd. rewrite Hbound.
    split.
    + intros Hlt. rewrite Hkd, Hvd.
      destruct (Z.ltb_spec (Z.of_nat tau)
                  ((KVCache.lengths cache).[[b]]
                   + Z.of_nat (count_nonzero segment_ids b T))); [| lia].
      destruct (Nat.leb_spec (Z.to_nat (KVCache.lengths cache).[[b]]) tau); [lia |].
      cbn [andb]. split; apply Rmult_1_r.
    + intros t Ht Htau_eq Hlt. rewrite Hkd, Hvd.
      destruct (Z.ltb_spec (Z.of_nat tau)
                  ((KVCache.lengths cache).[[b]]
                   + Z.of_nat (count_nonzero segment_ids b T))); [| lia].
      destruct (Nat.leb_spec (Z.to_nat (KVCache.lengths cache).[[b]]) tau); [| lia].
      destruct (Nat.ltb_spec (tau - Z.to_nat (KVCache.lengths cache).[[b]]) T); [| lia].
      cbn [andb].
      replace (tau - Z.to_nat (KVCache.lengths cache).[[b]]) with t by lia.
      split; apply Rmult_1_r.
Qed.

Section ForwardCacheRows.

Variable flash_attention :
  tensor R -> tensor R -> tensor R -> tensor Z -> tensor Z -> bool -> R -> result (tensor R).

Variables (B T D H h F Tmax n : nat) (cfg : Config).
Hypothesis HT : T <= Tmax.
Hypothesis HTmax : Tmax <> 0.
Hypothesis Hh : h <> 0.
Hypothesis Hkernel : use_attn_kernel cfg = false.

(** The steps of one layer on arrays of the expected shapes. *)
Lemma forward_layer_cache_trace (x : tensor R) (segment_ids : tensor Z) (layer : Layer.t)
    (sin cos : tensor R) (idx : nat) (c : KVCache.t) :
  shape x = [B; T; D] -> shape segment_ids = [B; T] ->
  shape sin = [B; T; h] -> shape cos = [B; T; h] ->
  layer_shapes D H (2 * h) F layer ->
  cache_shapes B H (2 * h) Tmax n c -> idx < n ->
  exists q k_new v_new k' v' ks attn_out x',
    layer_queries_keys_values x layer sin cos = Ok (q, k_new, v_new) /\
    shape q = [B; H; T; 2 * h] /\
    shape k_new = [B; H; T; 2 * h] /\ shape v_new = [B; H; T; 2 * h] /\
    cache_update k_new v_new segment_ids idx c
    = Ok (k', v', nonzero segment_ids, ks, KVCache.lengths c) /\
    attention q k' v' (nonzero segment_ids) ks (KVCache.lengths c) cfg = Ok attn_out /\
    layer_output x attn_out layer = Ok x' /\
    forward_layer flash_attention x segment_ids layer sin cos idx cfg (Some c)
    = Ok (x', k', v') /\
    shape x' = [B; T; D] /\
    shape k' = [B; H; Tmax; 2 * h] /\ shape v' = [B; H; Tmax; 2 * h].
Proof using HT HTmax Hh Hkernel.
  intros Hx Hseg Hsin Hcos Hlayer (Hkn & Hvn & Hks & Hvs & Hlen) Hidx.
  destruct (lookup_lt_is_Some_2 (KVCache.k c) idx ltac:(lia)) as [cache_k Hck].
  destruct (lookup_lt_is_Some_2 (KVCache.v c) idx ltac:(lia)) as [cache_v Hcv].
  pose proof (proj1 (Forall_lookup _ _) Hks idx cache_k Hck) as Hcks.
  pose proof (proj1 (Forall_lookup _ _) Hvs idx cache_v Hcv) as Hcvs.
  cbv beta in Hcks, Hcvs.
  destruct (layer_queries_keys_values_shape x layer sin cos B T D H h F Hx Hsin Hcos
              Hlayer) as (q & k_new & v_new & Hqkv & Hq & Hk & Hv & _).
  destruct (cache_update_spec k_new v_new segment_ids idx c cache_k cache_v B H T Tmax
              (2 * h) Hck Hcv Hk Hv Hseg Hcks Hcvs Hlen HT)
    as (k' & v' & ks & Hupd & Hk' & Hv' & Hkss & _).
  destruct (attention_spec q k' v' (nonzero segment_ids) ks (KVCache.lengths c) cfg
              B H T Tmax (2 * h) (2 * h) Hq Hk' Hv')
    as (attn_out & Hattn & Hao & _);
    [unfold nonzero, tmap; cbn [shape]; exact Hseg | exact Hkss | exact Hlen | lia
    | exact HTmax |].
  destruct (layer_output_shape x attn_out layer B T D H h F Hx Hao Hlayer)
    as (x' & Hout & Hx').
  exists q, k_new, v_new, k', v', ks, attn_out, x'.
  split; [exact Hqkv |]. split; [exact Hq |]. split; [exact Hk |]. split; [exact Hv |].
  split; [exact Hupd |]. split; [exact Hattn |]. split; [exact Hout |].
  split; [| split; [exact Hx' |]; split; [exact Hk' | exact Hv']].
  rewrite forward_layer_steps, Hqkv. cbn [bind]. rewrite Hupd. cbn [bind].
  rewrite Hkernel, Hattn. cbn [bind]. rewrite Hout. reflexivity.
Qed.

(** The run of the layers, and for the layer at [idx] its input, its steps
    and the entry it leaves in the cache. *)
Lemma forward_layers_cache_trace (layers : list Layer.t) (x0 : tensor R)
    (segment_ids : tensor Z) (sin cos : tensor R) (c : KVCache.t) :
  shape x0 = [B; T; D] -> shape segment_ids = [B; T] ->
  shape sin = [B; T; h] -> shape cos = [B; T; h] ->
  Forall (layer_shapes D H (2 * h) F) layers ->
  cache_shapes B H (2 * h) Tmax n c -> length layers <= n ->
  exists x1 c1,
    forward_layers flash_attention x0 segment_ids layers sin cos 0 cfg (Some c)
    = (Ok x1, Some c1) /\
    shape x1 = [B; T; D] /\ cache_shapes B H (2 * h) Tmax n c1 /\
    KVCache.lengths c1 = KVCache.lengths c /\
    forall idx layer, layers !! idx = Some layer ->
      exists x_in c_in q k_new v_new old_k old_v k' v' ks attn_out x_out,
        forward_layers flash_attention x0 segment_ids (take idx layers) sin cos 0 cfg
                       (Some c) = (Ok x_in, Some c_in) /\
        KVCache.lengths c_in = KVCache.lengths c /\
        KVCache.k c !! idx = Some old_k /\ KVCache.v c !! idx = Some old_v /\
        KVCache.k c_in !! idx = Some old_k /\ KVCache.v c_in !! idx = Some old_v /\
        shape old_k = [B; H; Tmax; 2 * h] /\ shape old_v = [B; H; Tmax; 2 * h] /\
        layer_queries_keys_values x_in layer sin cos = Ok (q, k_new, v_new) /\
        shape q = [B; H; T; 2 * h] /\
        shape k_new = [B; H; T; 2 * h] /\ shape v_new = [B; H; T; 2 * h] /\
        cache_update k_new v_new segment_ids idx c_in
        = Ok (k', v', nonzero segment_ids, ks, KVCache.lengths c) /\
        attention q k' v' (nonzero segment_ids) ks (KVCache.lengths c) cfg
        = Ok attn_out /\
        layer_output x_in attn_out layer = Ok x_out /\
        forward_layer flash_attention x_in segment_ids layer sin cos idx cfg (Some c_in)
        = Ok (x_out, k', v') /\
        shape k' = [B; H; Tmax; 2 * h] /\ shape v' = [B; H; Tmax; 2 * h] /\
        KVCache.k c1 !! idx = Some k' /\ KVCache.v c1 !! idx = Some v'.
Proof using HT HTmax Hh Hkernel.
  intros Hx Hseg Hsin Hcos Hall Hc Hn.
  destruct (forward_layers_cache_shape flash_attention B T D H h F Tmax n cfg HT HTmax Hh
              Hkernel layers x0 segment_ids sin cos 0 c Hx Hseg Hsin Hcos Hall Hc
              ltac:(lia)) as (x1 & c1 & Hrun & Hx1 & Hc1 & Hl1).
  exists x1, c1. split; [exact Hrun |]. split; [exact Hx1 |]. split; [exact Hc1 |].
  split; [exact Hl1 |].
  intros idx layer Hlookup.
  pose proof (take_drop_middle layers idx layer Hlookup) as Hsplit.
  pose proof (lookup_lt_Some _ _ _ Hlookup) as Hlt.
  assert (Htake : length (take idx layers) = idx) by (rewrite length_take; lia).
  destruct (forward_layers_cache_shape flash_attention B T D H h F Tmax n cfg HT HTmax Hh
              Hkernel (take idx layers) x0 segment_ids sin cos 0 c Hx Hseg Hsin Hcos
              (Forall_take _ _ _ Hall) Hc ltac:(lia))
    as (x_in & c_in & Hpre & Hx_in & Hc_in & Hl_in).
  destruct (forward_layers_frame flash_attention segment_ids sin cos cfg
              (take idx layers) x0 0 c _ _ Hpre) as (c_in' & Heq & Hframe).
  injection Heq as <-.
  destruct (Hframe idx ltac:(right; lia)) as [Hfk Hfv].
  pose proof (proj1 (Forall_lookup _ _) Hall idx layer Hlookup) as Hlayer.
  cbv beta in Hlayer.
  destruct (forward_layer_cache_trace x_in segment_ids layer sin cos idx c_in Hx_in Hseg
              Hsin Hcos Hlayer Hc_in ltac:(lia))
    as (q & k_new & v_new & k' & v' & ks & attn_out & x_out & Hqkv & Hq & Hk & Hv
        & Hupd & Hattn & Hout & Hstep & Hx_out & Hk' & Hv').
  pose proof Hc as (Hkn & Hvn & Hks & Hvs & Hlen).
  destruct (lookup_lt_is_Some_2 (KVCache.k c) idx ltac:(lia)) as [old_k Hck].
  destruct (lookup_lt_is_Some_2 (KVCache.v c) idx ltac:(lia)) as [old_v Hcv].
  pose proof (proj1 (Forall_lookup _ _) Hks idx old_k Hck) as Hcks.
  pose proof (proj1 (Forall_lookup _ _) Hvs idx old_v Hcv) as Hcvs.
  cbv beta in Hcks, Hcvs.
  rewrite Hl_in in Hupd, Hattn.
  exists x_in, c_in, q, k_new, v_new, old_k, old_v, k', v', ks, attn_out, x_out.
  split; [exact Hpre |]. split; [exact Hl_in |].
  split; [exact Hck |]. split; [exact Hcv |].
  split; [rewrite Hfk; exact Hck |]. split; [rewrite Hfv; exact Hcv |].
  split; [exact Hcks |]. split; [exact Hcvs |].
  split; [exact Hqkv |]. split; [exact Hq |]. split; [exact Hk |]. split; [exact Hv |].
  split; [exact Hupd |]. split; [exact Hattn |]. split; [exact Hout |].
  split; [exact Hstep |]. split; [exact Hk' |]. split; [exact Hv' |].
  rewrite <- Hsplit in Hrun. rewrite forward_layers_app, Hpre in Hrun.
  cbn [forward_layers] in Hrun. unfold bindM, get, lift, put, ret, list_set in Hrun.
  rewrite Htake in Hrun. cbn [Nat.add] in Hrun. rewrite Hstep in Hrun.
  pose proof Hc_in as (Hkn' & Hvn' & _).
  destruct (Nat.ltb_spec idx (length (KVCache.k c_in))) as [_ |]; [| lia].
  destruct (Nat.ltb_spec idx (length (KVCache.v c_in))) as [_ |]; [| lia].
  destruct (forward_layers_frame flash_attention segment_ids sin cos cfg _ _ _ _ _ _ Hrun)
    as (c1' & Heq & Hframe').
  injection Heq as <-.
  destruct (Hframe' idx ltac:(left; lia)) as [Hk1 Hv1].
  cbn [KVCache.k KVCache.v] in Hk1, Hv1.
  rewrite list_lookup_insert_eq in Hk1 by lia.
  rewrite list_lookup_insert_eq in Hv1 by lia.
  split; assumption.
Qed.

(** The run of [forward] with a cache, and for every layer its input, its
    steps and the entry it leaves in the cache that [forward] returns. *)
Lemma forward_cache_trace (x segment_ids : tensor Z) (weights : Weights.t)
    (c : KVCache.t) (Vocab V : nat) :
  shape x = [B; T] -> shape segment_ids = [B; T] ->
  weights_shapes Vocab D H (2 * h) F V weights ->
  cache_shapes B H (2 * h) Tmax n c -> length (Weights.layers weights) <= n ->
  key_dim cfg = 2 * h -> T <= max_seq_len cfg ->
  let x0 := take_rows (Weights.embedding weights) x in
  let tables :=
    _generate_fixed_pos_embedding (key_dim cfg) (max_seq_len cfg)
                                  default_min_timescale default_max_timescale in
  exists logits c' cs sin cos,
    forward flash_attention x segment_ids weights cfg (Some c)
    = (Ok (logits, Some c'), Some cs) /\
    KVCache.k cs = KVCache.k c' /\ KVCache.v cs = KVCache.v c' /\
    KVCache.lengths cs = KVCache.lengths c /\
    shape (KVCache.lengths c') = [B] /\
    (forall b, b < B ->
       (KVCache.lengths c').[[b]]
       = add32 (KVCache.lengths c).[[b]] (valid_tokens segment_ids b)) /\
    slices_at (fst tables) (KVCache.lengths c) T = Ok sin /\
    slices_at (snd tables) (KVCache.lengths c) T = Ok cos /\
    forall idx layer, Weights.layers weights !! idx = Some layer ->
      exists x_in c_in q k_new v_new old_k old_v k' v' ks attn_out x_out,
        forward_layers flash_attention x0 segment_ids (take idx (Weights.layers weights))
                       sin cos 0 cfg (Some c) = (Ok x_in, Some c_in) /\
        KVCache.lengths c_in = KVCache.lengths c /\
        KVCache.k c !! idx = Some old_k /\ KVCache.v c !! idx = Some old_v /\
        KVCache.k c_in !! idx = Some old_k /\ KVCache.v c_in !! idx = Some old_v /\
        shape old_k = [B; H; Tmax; 2 * h] /\ shape old_v = [B; H; Tmax; 2 * h] /\
        layer_queries_keys_values x_in layer sin cos = Ok (q, k_new, v_new) /\
        shape q = [B; H; T; 2 * h] /\
        shape k_new = [B; H; T; 2 * h] /\ shape v_new = [B; H; T; 2 * h] /\
        cache_update k_new v_new segment_ids idx c_in
        = Ok (k', v', nonzero segment_ids, ks, KVCache.lengths c) /\
        attention q k' v' (nonzero segment_ids) ks (KVCache.lengths c) cfg
        = Ok attn_out /\
        layer_output x_in attn_out layer = Ok x_out /\
        forward_layer flash_attention x_in segment_ids layer sin cos idx cfg (Some c_in)
        = Ok (x_out, k', v') /\
        shape k' = [B; H; Tmax; 2 * h] /\ shape v' = [B; H; Tmax; 2 * h] /\
        KVCache.k c' !! idx = Some k' /\ KVCache.v c' !! idx = Some v'.
Proof using HT HTmax Hh Hkernel.
  intros Hx Hseg (Hlayers & Hemb & Hvp) Hc Hn Hkd Hlen. cbv zeta.
  rewrite forward_with_cache. cbv zeta.
  unfold take_rows at 1 2 3, ndim. cbn [shape]. rewrite Hx, Hemb.
  cbn [app tail length Nat.leb check nth].
  destruct (generate_fixed_pos_embedding_spec (key_dim cfg) (max_seq_len cfg)
              default_min_timescale default_max_timescale) as (Hs & Hc' & _).
  assert (Hhalf : (key_dim cfg + 1) / 2 = h).
  { rewrite Hkd. replace (2 * h + 1) with (1 + h * 2) by lia.
    rewrite Nat.div_add by lia. reflexivity. }
  rewrite Hhalf in Hs, Hc'.
  pose proof Hc as (_ & _ & _ & _ & Hlengths).
  destruct (slices_at_shape _ (KVCache.lengths c) (max_seq_len cfg) h B T Hs Hlengths
              Hlen) as (sin' & Hsin_eq & Hsin').
  destruct (slices_at_shape _ (KVCache.lengths c) (max_seq_len cfg) h B T Hc' Hlengths
              Hlen) as (cos' & Hcos_eq & Hcos').
  rewrite Hsin_eq, Hcos_eq.
  destruct (forward_layers_cache_trace (Weights.layers weights)
              (take_rows (Weights.embedding weights) x) segment_ids sin' cos' c)
    as (x1 & c1 & Hrun & Hx1 & Hc1 & Hl1 & Htrace);
    [unfold take_rows; cbn [shape]; rewrite Hx, Hemb; reflexivity | exact Hseg
    | exact Hsin' | exact Hcos' | exact Hlayers | exact Hc | exact Hn |].
  unfold take_rows in Hrun. unfold take_rows at 1. rewrite Hrun.
  destruct (einsum_btd_df_btf_shape x1 (Weights.vocab_proj weights) B T D V Hx1 Hvp)
    as (logits & -> & Hlogits).
  destruct Hc1 as (Hkn & Hvn & Hks & Hvs & Hl).
  destruct (broadcast2_vectors add32 (KVCache.lengths c1)
              (sum_last32 (nonzero segment_ids)) B Hl) as (lengths' & -> & Hls & Hld).
  { unfold sum_last32, nonzero, tmap. cbn [shape]. rewrite Hseg. reflexivity. }
  eexists logits, _, c1, sin', cos'. split; [reflexivity |].
  cbn [KVCache.k KVCache.v KVCache.lengths].
  split; [reflexivity |]. split; [reflexivity |]. split; [exact Hl1 |].
  split; [exact Hls |]. split.
  { intros b Hb. rewrite (Hld b Hb), Hl1. reflexivity. }
  split; [reflexivity |]. split; [reflexivity |]. exact Htrace.
Qed.

End ForwardCacheRows.

Lemma forward_cache_rows_spec
    (flash_attention : tensor R -> tensor R -> tensor R -> tensor Z -> tensor Z -> bool
                       -> R -> result (tensor R))
    (x segment_ids : tensor Z) (weights : Weights.t) (cfg : Config) (c : KVCache.t)
    (B T D H h F Tmax n Vocab V : nat) :
  shape x = [B; T] -> shape segment_ids = [B; T] ->
  weights_shapes Vocab D H (2 * h) F V weights ->
  cache_shapes B H (2 * h) Tmax n c -> length (Weights.layers weights) <= n ->
  key_dim cfg = 2 * h -> h <> 0 -> use_attn_kernel cfg = false ->
  T <= max_seq_len cfg -> T <= Tmax -> Tmax <> 0 -> (Z.of_nat Tmax <= int32_max)%Z ->
  let x0 := take_rows (Weights.embedding weights) x in
  let tables :=
    _generate_fixed_pos_embedding (key_dim cfg) (max_seq_len cfg)
                                  default_min_timescale default_max_timescale in
  exists logits c' cs sin cos,
    forward flash_attention x segment_ids weights cfg (Some c)
    = (Ok (logits, Some c'), Some cs) /\
    KVCache.k cs = KVCache.k c' /\ KVCache.v cs = KVCache.v c' /\
    slices_at (fst tables) (KVCache.lengths c) T = Ok sin /\
    slices_at (snd tables) (KVCache.lengths c) T = Ok cos /\
    forall idx layer, Weights.layers weights !! idx = Some layer ->
      exists x_in c_in q k_new v_new old_k old_v k' v' ks attn_out x_out,
        forward_layers flash_attention x0 segment_ids (take idx (Weights.layers weights))
                       sin cos 0 cfg (Some c) = (Ok x_in, Some c_in) /\
        layer_queries_keys_values x_in layer sin cos = Ok (q, k_new, v_new) /\
        KVCache.k c !! idx = Some old_k /\ KVCache.v c !! idx = Some old_v /\
        cache_update k_new v_new segment_ids idx c_in
        = Ok (k', v', nonzero segment_ids, ks, KVCache.lengths c) /\
        attention q k' v' (nonzero segment_ids) ks (KVCache.lengths c) cfg
        = Ok attn_out /\
        layer_output x_in attn_out layer = Ok x_out /\
        forward_layer flash_attention x_in segment_ids layer sin cos idx cfg (Some c_in)
        = Ok (x_out, k', v') /\
        KVCache.k c' !! idx = Some k' /\ KVCache.v c' !! idx = Some v' /\
        forall b, b < B ->
          let len := (KVCache.lengths c).[[b]] in
          let bound := add32 len (Z.of_nat (count_nonzero segment_ids b T)) in
          (forall tau, tau < Tmax ->
             ks.[[b; tau]] = if (Z.of_nat tau <? bound)%Z then 1%Z else 0%Z) /\
          (forall hd tau d, hd < H -> tau < Tmax -> d < 2 * h ->
             (bound <= Z.of_nat tau)%Z ->
             k'.[[b; hd; tau; d]] = 0%R /\ v'.[[b; hd; tau; d]] = 0%R) /\
          ((0 <= len)%Z -> (len + Z.of_nat T <= Z.of_nat Tmax)%Z ->
           bound = (len + Z.of_nat (count_nonzero segment_ids b T))%Z /\
           forall hd tau d, hd < H -> tau < Tmax -> d < 2 * h ->
             ((Z.of_nat tau < len)%Z ->
              k'.[[b; hd; tau; d]] = old_k.[[b; hd; tau; d]] /\
              v'.[[b; hd; tau; d]] = old_v.[[b; hd; tau; d]]) /\
             (forall t, t < T -> Z.of_nat tau = (len + Z.of_nat t)%Z ->
                (Z.of_nat tau < bound)%Z ->
                k'.[[b; hd; tau; d]] = k_new.[[b; hd; t; d]] /\
                v'.[[b; hd; tau; d]] = v_new.[[b; hd; t; d]])).
Proof.
  intros Hx Hseg Hw Hc Hn Hkd Hh Hkernel Hlen HT HTmax Hmax. cbv zeta.
  destruct (forward_cache_trace flash_attention B T D H h F Tmax n cfg HT HTmax Hh Hkernel
              x segment_ids weights c Vocab V Hx Hseg Hw Hc Hn Hkd Hlen)
    as (logits & c' & cs & sin & cos & Hrun & Hks & Hvs & _ & _ & _ & Hsin & Hcos
        & Htrace).
  exists logits, c', cs, sin, cos.
  split; [exact Hrun |]. split; [exact Hks |]. split; [exact Hvs |].
  split; [exact Hsin |]. split; [exact Hcos |].
  intros idx layer Hlookup.
  destruct (Htrace idx layer Hlookup)
    as (x_in & c_in & q & k_new & v_new & old_k & old_v & k' & v' & ks & attn_out
        & x_out & Hpre & Hl_in & Hck & Hcv & Hck_in & Hcv_in & Hcks & Hcvs & Hqkv
        & _ & Hk & Hv & Hupd & Hattn & Hout & Hstep & _ & _ & Hk' & Hv').
  exists x_in, c_in, q, k_new, v_new, old_k, old_v, k', v', ks, attn_out, x_out.
  split; [exact Hpre |]. split; [exact Hqkv |].
  split; [exact Hck |]. split; [exact Hcv |].
  split; [exact Hupd |]. split; [exact Hattn |]. split; [exact Hout |].
  split; [exact Hstep |]. split; [exact Hk' |]. split; [exact Hv' |].
  intros b Hb. rewrite <- Hl_in.
  destruct Hc as (_ & _ & _ & _ & Hlengths). rewrite <- Hl_in in Hlengths.
  exact (cache_update_row k_new v_new segment_ids idx c_in old_k old_v B H T Tmax (2 * h)
           k' v' (nonzero segment_ids) ks (KVCache.lengths c) b
           Hck_in Hcv_in Hk Hv Hseg Hcks Hcvs Hlengths HT Hmax Hupd Hb).
Qed.

(** C2.  In a forward call with a cache, on tokens, weights and a cache of
    the expected shapes and without the kernel, [forward] returns a cache
    that holds, for every layer [idx], the keys and values [k'], [v'] that
    [cache_update] computes from those of the chunk ([k_new], [v_new], which
    the layer computes from its input [x_in]) and from the entry of the
    cache, and the layer attends with the key-segment ids [ks] of that
    update.  For every batch row [b], with [len] the prior length of the row
    and [bound] the length plus the number of non-padding tokens of the row
    of the chunk (in 32-bit integers): [ks] is 1 exactly at the positions
    below [bound], and [k'], [v'] are zero at every position at or beyond
    [bound].  For every row whose chunk fits in the buffer behind the length
    of the row ([0 <= len] and [len + T <= Tmax]): the chunk is written from
    the row's own length on, token [t] at position [len + t], and the
    positions before [len] keep the previous content of the cache. *)
Theorem forward_cache_rows
    (flash_attention : tensor R -> tensor R -> tensor R -> tensor Z -> tensor Z -> bool
                       -> R -> result (tensor R))
    (x segment_ids : tensor Z) (weights : Weights.t) (cfg : Config) (c : KVCache.t)
    (B T D H h F Tmax n Vocab V : nat) :
  shape x = [B; T] -> shape segment_ids = [B; T] ->
  weights_shapes Vocab D H (2 * h) F V weights ->
  cache_shapes B H (2 * h) Tmax n c -> length (Weights.layers weights) <= n ->
  key_dim cfg = 2 * h -> h <> 0 -> use_attn_kernel cfg = false ->
  T <= max_seq_len cfg -> T <= Tmax -> Tmax <> 0 -> (Z.of_nat Tmax <= int32_max)%Z ->
  let x0 := take_rows (Weights.embedding weights) x in
  let tables :=
    _generate_fixed_pos_embedding (key_dim cfg) (max_seq_len cfg)
                                  default_min_timescale default_max_timescale in
  exists logits c' cs sin cos,
    forward flash_attention x segment_ids weights cfg (Some c)
    = (Ok (logits, Some c'), Some cs) /\
    KVCache.k cs = KVCache.k c' /\ KVCache.v cs = KVCache.v c' /\
    slices_at (fst tables) (KVCache.lengths c) T = Ok sin /\
    slices_at (snd tables) (KVCache.lengths c) T = Ok cos /\
    forall idx layer, Weights.layers weights !! idx = Some layer ->
      exists x_in c_in q k_new v_new old_k old_v k' v' ks attn_out x_out,
        forward_layers flash_attention x0 segment_ids (take idx (Weights.layers weights))
                       sin cos 0 cfg (Some c) = (Ok x_in, Some c_in) /\
        layer_queries_keys_values x_in layer sin cos = Ok (q, k_new, v_new) /\
        KVCache.k c !! idx = Some old_k /\ KVCache.v c !! idx = Some old_v /\
        cache_update k_new v_new segment_ids idx c_in
        = Ok (k', v', nonzero segment_ids, ks, KVCache.lengths c) /\
        attention q k' v' (nonzero segment_ids) ks (KVCache.lengths c) cfg
        = Ok attn_out /\
        layer_output x_in attn_out layer = Ok x_out /\
        forward_layer flash_attention x_in segment_ids layer sin cos idx cfg (Some c_in)
        = Ok (x_out, k', v') /\
        KVCache.k c' !! idx = Some k' /\ KVCache.v c' !! idx = Some v' /\
        forall b, b < B ->
          let len := (KVCache.lengths c).[[b]] in
          let bound := add32 len (Z.of_nat (count_nonzero segment_ids b T)) in
          (forall tau, tau < Tmax ->
             ks.[[b; tau]] = if (Z.of_nat tau <? bound)%Z then 1%Z else 0%Z) /\
          (forall hd tau d, hd < H -> tau < Tmax -> d < 2 * h ->
             (bound <= Z.of_nat tau)%Z ->
             k'.[[b; hd; tau; d]] = 0%R /\ v'.[[b; hd; tau; d]] = 0%R) /\
          ((0 <= len)%Z -> (len + Z.of_nat T <= Z.of_nat Tmax)%Z ->
           bound = (len + Z.of_nat (count_nonzero segment_ids b T))%Z /\
           forall hd tau d, hd < H -> tau < Tmax -> d < 2 * h ->
             ((Z.of_nat tau < len)%Z ->
              k'.[[b; hd; tau; d]] = old_k.[[b; hd; tau; d]] /\
              v'.[[b; hd; tau; d]] = old_v.[[b; hd; tau; d]]) /\
             (forall t, t < T -> Z.of_nat tau = (len + Z.of_nat t)%Z ->
                (Z.of_nat tau < bound)%Z ->
                k'.[[b; hd; tau; d]] = k_new.[[b; hd; t; d]] /\
                v'.[[b; hd; tau; d]] = v_new.[[b; hd; t; d]])).
Proof.
  exact (forward_cache_rows_spec flash_attention x segment_ids weights cfg c
           B T D H h F Tmax n Vocab V).
Qed.

(** A chunk of two tokens goes into a fresh cache of four positions: the
    cache that [forward] returns holds the keys of the chunk at the positions
    0 and 1 and zeros at the positions 2 and 3. *)
Lemma forward_cache_rows_witness :
  exists logits c' cs q k_new v_new sin cos k',
    forward no_flash_attention reference_chunk reference_chunk reference_weights
            reference_cfg (Some reference_cache) = (Ok (logits, Some c'), Some cs) /\
    layer_queries_keys_values
      (take_rows (Weights.embedding reference_weights) reference_chunk)
      reference_layer sin cos = Ok (q, k_new, v_new) /\
    KVCache.k c' !! 0 = Some k' /\
    k'.[[0; 0; 0; 0]] = k_new.[[0; 0; 0; 0]] /\
    k'.[[0; 0; 1; 0]] = k_new.[[0; 0; 1; 0]] /\
    k'.[[0; 0; 2; 0]] = 0%R /\ k'.[[0; 0; 3; 0]] = 0%R.
Proof.
  destruct (forward_cache_rows no_flash_attention reference_chunk reference_chunk
              reference_weights reference_cfg reference_cache 1 2 2 1 1 2 4 1 3 3)
    as (logits & c' & cs & sin & cos & Hrun & _ & _ & _ & _ & Htrace);
    [reflexivity | reflexivity | exact reference_weights_shapes
    | exact reference_cache_shapes | cbn; lia | reflexivity | lia | reflexivity
    | cbn; lia | lia | lia | unfold int32_max; lia |].
  destruct (Htrace 0 reference_layer eq_refl)
    as (x_in & c_in & q & k_new & v_new & old_k & old_v & k' & v' & ks & attn_out
        & x_out & Hpre & Hqkv & _ & _ & _ & _ & _ & _ & Hk' & _ & Hrows).
  cbn [take forward_layers] in Hpre. unfold ret in Hpre. injection Hpre as <- <-.
  destruct (Hrows 0 ltac:(lia)) as (_ & Hzero & Hfit). cbv zeta in Hzero, Hfit.
  destruct Hfit as (_ & Hfit); [cbn; lia | cbn; lia |].
  exists logits, c', cs, q, k_new, v_new, sin, cos, k'.
  split; [exact Hrun |]. split; [exact Hqkv |]. split; [exact Hk' |].
  split; [| split; [| split]].
  - destruct (Hfit 0 0 0) as (_ & Hnew); [lia .. |].
    destruct (Hnew 0) as [Hk0 _]; [lia | reflexivity | vm_compute; reflexivity |].
    exact Hk0.
  - destruct (Hfit 0 1 0) as (_ & Hnew); [lia .. |].
    destruct (Hnew 1) as [Hk1 _]; [lia | reflexivity | vm_compute; reflexivity |].
    exact Hk1.
  - destruct (Hzero 0 2 0) as [Hk2 _]; [lia .. | vm_compute; discriminate |].
    exact Hk2.
  - destruct (Hzero 0 3 0) as [Hk3 _]; [lia .. | vm_compute; discriminate |].
    exact Hk3.
Defined.

Lemma full_cache_shapes : cache_shapes 1 1 (2 * 1) 4 1 full_cache.
Proof.
  unfold cache_shapes, full_cache. cbn [KVCache.k KVCache.v KVCache.lengths length].
  repeat split; repeat constructor.
Qed.

(** The row of [full_cache] has length 3 and the buffer has 4 positions: a
    chunk of two tokens does not fit behind the length.  [forward] does not
    write it from position 3 on: the values of token 0 are at position 2,
    over the entry 1 that the cache held there, and those of token 1 at
    position 3. *)
Lemma forward_cache_row_overflow :
  exists logits c' cs q k_new v_new sin cos v',
    forward no_flash_attention reference_chunk reference_chunk reference_weights
            reference_cfg (Some full_cache) = (Ok (logits, Some c'), Some cs) /\
    (KVCache.lengths full_cache).[[0]] = 3%Z /\
    KVCache.v full_cache !! 0 = Some (ones [1; 1; 4; 2]) /\
    layer_queries_keys_values
      (take_rows (Weights.embedding reference_weights) reference_chunk)
      reference_layer sin cos = Ok (q, k_new, v_new) /\
    KVCache.v c' !! 0 = Some v' /\
    v'.[[0; 0; 2; 0]] = v_new.[[0; 0; 0; 0]] /\
    v'.[[0; 0; 3; 0]] = v_new.[[0; 0; 1; 0]] /\
    v'.[[0; 0; 2; 0]] <> (ones [1; 1; 4; 2]).[[0; 0; 2; 0]].
Proof.
  destruct (forward_cache_trace no_flash_attention 1 2 2 1 1 2 4 1 reference_cfg
              ltac:(lia) ltac:(lia) ltac:(lia) eq_refl reference_chunk reference_chunk
              reference_weights full_cache 3 3)
    as (logits & c' & cs & sin & cos & Hrun & _ & _ & _ & _ & _ & Hsin & Hcos & Htrace);
    [reflexivity | reflexivity | exact reference_weights_shapes
    | exact full_cache_shapes | cbn; lia | reflexivity | cbn; lia |].
  destruct (Htrace 0 reference_layer eq_refl)
    as (x_in & c_in & q & k_new & v_new & old_k & old_v & k' & v' & ks & attn_out
        & x_out & Hpre & _ & Hck & Hcv & _ & _ & _ & _ & Hqkv & _ & Hk & Hv & Hupd & _
        & _ & _ & _ & _ & _ & Hv').
  cbn [take forward_layers] in Hpre. unfold ret in Hpre. injection Hpre as <- <-.
  cbn in Hck, Hcv. injection Hck as <-. injection Hcv as <-.
  destruct (cache_update_spec k_new v_new reference_chunk 0 full_cache
              (ones [1; 1; 4; 2]) (ones [1; 1; 4; 2]) 1 1 2 4 (2 * 1))
    as (k'' & v'' & ks' & Hupd' & _ & _ & _ & Hmask & Hdata);
    [reflexivity | reflexivity | exact Hk | exact Hv | reflexivity | reflexivity
    | reflexivity | reflexivity | lia |].
  rewrite Hupd in Hupd'. injection Hupd' as <- <- <-.
  destruct (Hdata 0 0 2 0) as [_ Hv2]; [lia .. |].
  destruct (Hdata 0 0 3 0) as [_ Hv3]; [lia .. |].
  pose proof (Hmask 0 2 ltac:(lia) ltac:(lia)) as Hm2.
  pose proof (Hmask 0 3 ltac:(lia) ltac:(lia)) as Hm3.
  cbv zeta in Hv2, Hv3, Hm2, Hm3.
  change (ks.[[0; 2]] = 1%Z) in Hm2. change (ks.[[0; 3]] = 1%Z) in Hm3.
  rewrite Hm2 in Hv2. rewrite Hm3 in Hv3.
  change (v'.[[0; 0; 2; 0]] = Rmult v_new.[[0; 0; 0; 0]] 1) in Hv2.
  change (v'.[[0; 0; 3; 0]] = Rmult v_new.[[0; 0; 1; 0]] 1) in Hv3.
  rewrite Rmult_1_r in Hv2, Hv3.
  exists logits, c', cs, q, k_new, v_new, sin, cos, v'.
  split; [exact Hrun |]. split; [reflexivity |]. split; [reflexivity |].
  split; [exact Hqkv |]. split; [exact Hv' |]. split; [exact Hv2 |].
  split; [exact Hv3 |].
  rewrite Hv2.
  assert (Hsin_s : shape sin = [1; 2; 1]).
  { destruct (generate_fixed_pos_embedding_spec (key_dim reference_cfg)
                (max_seq_len reference_cfg) default_min_timescale default_max_timescale)
      as (Hs & _ & _).
    destruct (slices_at_shape _ (KVCache.lengths full_cache) (max_seq_len reference_cfg)
                1 1 2 Hs eq_refl ltac:(cbn; lia)) as (sin' & Hsin' & Hshape).
    rewrite Hsin in Hsin'. injection Hsin' as <-. exact Hshape. }
  assert (Hcos_s : shape cos = [1; 2; 1]).
  { destruct (generate_fixed_pos_embedding_spec (key_dim reference_cfg)
                (max_seq_len reference_cfg) default_min_timescale default_max_timescale)
      as (_ & Hc & _).
    destruct (slices_at_shape _ (KVCache.lengths full_cache) (max_seq_len reference_cfg)
                1 1 2 Hc eq_refl ltac:(cbn; lia)) as (cos' & Hcos' & Hshape).
    rewrite Hcos in Hcos'. injection Hcos' as <-. exact Hshape. }
  destruct (layer_queries_keys_values_shape
              (take_rows (Weights.embedding reference_weights) reference_chunk)
              reference_layer sin cos 1 2 2 1 1 2 eq_refl Hsin_s Hcos_s)
    as (q' & k_new' & v_new' & Hqkv' & _ & _ & _ & Hvd).
  { destruct reference_weights_shapes as (Hall & _).
    exact (proj1 (Forall_lookup _ _) Hall 0 reference_layer eq_refl). }
  assert (Hsame : Ok (q, k_new, v_new) = Ok (q', k_new', v_new'))
    by (rewrite <- Hqkv; exact Hqkv').
  injection Hsame as -> -> ->.
  rewrite (Hvd 0 0 0 0) by lia.
  cbn [rsum]. unfold reference_layer, reference_weights, reference_chunk, take_rows,
    ones, full. cbn [Layer.gamma1 Layer.v Weights.embedding shape data].
  intros Heq.
  set (s := sqrt ((0 + 1 ^ 2 + 1 ^ 2) / INR 2 + 1e-6)) in Heq.
  assert (Hs2 : (s * s = (0 + 1 ^ 2 + 1 ^ 2) / INR 2 + 1e-6)%R).
  { apply sqrt_sqrt. cbn [INR]. lra. }
  assert (Hpos : (0 < s)%R).
  { apply sqrt_lt_R0. cbn [INR]. lra. }
  cbn [INR] in Hs2.
  assert (Hs : s = 2%R).
  { apply (Rmult_eq_reg_r (/ s)); [| apply Rinv_neq_0_compat; lra].
    rewrite Rinv_r by lra. lra. }
  rewrite Hs in Hs2. lra.
Qed.

(** ** Prompts with zero tokens in the forward pass *)






(** ** The chunk of one generated token *)

(** X11.  The decoding loop of [sample_from_prompt] makes a chunk of one
    position from the token it generated.  In [forward] called on that chunk,
    with a cache of one row, the length of the row advances by one when the
    token is not 0 and not at all when it is 0, which [prepare_chunk] treats
    as padding. *)
Theorem decode_chunk_advances_length
    (flash_attention : tensor R -> tensor R -> tensor R -> tensor Z -> tensor Z -> bool
                       -> R -> result (tensor R))
    (next_token : tensor Z) (weights : Weights.t) (cfg : Config) (c : KVCache.t)
    (D H h F Tmax n Vocab V : nat) :
  shape next_token = [1] ->
  weights_shapes Vocab D H (2 * h) F V weights ->
  cache_shapes 1 H (2 * h) Tmax n c -> length (Weights.layers weights) <= n ->
  key_dim cfg = 2 * h -> h <> 0 -> use_attn_kernel cfg = false ->
  1 <= max_seq_len cfg -> Tmax <> 0 ->
  (int32_min <= (KVCache.lengths c).[[0%nat]] < int32_max)%Z ->
  exists prompt segment_ids logits c' cs,
    prepare_chunk next_token 1 0 = Ok (prompt, segment_ids) /\
    prompt.[[0; 0]] = next_token.[[0]] /\
    segment_ids.[[0; 0]] = (if Z.eqb next_token.[[0]] 0 then 0%Z else 1%Z) /\
    forward flash_attention prompt segment_ids weights cfg (Some c)
    = (Ok (logits, Some c'), Some cs) /\
    (KVCache.lengths c').[[0]]
    = Z.add (KVCache.lengths c).[[0]] (if Z.eqb next_token.[[0]] 0 then 0%Z else 1%Z).
Proof.
  intros Hshape Hw Hc Hn Hkd Hh Hkernel Hmax HTmax Hlen.
  destruct (prepare_chunk_spec next_token 1 1 0 Hshape ltac:(lia))
    as (prompt & seg & Hprep & Hps & Hss & Hdata & _ & Hseg).
  destruct (forward_cache_trace flash_attention 1 1 D H h F Tmax n cfg ltac:(lia) HTmax Hh
              Hkernel prompt seg weights c Vocab V Hps Hss Hw Hc Hn Hkd Hmax)
    as (logits & c' & cs & sin & cos & Hrun & _ & _ & _ & _ & Hlen' & _).
  exists prompt, seg, logits, c', cs.
  split; [exact Hprep |]. split; [apply Hdata; lia |].
  split; [rewrite Hseg, (Hdata 0) by lia; reflexivity |].
  split; [exact Hrun |].
  rewrite (Hlen' 0) by lia.
  rewrite (valid_tokens_count seg 1 1 0 Hss ltac:(unfold int32_max; lia)).
  unfold count_nonzero. cbn [seq List.filter]. rewrite Hseg, (Hdata 0) by lia.
  destruct (Z.eqb next_token.[[0]] 0); cbn [Z.eqb negb length Z.of_nat];
    apply add32_small; unfold int32_min, int32_max in *; lia.
Qed.

Lemma decode_chunk_advances_length_witness :
  exists prompt segment_ids logits c' cs,
    prepare_chunk (of_list 0%Z [0%Z]) 1 0 = Ok (prompt, segment_ids) /\
    forward no_flash_attention prompt segment_ids reference_weights reference_cfg
            (Some full_cache) = (Ok (logits, Some c'), Some cs) /\
    (KVCache.lengths c').[[0]] = 3%Z.
Proof.
  destruct (decode_chunk_advances_length no_flash_attention (of_list 0%Z [0%Z])
              reference_weights reference_cfg full_cache 2 1 1 2 4 1 3 3)
    as (prompt & seg & logits & c' & cs & Hprep & _ & _ & Hrun & Hlen);
    [reflexivity | exact reference_weights_shapes | exact full_cache_shapes | cbn; lia
    | reflexivity | lia | reflexivity | cbn; lia | lia
    | unfold int32_min, int32_max; cbn; lia |].
  exists prompt, seg, logits, c', cs.
  split; [exact Hprep |]. split; [exact Hrun | exact Hlen].
Defined.
